(** * The performance counters and the duplication sync timer of rDSN

    A shallow embedding of [simple_perf_counter.cpp] (the three counter
    classes [perf_counter_number], [perf_counter_rate] and above all
    [perf_counter_number_percentile] with its ring buffer [_queue], its
    periodic [calc] and the median-of-medians multi-selection [select] /
    [find_mid], and the dispatcher [simple_perf_counter]) and of
    [duplication_sync_timer.cpp], followed by the properties of the
    embedding.

    Conventions of the embedding.
    - A C++ array is a total function [Z -> Z]; every access goes through a
      primitive that checks the index against the bounds of the array and
      yields [Undefined] outside of them.
    - Methods live in a state-and-error monad [M S A := S -> outcome S A];
      [dassert(false, msg)] is [Aborted], an out-of-bounds access is
      [Undefined], and [Timeout] says that the fuel given to a loop of the
      model was used up.
    - [_tail] is a [std::atomic<int>]: its increment wraps around at 32 bits.
      Values of type [uint64_t] wrap around at 64 bits where the code does
      arithmetic on them ([_ask]).  The [int] locals of [find_mid], [select]
      and [calc] are array indices and are computed in [Z].
    - A [double] that a method of the number or percentile counter returns is
      integer valued (it is [-1.0] or the conversion of a [uint64_t]) and is
      represented by that integer; the products [tmp_num * 0.90] of [calc] and
      the quotient of the rate counter are computed with the kernel's binary64
      floats.
    - Objects of other files (the timer of boost, the replica stub, the RPC
      layer) are not modelled: the calls made on them are recorded in order,
      and what they return is an argument of the model. *)

From Stdlib Require Import String.
From Stdlib Require Import ZArith Lia List Bool Permutation Sorted.
From Stdlib Require Import Floats Uint63.
Import ListNotations.
Open Scope Z_scope.

Set Warnings "-inexact-float".

(** ** Outcomes and the monad *)

Inductive outcome (S A : Type) : Type :=
| Done (s : S) (a : A)            (* normal return: new state, result *)
| Aborted (s : S) (msg : string)  (* dassert(false, msg), in state s *)
| Undefined                       (* access outside an array *)
| Timeout.                        (* the model's fuel ran out *)

Arguments Done {S A} s a.
Arguments Aborted {S A} s msg.
Arguments Undefined {S A}.
Arguments Timeout {S A}.

Definition M (S A : Type) : Type := S -> outcome S A.

Definition ret {S A} (a : A) : M S A := fun s => Done s a.

Definition bind {S A B} (m : M S A) (k : A -> M S B) : M S B :=
  fun s =>
    match m s with
    | Done s' a => k a s'
    | Aborted s' msg => Aborted s' msg
    | Undefined => Undefined
    | Timeout => Timeout
    end.

Declare Scope monad_scope.
Delimit Scope monad_scope with monad.
Notation "x <- m ;; k" := (bind m (fun x => k))
  (at level 61, m at next level, right associativity) : monad_scope.
Notation "m ;; k" := (bind m (fun _ => k))
  (at level 61, right associativity) : monad_scope.
Open Scope monad_scope.

(** Modelled from the spec: the macro [dassert] is declared outside this file;
    the spec calls a failed contract "fail fast (abort/panic-equivalent)", so
    [dassert(false, msg)] ends the run in the state it was reached in. *)
Definition dassert_false {S A} (msg : string) : M S A := fun s => Aborted s msg.

Definition undefined {S A} : M S A := fun _ => Undefined.

(** A [while] loop with local variables [v]: the condition may read the state
    but does not change it; [fuel] bounds the number of iterations. *)
Fixpoint while_ {S V} (fuel : nat) (cond : V -> M S bool) (body : V -> M S V)
    (v : V) : M S V :=
  match fuel with
  | O => fun _ => Timeout
  | Datatypes.S f =>
      b <- cond v ;;
      if b : bool then (v' <- body v ;; while_ f cond body v') else ret v
  end.

(** ** Machine integers *)

Definition INT_MIN : Z := - 2 ^ 31.
Definition INT_MAX : Z := 2 ^ 31 - 1.

(** [int] arithmetic of [std::atomic<int>]: two's complement, no undefined
    result. *)
Definition wrap_int (z : Z) : Z := (z + 2 ^ 31) mod 2 ^ 32 - 2 ^ 31.

(** [uint64_t] arithmetic. *)
Definition wrap_u64 (z : Z) : Z := z mod 2 ^ 64.

Definition is_u64 (z : Z) : Prop := 0 <= z < 2 ^ 64.

(** The conversion [(double)v] of a [uint64_t]: round to nearest, ties to
    even, on 53 bits of precision.  The result is an integer. *)
Definition u64_to_double (v : Z) : Z :=
  if v <? 2 ^ 53 then v
  else
    let e := Z.log2 v - 52 in
    let q := Z.shiftr v e in
    let r := v - Z.shiftl q e in
    let half := Z.shiftl 1 (e - 1) in
    if (half <? r) || ((r =? half) && Z.odd q)
    then Z.shiftl (q + 1) e else Z.shiftl q e.

(** [(int)f] for a binary64 [f]: truncation toward zero. *)
Definition double_to_int (f : float) : Z :=
  match Prim2SF f with
  | S754_finite s m e =>
      let a := if 0 <=? e then Z.shiftl (Zpos m) e else Z.shiftr (Zpos m) (- e) in
      if s then - a else a
  | _ => 0
  end.

(** The conversion of an [int] to [double] (exact). *)
Definition int_to_double (n : Z) : float :=
  if 0 <=? n then of_uint63 (Uint63.of_Z n)
  else PrimFloat.opp (of_uint63 (Uint63.of_Z (- n))).

(** The conversion [(double)v] of a [uint64_t] as a binary64 number: the
    nearest one, ties to even. *)
Definition u64_to_float (v : Z) : float :=
  SF2Prim (binary_normalize prec emax v 0 false).

(** ** Arrays *)

Definition array : Type := Z -> Z.

Definition upd {A} (a : Z -> A) (i : Z) (v : A) : Z -> A :=
  fun j => if j =? i then v else a j.

Definition within (lo hi i : Z) : bool := (lo <=? i) && (i <=? hi).

(** ** NUMBER perf counter *)

Module Number.

Record perf_counter_number : Type := mk { _val : Z }.

Definition increment : M perf_counter_number unit :=
  fun c => Done (mk (wrap_u64 (_val c + 1))) tt.
Definition decrement : M perf_counter_number unit :=
  fun c => Done (mk (wrap_u64 (_val c - 1))) tt.
Definition add (val : Z) : M perf_counter_number unit :=
  fun c => Done (mk (wrap_u64 (_val c + val))) tt.
Definition set (val : Z) : M perf_counter_number unit :=
  dassert_false "invalid execution flow".
Definition get_value : M perf_counter_number Z :=
  fun c => Done c (u64_to_double (_val c)).

Definition get_percentile (type : Z) : M perf_counter_number Z := get_value.

(** The constructor: [_val(0)]. *)
Definition init : perf_counter_number := mk 0.

End Number.

(** ** RATE perf counter *)

Module Rate.

Record perf_counter_rate : Type := mk { _val : Z; qts : Z }.

(** The constructor: [_val(0)] and [qts = 0]. *)
Definition init : perf_counter_rate := mk 0 0.

Definition increment : M perf_counter_rate unit :=
  fun c => Done (mk (wrap_u64 (_val c + 1)) (qts c)) tt.
Definition decrement : M perf_counter_rate unit :=
  fun c => Done (mk (wrap_u64 (_val c - 1)) (qts c)) tt.
Definition add (val : Z) : M perf_counter_rate unit :=
  fun c => Done (mk (wrap_u64 (_val c + val)) (qts c)) tt.
Definition set (val : Z) : M perf_counter_rate unit :=
  dassert_false "invalid execution flow".

(** [now] is what [::dsn::service::env::now_ns()] returns to this call.  The
    result is [val / interval * 1000 * 1000 * 1000] in binary64. *)
Definition get_value (now : Z) : M perf_counter_rate float :=
  fun c =>
    let interval := wrap_u64 (now - qts c) in
    let val := u64_to_float (_val c) in
    Done (mk 0 now)
         (PrimFloat.mul
            (PrimFloat.mul
               (PrimFloat.mul (PrimFloat.div val (u64_to_float interval)) 1000)
               1000)
            1000).
Definition get_percentile (type : Z) (now : Z) : M perf_counter_rate float :=
  get_value now.

End Rate.

(** ** NUMBER_PERCENTILE perf counter *)

Definition MAX_QUEUE_LENGTH : Z := 50000.

(** Modelled from the spec: [counter_percentile_type] is declared outside this
    file; the spec gives the closed enumeration p50, p90, p95, p99, p99.9, in
    that order, which a C++ enum numbers from 0, with
    [COUNTER_PERCENTILE_COUNT] closing the list. *)
Definition COUNTER_PERCENTILE_50 : Z := 0.
Definition COUNTER_PERCENTILE_90 : Z := 1.
Definition COUNTER_PERCENTILE_95 : Z := 2.
Definition COUNTER_PERCENTILE_99 : Z := 3.
Definition COUNTER_PERCENTILE_999 : Z := 4.
Definition COUNTER_PERCENTILE_COUNT : Z := 5.

(** A row of [_calc_queue]: the columns [_LEFT], [_RIGHT], [_QLEFT],
    [_QRIGHT]. *)
Record task : Type := mkTask {
  t_left : Z; t_right : Z; t_qleft : Z; t_qright : Z
}.

Record counter : Type := mkCounter {
  _tail : Z;                 (* std::atomic<int> *)
  _queue : array;            (* uint64_t [MAX_QUEUE_LENGTH] *)
  _tmp : array;              (* uint64_t [MAX_QUEUE_LENGTH] *)
  _mid_temp : array;         (* uint64_t [MAX_QUEUE_LENGTH] *)
  _ask : array;              (* uint64_t [COUNTER_PERCENTILE_COUNT] *)
  _ans : array;              (* uint64_t [COUNTER_PERCENTILE_COUNT] *)
  _calc_queue : Z -> task    (* int [MAX_QUEUE_LENGTH * 10][4] *)
}.

Definition with_tail (st : counter) (t : Z) : counter :=
  mkCounter t (_queue st) (_tmp st) (_mid_temp st) (_ask st) (_ans st) (_calc_queue st).
Definition with_queue (st : counter) (a : array) : counter :=
  mkCounter (_tail st) a (_tmp st) (_mid_temp st) (_ask st) (_ans st) (_calc_queue st).
Definition with_tmp (st : counter) (a : array) : counter :=
  mkCounter (_tail st) (_queue st) a (_mid_temp st) (_ask st) (_ans st) (_calc_queue st).
Definition with_mid_temp (st : counter) (a : array) : counter :=
  mkCounter (_tail st) (_queue st) (_tmp st) a (_ask st) (_ans st) (_calc_queue st).
Definition with_ask (st : counter) (a : array) : counter :=
  mkCounter (_tail st) (_queue st) (_tmp st) (_mid_temp st) a (_ans st) (_calc_queue st).
Definition with_ans (st : counter) (a : array) : counter :=
  mkCounter (_tail st) (_queue st) (_tmp st) (_mid_temp st) (_ask st) a (_calc_queue st).
Definition with_calc_queue (st : counter) (q : Z -> task) : counter :=
  mkCounter (_tail st) (_queue st) (_tmp st) (_mid_temp st) (_ask st) (_ans st) q.

(** The constructor sets [_tail(0)] and nothing else: the arrays keep whatever
    the memory [mem] of the new object holds. *)
Definition perf_counter_number_percentile (mem : counter) : counter :=
  with_tail mem 0.

(** *** Checked accesses *)

(** [_tmp] is read and written through a window [lo .. hi]: the program runs
    with the whole array, [0 .. MAX_QUEUE_LENGTH - 1]; a smaller window is
    used to state which part of the array a call touches. *)
Definition load_tmp (lo hi i : Z) : M counter Z :=
  fun st => if within lo hi i then Done st (_tmp st i) else Undefined.
Definition store_tmp (lo hi i v : Z) : M counter unit :=
  fun st => if within lo hi i then Done (with_tmp st (upd (_tmp st) i v)) tt else Undefined.

Definition load_queue (i : Z) : M counter Z :=
  fun st => if within 0 (MAX_QUEUE_LENGTH - 1) i then Done st (_queue st i) else Undefined.
Definition store_queue (i v : Z) : M counter unit :=
  fun st => if within 0 (MAX_QUEUE_LENGTH - 1) i
            then Done (with_queue st (upd (_queue st) i v)) tt else Undefined.

Definition load_mid_temp (i : Z) : M counter Z :=
  fun st => if within 0 (MAX_QUEUE_LENGTH - 1) i then Done st (_mid_temp st i) else Undefined.
Definition store_mid_temp (i v : Z) : M counter unit :=
  fun st => if within 0 (MAX_QUEUE_LENGTH - 1) i
            then Done (with_mid_temp st (upd (_mid_temp st) i v)) tt else Undefined.

Definition load_ask (i : Z) : M counter Z :=
  fun st => if within 0 (COUNTER_PERCENTILE_COUNT - 1) i then Done st (_ask st i) else Undefined.
Definition store_ask (i v : Z) : M counter unit :=
  fun st => if within 0 (COUNTER_PERCENTILE_COUNT - 1) i
            then Done (with_ask st (upd (_ask st) i v)) tt else Undefined.

Definition store_ans (i v : Z) : M counter unit :=
  fun st => if within 0 (COUNTER_PERCENTILE_COUNT - 1) i
            then Done (with_ans st (upd (_ans st) i v)) tt else Undefined.

Definition load_calc_queue (i : Z) : M counter task :=
  fun st => if within 0 (MAX_QUEUE_LENGTH * 10 - 1) i
            then Done st (_calc_queue st i) else Undefined.
Definition store_calc_queue (i : Z) (t : task) : M counter unit :=
  fun st => if within 0 (MAX_QUEUE_LENGTH * 10 - 1) i
            then Done (with_calc_queue st (upd (_calc_queue st) i t)) tt else Undefined.

(** *** The public methods *)

Definition increment : M counter unit := dassert_false "invalid execution flow".
Definition decrement : M counter unit := dassert_false "invalid execution flow".
Definition add (val : Z) : M counter unit := dassert_false "invalid execution flow".

(** [auto idx = _tail++; _queue[idx % MAX_QUEUE_LENGTH] = val;]
    ([%] truncates toward zero: [Z.rem]). *)
Definition set (val : Z) : M counter unit :=
  fun st =>
    let idx := _tail st in
    store_queue (Z.rem idx MAX_QUEUE_LENGTH) val (with_tail st (wrap_int (idx + 1))).

Definition get_value : M counter Z := dassert_false "invalid execution flow".

Definition get_percentile (type : Z) : M counter Z :=
  fun st =>
    if _tail st =? 0 then Done st (-1)
    else if (type <? 0) || (type >=? COUNTER_PERCENTILE_COUNT)
    then dassert_false "send a wrong counter percentile type" st
    else Done st (u64_to_double (_ans st type)).

Notation "' pat <- m ;; k" := (bind m (fun x => match x with pat => k end))
  (at level 61, pat pattern, m at next level, right associativity) : monad_scope.

(** *** [insert_calc_queue] *)

Definition insert_calc_queue (left right qleft qright calc_tail : Z) : M counter Z :=
  let calc_tail := calc_tail + 1 in
  store_calc_queue calc_tail (mkTask left right qleft qright) ;;
  ret calc_tail.

(** *** [find_mid]: the median of the medians of the runs of five *)

(** [for (j = i - 1; (j >= index) && (_mid_temp[j] > k); j--)
       _mid_temp[j + 1] = _mid_temp[j];]  -- returns the final [j]. *)
Definition shift_loop (fuel : nat) (index k : Z) : Z -> M counter Z :=
  while_ fuel
    (fun j => if j >=? index then (x <- load_mid_temp j ;; ret (x >? k)) else ret false)
    (fun j => x <- load_mid_temp j ;; store_mid_temp (j + 1) x ;; ret (j - 1)).

(** [for (int i = index; i < index + remain_num; i++) { ... }]: the insertion
    sort of one run. *)
Definition sort_group (fuel : nat) (index remain_num : Z) : M counter Z :=
  while_ fuel
    (fun i => ret (i <? index + remain_num))
    (fun i =>
       k <- load_mid_temp i ;;
       j <- shift_loop fuel index k (i - 1) ;;
       store_mid_temp (j + 1) k ;;
       ret (i + 1))
    index.

(** [for (index = left; index < right; index += 5) { ... }] *)
Definition groups_loop (fuel : nat) (left right : Z) : M counter Z :=
  while_ fuel
    (fun index => ret (index <? right))
    (fun index =>
       let remain_num := if index + 5 >=? right then right - index + 1 else 5 in
       sort_group fuel index remain_num ;;
       m <- load_mid_temp (index + Z.quot remain_num 2) ;;
       store_mid_temp (Z.quot (index - left) 5) m ;;
       ret (index + 5))
    left.

Fixpoint find_mid (fuel : nat) (left right : Z) : M counter Z :=
  match fuel with
  | O => fun _ => Timeout
  | Datatypes.S f =>
      if left =? right then load_mid_temp left
      else
        groups_loop fuel left right ;;
        find_mid f 0 (Z.quot (right - left - 1) 5)
  end.

(** *** [select] *)

Section Select.

(** The window of [_tmp] (see [load_tmp]) and the fuel of the loops. *)
Variables (fuel : nat) (lo hi : Z).

(** [for (i = qleft; i <= qright; i++)
      if (_ask[i] == 1) _ans[i] = _tmp[left];
      else dassert(false, "select percentail wrong!!!");] *)
Definition answer_loop (left qleft qright : Z) : M counter Z :=
  while_ fuel
    (fun i => ret (i <=? qright))
    (fun i =>
       a <- load_ask i ;;
       (if a =? 1 then (x <- load_tmp lo hi left ;; store_ans i x)
        else dassert_false "select percentail wrong!!!") ;;
       ret (i + 1))
    qleft.

(** [for (i = left; i <= right; i++) _mid_temp[i] = _tmp[i];] *)
Definition copy_loop (left right : Z) : M counter Z :=
  while_ fuel
    (fun i => ret (i <=? right))
    (fun i => x <- load_tmp lo hi i ;; store_mid_temp i x ;; ret (i + 1))
    left.

(** [for (index = left; index <= right; index++)
      if (_tmp[index] == mid) break;] *)
Definition find_pivot (mid left right : Z) : M counter Z :=
  while_ fuel
    (fun index =>
       if index <=? right then (x <- load_tmp lo hi index ;; ret (negb (x =? mid)))
       else ret false)
    (fun index => ret (index + 1))
    left.

(** [while ((i <= j) && (_tmp[j] > mid)) j--;] *)
Definition scan_down (mid i : Z) : Z -> M counter Z :=
  while_ fuel
    (fun j => if i <=? j then (x <- load_tmp lo hi j ;; ret (x >? mid)) else ret false)
    (fun j => ret (j - 1)).

(** [while ((i <= j) && (_tmp[i] < mid)) i++;] *)
Definition scan_up (mid j : Z) : Z -> M counter Z :=
  while_ fuel
    (fun i => if i <=? j then (x <- load_tmp lo hi i ;; ret (x <? mid)) else ret false)
    (fun i => ret (i + 1)).

(** One round of [for (i = left, j = right; i <= j;) { ... }]. *)
Definition partition_body (mid : Z) (v : Z * Z * Z) : M counter (Z * Z * Z) :=
  let '(i, j, index) := v in
  j <- scan_down mid i j ;;
  ' (j, index) <-
    (if i <=? j
     then (x <- load_tmp lo hi j ;; store_tmp lo hi index x ;; ret (j - 1, j))
     else ret (j, index)) ;;
  i <- scan_up mid j i ;;
  ' (i, index) <-
    (if i <=? j
     then (x <- load_tmp lo hi i ;; store_tmp lo hi index x ;; ret (i + 1, i))
     else ret (i, index)) ;;
  ret (i, j, index).

Definition partition_loop (mid left right : Z) : M counter (Z * Z * Z) :=
  while_ fuel
    (fun v : Z * Z * Z => let '(i, j, _) := v in ret (i <=? j))
    (partition_body mid)
    (left, right, left).

(** From the copy into [_mid_temp] to [_tmp[index] = mid]: returns the final
    place [index] of the pivot. *)
Definition partition_tmp (left right : Z) : M counter Z :=
  copy_loop left right ;;
  mid <- find_mid fuel left right ;;
  index <- find_pivot mid left right ;;
  x <- load_tmp lo hi left ;;
  store_tmp lo hi index x ;;
  ' (_, _, index) <- partition_loop mid left right ;;
  store_tmp lo hi index mid ;;
  ret index.

(** [for (i = qleft; (i <= qright) && (_ask[i] < now); i++);] *)
Definition ask_skip (now qleft qright : Z) : M counter Z :=
  while_ fuel
    (fun i => if i <=? qright then (a <- load_ask i ;; ret (a <? wrap_u64 now))
              else ret false)
    (fun i => ret (i + 1))
    qleft.

(** [for (j = i; j <= qright; j++) _ask[j] -= now;] *)
Definition ask_sub (now i qright : Z) : M counter Z :=
  while_ fuel
    (fun j => ret (j <=? qright))
    (fun j => a <- load_ask j ;; store_ask j (wrap_u64 (a - now)) ;; ret (j + 1))
    i.

(** [for (j = i; (j <= qright) && (_ask[j] == 0); j++) _ask[j]++;] *)
Definition ask_bump (i qright : Z) : M counter Z :=
  while_ fuel
    (fun j => if j <=? qright then (a <- load_ask j ;; ret (a =? 0)) else ret false)
    (fun j => a <- load_ask j ;; store_ask j (wrap_u64 (a + 1)) ;; ret (j + 1))
    i.

(** [select]: [calc_tail] is passed by reference in the source; here it is
    an argument and the result. *)
Definition select (left right qleft qright calc_tail : Z) : M counter Z :=
  if qleft >? qright then ret calc_tail
  else if left =? right then
    answer_loop left qleft qright ;;
    ret calc_tail
  else
    index <- partition_tmp left right ;;
    let now := index - left + 1 in
    i <- ask_skip now qleft qright ;;
    ask_sub now i qright ;;
    j <- ask_bump i qright ;;
    calc_tail <- insert_calc_queue left (index - 1) qleft (i - 1) calc_tail ;;
    calc_tail <- insert_calc_queue index index i (j - 1) calc_tail ;;
    insert_calc_queue (index + 1) right j qright calc_tail.

End Select.

(** *** [calc] *)

(** [(int)(tmp_num * p) + 1], stored into the [uint64_t] [_ask]. *)
Definition ask_rank (tmp_num : Z) (p : float) : Z :=
  wrap_u64 (double_to_int (PrimFloat.mul (int_to_double tmp_num) p) + 1).

(** The statements of [calc] before the loop over [_calc_queue]; returns [r].
    [tmp_num - 1] is [int] arithmetic. *)
Definition calc_prologue (fuel : nat) (tmp_num : Z) : M counter Z :=
  while_ fuel
    (fun i => ret (i <? tmp_num))
    (fun i => x <- load_queue i ;; store_tmp 0 (MAX_QUEUE_LENGTH - 1) i x ;; ret (i + 1))
    0 ;;
  store_ask COUNTER_PERCENTILE_50 (ask_rank tmp_num 0.5) ;;
  store_ask COUNTER_PERCENTILE_90 (ask_rank tmp_num 0.90) ;;
  store_ask COUNTER_PERCENTILE_95 (ask_rank tmp_num 0.95) ;;
  store_ask COUNTER_PERCENTILE_99 (ask_rank tmp_num 0.99) ;;
  store_ask COUNTER_PERCENTILE_999 (ask_rank tmp_num 0.999) ;;
  insert_calc_queue 0 (wrap_int (tmp_num - 1)) 0 (COUNTER_PERCENTILE_COUNT - 1) 0.

(** The body of [for (l = 1; l <= r; l++) select(_calc_queue[l]..., r);]. *)
Definition calc_step (fuel : nat) (v : Z * Z) : M counter (Z * Z) :=
  let '(l, r) := v in
  t <- load_calc_queue l ;;
  r <- select fuel 0 (MAX_QUEUE_LENGTH - 1)
         (t_left t) (t_right t) (t_qleft t) (t_qright t) r ;;
  ret (l + 1, r).

Definition calc_loop (fuel : nat) : Z * Z -> M counter (Z * Z) :=
  while_ fuel (fun v : Z * Z => let '(l, r) := v in ret (l <=? r)) (calc_step fuel).

Definition calc (fuel : nat) : M counter unit :=
  fun st =>
    if _tail st =? 0 then Done st tt
    else
      let tmp_num := if _tail st >? MAX_QUEUE_LENGTH then MAX_QUEUE_LENGTH else _tail st in
      (r <- calc_prologue fuel tmp_num ;;
       calc_loop fuel (1, r) ;;
       ret tt) st.

(** *** The timer of the counter: constructor, destructor and [on_timer] *)

(** What the counter asks of its [boost::asio::deadline_timer], which is not
    code of this file: the calls are recorded in the order they are made. *)
Inductive timer_call : Type :=
| timer_new                        (* _timer.reset(new deadline_timer(ios)) *)
| expires_from_now (seconds : Z)   (* _timer->expires_from_now(seconds(..)) *)
| async_wait                       (* _timer->async_wait(bind(on_timer, ..)) *)
| timer_cancel.                    (* _timer->cancel() *)

(** The whole object: the fields of [counter], the interval read from the
    configuration and the calls made on [_timer] so far. *)
Record timed_counter : Type := mkTimed {
  core : counter;
  _counter_computation_interval_seconds : Z;
  timer_calls : list timer_call
}.

(** A method of [counter] run inside the whole object. *)
Definition lift_core {A} (m : M counter A) : M timed_counter A :=
  fun tc =>
    match m (core tc) with
    | Done c a =>
        Done (mkTimed c (_counter_computation_interval_seconds tc) (timer_calls tc)) a
    | Aborted c msg =>
        Aborted (mkTimed c (_counter_computation_interval_seconds tc) (timer_calls tc)) msg
    | Undefined => Undefined
    | Timeout => Timeout
    end.

Definition call_timer (c : timer_call) : M timed_counter unit :=
  fun tc =>
    Done (mkTimed (core tc) (_counter_computation_interval_seconds tc)
            (timer_calls tc ++ [c])) tt.

(** The three statements that arm the timer, in the constructor and in
    [on_timer]. *)
Definition arm_timer : M timed_counter unit :=
  call_timer timer_new ;;
  (fun tc => call_timer (expires_from_now (_counter_computation_interval_seconds tc)) tc) ;;
  call_timer async_wait.


(** The destructor. *)
Definition delete_perf_counter_number_percentile : M timed_counter unit :=
  call_timer timer_cancel.

(** [on_timer(ec)]; [ec] is the value of the [boost::system::error_code], and
    [!ec] holds when it is 0. *)
Definition on_timer (fuel : nat) (ec : Z) : M timed_counter unit :=
  if ec =? 0 then lift_core (calc fuel) ;; arm_timer
  else dassert_false "on _timer error!!!".

(** ** The dispatcher [simple_perf_counter] *)



Section Dispatcher.

(** [perf_counter_type] is declared outside this file; the two enumerators
    that the constructor names are parameters. *)
Variables COUNTER_TYPE_NUMBER COUNTER_TYPE_RATE : Z.


End Dispatcher.





(** * The duplication sync timer: [duplication_sync_timer.cpp]

    The timer is glue between objects that other files define (the replica
    stub, the replicas and their duplication managers, the RPC layer, the task
    library).  What those objects return is data of the model; what the timer
    asks them to do is recorded, call by call, in the order of the source. *)

Module DupSync.

Section Model.

(** Types that other files declare and that the timer only passes on. *)
Context {rpc_address duplication_confirm_entry duplication_entry : Type}.

(** Enumerators that other files declare: [partition_status::PS_PRIMARY],
    [replica_stub::NS_Disconnected] and the error code [ERR_OK]. *)
Variables (PS_PRIMARY NS_Disconnected ERR_OK : Z).

Record gpid : Type := mkGpid { get_app_id : Z; get_partition_index : Z }.

Definition gpid_eqb (a b : gpid) : bool :=
  (get_app_id a =? get_app_id b) && (get_partition_index a =? get_partition_index b).

(** [std::map<int32_t, duplication_entry>], by its lookup. *)
Definition duplication_map : Type := Z -> option duplication_entry.

(** A replica as far as the timer looks at it: what [status()], [get_gpid()]
    and the two getters of its duplication manager return. *)
Record replica : Type := mkReplica {
  get_gpid : gpid;
  status : Z;
  get_duplication_confirms_to_update : list duplication_confirm_entry;
  get_pending_mutations_count : Z
}.

(** The replica stub as far as the timer looks at it; [_replicas] in the
    order of iteration. *)
Record replica_stub : Type := mkStub {
  _state : Z;
  _replicas : list (gpid * replica);
  primary_address : rpc_address;
  get_meta_server_address : rpc_address
}.

(** [confirm_list] is a [std::map] keyed by [gpid], by its lookup. *)
Record duplication_sync_request : Type := mkRequest {
  node : rpc_address;
  confirm_list : gpid -> option (list duplication_confirm_entry)
}.

Record duplication_sync_response : Type := mkResponse {
  err : Z;
  dup_map : Z -> option duplication_map
}.

(** The calls that leave the timer.  A log call keeps its format string. *)
Inductive call : Type :=
| ddebug (msg : string)
| derror (msg : string) (e : Z)
| counter_set (v : Z)     (* _stub->_counter_dup_pending_mutations_count->set(v) *)
| rpc_call (meta : rpc_address) (req : duplication_sync_request)
| update_duplication_map_of (r : replica) (m : duplication_map)
| cancel (task : Z)       (* task->cancel(true) *)
| enqueue_timer.          (* tasking::enqueue_timer(.., [this]() { run(); }, ..) *)

(** The fields of the timer ([nullptr] is [None]) and the calls made so
    far. *)
Record duplication_sync_timer : Type := mkTimer {
  _rpc_task : option Z;
  _timer_task : option Z;
  calls : list call
}.

Definition emit (c : call) : M duplication_sync_timer unit :=
  fun t => Done (mkTimer (_rpc_task t) (_timer_task t) (calls t ++ [c])) tt.

Definition set_rpc_task (task : option Z) : M duplication_sync_timer unit :=
  fun t => Done (mkTimer task (_timer_task t) (calls t)) tt.

Definition set_timer_task (task : option Z) : M duplication_sync_timer unit :=
  fun t => Done (mkTimer (_rpc_task t) task (calls t)) tt.

Section Stub.

Variable _stub : replica_stub.

Definition get_all_primaries : list replica :=
  map snd (filter (fun kv => status (snd kv) =? PS_PRIMARY) (_replicas _stub)).

Definition get_all_replicas : list replica := map snd (_replicas _stub).

(** The body of the loop of [run] over the primaries. *)
Fixpoint collect_confirms (rs : list replica)
    (confirms : gpid -> option (list duplication_confirm_entry)) (pending_muts_cnt : Z)
    : (gpid -> option (list duplication_confirm_entry)) * Z :=
  match rs with
  | [] => (confirms, pending_muts_cnt)
  | r :: rest =>
      let confirmed := get_duplication_confirms_to_update r in
      let confirms :=
        match confirmed with
        | [] => confirms
        | _ :: _ => fun g => if gpid_eqb g (get_gpid r) then Some confirmed else confirms g
        end in
      collect_confirms rest confirms (wrap_u64 (pending_muts_cnt + get_pending_mutations_count r))
  end.

(** [run]; [task] is what [rpc.call] returns. *)
Definition run (task : option Z) : M duplication_sync_timer unit :=
  fun t =>
    match _rpc_task t with
    | Some _ => emit (ddebug "a duplication sync is already ongoing") t
    | None =>
        if _state _stub =? NS_Disconnected
        then emit (ddebug "stop this round of duplication sync because this server is disconnected from meta server") t
        else
          let '(confirms, pending_muts_cnt) :=
            collect_confirms get_all_primaries (fun _ => None) 0 in
          (emit (counter_set pending_muts_cnt) ;;
           emit (ddebug "duplication_sync to meta({})") ;;
           emit (rpc_call (get_meta_server_address _stub)
                          (mkRequest (primary_address _stub) confirms)) ;;
           set_rpc_task task) t
    end.

Fixpoint update_each (rs : list replica) (dup_map : Z -> option duplication_map)
    : M duplication_sync_timer unit :=
  match rs with
  | [] => ret tt
  | r :: rest =>
      (match dup_map (get_app_id (get_gpid r)) with
       | None => emit (update_duplication_map_of r (fun _ => None))
       | Some m => emit (update_duplication_map_of r m)
       end) ;;
      update_each rest dup_map
  end.

Definition update_duplication_map (dup_map : Z -> option duplication_map)
    : M duplication_sync_timer unit :=
  update_each get_all_replicas dup_map.

Definition on_duplication_sync_reply (e : Z) (resp : duplication_sync_response)
    : M duplication_sync_timer unit :=
  let e := if (e =? ERR_OK) && negb (err resp =? ERR_OK) then err resp else e in
  (if negb (e =? ERR_OK)
   then emit (derror "on_duplication_sync_reply: err({})" e)
   else update_duplication_map (dup_map resp)) ;;
  set_rpc_task None.

(** The sum that [run] accumulates in [pending_muts_cnt], before wrapping. *)
Definition total_pending (rs : list replica) : Z :=
  fold_right Z.add 0 (map get_pending_mutations_count rs).

(** The map that [update_duplication_map] passes to the replicas of an
    application. *)
Definition map_of_app (dup_map : Z -> option duplication_map) (app : Z)
    : duplication_map :=
  match dup_map app with
  | Some m => m
  | None => fun _ => None
  end.

End Stub.

Definition close : M duplication_sync_timer unit :=
  emit (ddebug "stop duplication sync") ;;
  (fun t =>
     match _rpc_task t with
     | Some task => (emit (cancel task) ;; set_rpc_task None) t
     | None => Done t tt
     end) ;;
  (fun t =>
     match _timer_task t with
     | Some task => (emit (cancel task) ;; set_timer_task None) t
     | None => Done t tt
     end).

(** [start]; [task] is what [tasking::enqueue_timer] returns. *)
Definition start (task : option Z) : M duplication_sync_timer unit :=
  emit (ddebug "run duplication sync periodically in {}s") ;;
  emit enqueue_timer ;;
  set_timer_task task.

(** The constructor: both tasks are null. *)
Definition init : duplication_sync_timer := mkTimer None None [].

End Model.

End DupSync.

(** ** Running the counter on a list of samples *)

Fixpoint record_all (samples : list Z) : M counter unit :=
  match samples with
  | [] => ret tt
  | v :: rest => set v ;; record_all rest
  end.

Definition zero_mem : counter :=
  mkCounter 0 (fun _ => 0) (fun _ => 0) (fun _ => 0) (fun _ => 0) (fun _ => 0)
    (fun _ => mkTask 0 0 0 0).

(** ** Definitions used to state the properties *)

(** The slots [l .. l + n - 1] of an array, as a list. *)
Fixpoint seg (a : array) (l : Z) (n : nat) : list Z :=
  match n with
  | O => []
  | Datatypes.S k => a l :: seg a (l + 1) k
  end.

(** The slots [l .. r]. *)
Definition segr (a : array) (l r : Z) : list Z := seg a l (Z.to_nat (r - l + 1)).

Definition swap (a : array) (p q : Z) : array := upd (upd a p (a q)) q (a p).

(** Sorting a list of samples (insertion sort). *)
Fixpoint insert (x : Z) (l : list Z) : list Z :=
  match l with
  | [] => [x]
  | y :: t => if x <=? y then x :: l else y :: insert x t
  end.

Fixpoint sort (l : list Z) : list Z :=
  match l with
  | [] => []
  | x :: t => insert x (sort t)
  end.

(** The fraction of a percentile tag, as the spec lists them:
    0.5, 0.90, 0.95, 0.99, 0.999. *)
Definition fraction (tag : Z) : Z * Z :=
  if tag =? COUNTER_PERCENTILE_50 then (1, 2)
  else if tag =? COUNTER_PERCENTILE_90 then (9, 10)
  else if tag =? COUNTER_PERCENTILE_95 then (95, 100)
  else if tag =? COUNTER_PERCENTILE_99 then (99, 100)
  else (999, 1000).

(** The rank of a tag among [n] samples in the spec's words:
    [floor (n * p) + 1], counted from 1. *)
Definition spec_rank (n tag : Z) : Z :=
  let '(num, den) := fraction tag in n * num / den + 1.

(** The element of rank [spec_rank] in the sorted samples. *)
Definition percentile (samples : list Z) (tag : Z) : Z :=
  nth (Z.to_nat (spec_rank (Z.of_nat (length samples)) tag - 1)) (sort samples) 0.

(** [count_le v l]: how many elements of [l] are at most [v]. *)
Definition count_le (v : Z) (l : list Z) : nat :=
  length (filter (fun z => z <=? v) l).

(** The rank that [calc] stores into [_ask] for a tag. *)
Definition code_rank (n tag : Z) : Z :=
  if tag =? COUNTER_PERCENTILE_50 then ask_rank n 0.5
  else if tag =? COUNTER_PERCENTILE_90 then ask_rank n 0.90
  else if tag =? COUNTER_PERCENTILE_95 then ask_rank n 0.95
  else if tag =? COUNTER_PERCENTILE_99 then ask_rank n 0.99
  else ask_rank n 0.999.

(** [trunc_normal f]: the integer part of a positive normal binary64 [f] below
    [2^53], read off its mantissa and exponent with machine integers. *)
Definition trunc_normal (f : float) : option int :=
  if PrimFloat.is_nan f || PrimFloat.is_zero f || PrimFloat.is_infinity f ||
     PrimFloat.get_sign f then None
  else
    let (r, se) := frshiftexp f in
    let m := normfr_mantissa r in
    if ((4503599627370496 <=? m) && (m <? 9007199254740992) &&
        (1080 <=? se) && (se <=? 2154))%uint63
    then Some (m >> (2154 - se))%uint63
    else None.

(** [rank_check n p num den]: the product [n * p] of [calc], truncated, is
    [n * num / den]. *)
Definition rank_check (n : int) (p : float) (num den : int) : bool :=
  match trunc_normal (PrimFloat.mul (of_uint63 n) p) with
  | Some k => (k =? n * num / den)%uint63
  | None => false
  end.

(** [ranks_agree k n0]: for the [k] sizes from [n0] on, the ranks that the
    code computes in floating point are the spec's. *)
Fixpoint ranks_agree (k : nat) (n : int) : bool :=
  match k with
  | O => true
  | Datatypes.S k' =>
      rank_check n 0.5 1 2 && rank_check n 0.90 9 10 && rank_check n 0.95 95 100 &&
      rank_check n 0.99 99 100 && rank_check n 0.999 999 1000 &&
      ranks_agree k' (n + 1)%uint63
  end.

(** [closed D P m]: the slots [D] of [m] hold values of [P]. *)
Definition closed (D P : Z -> Prop) (m : array) : Prop := forall p, D p -> P (m p).

(** The invariant of the partition loop of [select].  [a0] is [_tmp] when
    [select] was entered and [a] is [_tmp] now; the slot [index] of [a] is the
    hole that the pivot [mid] goes into at the end. *)
Definition part_inv (a0 : array) (mid left right : Z) (v : Z * Z * Z) (a : array) : Prop :=
  let '(i, j, index) := v in
  left <= i /\ i <= j + 1 /\ j <= right /\ left <= index <= right /\
  (index = i - 1 \/ index = i) /\
  (forall p, p < left \/ right < p -> a p = a0 p) /\
  Permutation (segr (upd a index mid) left right) (segr a0 left right) /\
  (forall p, left <= p < i -> upd a index mid p <= mid) /\
  (forall p, j < p <= right -> mid <= upd a index mid p).

(** *** The invariant of the worklist of [calc] *)

(** [cut n a c]: in [a[0 .. n - 1]], every element before slot [c] is at most
    every element from slot [c] on. *)
Definition cut (n : Z) (a : array) (c : Z) : Prop :=
  forall i j, 0 <= i < c -> c <= j < n -> a i <= a j.

(** A task with no query is dropped by [select]. *)
Definition active (t : task) : Prop := t_qleft t <= t_qright t.

(** [R q] is the rank (from 1) that tag [q] asks for in the whole snapshot;
    a task holds in [_ask] the ranks of its tags relative to its range. *)
Definition task_wf (n : Z) (R : Z -> Z) (ask : array) (t : task) : Prop :=
  0 <= t_left t /\ t_right t < n /\ 0 <= t_qleft t /\ t_qright t <= 4 /\
  forall q, t_qleft t <= q <= t_qright t ->
            ask q = R q - t_left t /\ t_left t < R q <= t_right t + 1.

Definition task_cuts (n : Z) (tmp : array) (t : task) : Prop :=
  active t -> cut n tmp (t_left t) /\ cut n tmp (t_right t + 1).

Definition disjoint (t u : task) : Prop :=
  active t -> active u ->
  (t_right t < t_left u \/ t_right u < t_left t) /\
  (t_qright t < t_qleft u \/ t_qright u < t_qleft t).

(** What a task can still push: its range shrinks by one at least. *)
Definition weight (t : task) : Z :=
  if t_qleft t <=? t_qright t then Z.max 0 (t_right t - t_left t) else 0.

Fixpoint sum_weight (cq : Z -> task) (l : Z) (k : nat) : Z :=
  match k with
  | O => 0
  | Datatypes.S k' => weight (cq l) + sum_weight cq (l + 1) k'
  end.

Definition pending_weight (cq : Z -> task) (l r : Z) : Z :=
  sum_weight cq l (Z.to_nat (r - l + 1)).

Record work_inv (n : Z) (samples : list Z) (R : Z -> Z) (l r : Z) (st : counter) : Prop :=
  mkWorkInv {
  wi_bounds : 1 <= l <= r + 1;
  wi_potential : r + 3 * pending_weight (_calc_queue st) l r <= 3 * n - 2;
  wi_perm : Permutation (segr (_tmp st) 0 (n - 1)) samples;
  wi_wf : forall k, l <= k <= r -> task_wf n R (_ask st) (_calc_queue st k);
  wi_cuts : forall k, l <= k <= r -> task_cuts n (_tmp st) (_calc_queue st k);
  wi_disjoint : forall k k', l <= k <= r -> l <= k' <= r -> k <> k' ->
                disjoint (_calc_queue st k) (_calc_queue st k');
  wi_cover : forall q, 0 <= q <= 4 ->
             (exists k, l <= k <= r /\
                        t_qleft (_calc_queue st k) <= q <= t_qright (_calc_queue st k)) \/
             _ans st q = nth (Z.to_nat (R q - 1)) (sort samples) 0
}.

(** The ranks are ordered like the tags and lie in [1 .. n]. *)
Definition ranks_ok (n : Z) (R : Z -> Z) : Prop :=
  (forall q, 0 <= q <= 4 -> 1 <= R q <= n) /\
  (forall q q', 0 <= q <= q' -> q' <= 4 -> R q <= R q').

Arguments wi_bounds {n samples R l r st}.
Arguments wi_potential {n samples R l r st}.
Arguments wi_perm {n samples R l r st}.
Arguments wi_wf {n samples R l r st}.
Arguments wi_cuts {n samples R l r st}.
Arguments wi_disjoint {n samples R l r st}.
Arguments wi_cover {n samples R l r st}.

(** [refines m1 m2]: whenever [m1] returns, [m2] returns the same; used to
    compare a run on a window of [_tmp] with the run on the whole array. *)
Definition refines {S A} (m1 m2 : M S A) : Prop :=
  forall s s' a, m1 s = Done s' a -> m2 s = Done s' a.

(** [k] rounds of the loop of [calc]: the state a reader on another thread
    finds when it runs between two rounds (no lock is held). *)
Fixpoint calc_rounds (fuel k : nat) (v : Z * Z) : M counter (Z * Z) :=
  match k with
  | O => ret v
  | Datatypes.S k' =>
      let '(l, r) := v in
      if l <=? r then (v' <- calc_step fuel v ;; calc_rounds fuel k' v') else ret v
  end.

(** [calc] up to the end of round [k] of its loop (for [_tail <> 0]). *)
Definition calc_begin (fuel k : nat) : M counter (Z * Z) :=
  fun st =>
    let tmp_num := if _tail st >? MAX_QUEUE_LENGTH then MAX_QUEUE_LENGTH else _tail st in
    (r <- calc_prologue fuel tmp_num ;; calc_rounds fuel k (1, r)) st.

(** The values a state gives for the five tags. *)
Definition answers (st : counter) : list Z :=
  map (fun t => match get_percentile t st with Done _ v => v | _ => -2 end) [0; 1; 2; 3; 4].

(** The snapshot that [calc] takes: the first [min (_tail, 50000)] slots of
    [_queue]. *)
Definition snapshot (st : counter) : list Z :=
  segr (_queue st) 0 (Z.min (_tail st) MAX_QUEUE_LENGTH - 1).

(** A counter for the examples: three samples, [10], [9] and [8], recorded. *)
Definition three_samples : counter :=
  with_queue (with_tail zero_mem 3) (fun i => 10 - i).

(** [sorted_run m l r]: the slots [l .. r] of [m] ascend. *)
Definition sorted_run (m : array) (l r : Z) : Prop :=
  forall p q, l <= p -> p <= q -> q <= r -> m p <= m q.

(** [times k m]: the call [m], [k] times in a row. *)
Fixpoint times {S} (k : nat) (m : M S unit) : M S unit :=
  match k with
  | O => ret tt
  | Datatypes.S k' => m ;; times k' m
  end.

(** A counter for the examples: [_tmp] holds [10], [9], [8], the tag p50 asks
    for rank 2 and the other tags for rank 3. *)
Definition two_ranks : counter :=
  with_ask (with_tmp zero_mem (fun p => 10 - p)) (fun q => if q <? 1 then 2 else 3).

(** A stub for the examples: two replicas of application 1, the first one
    primary ([PS_PRIMARY] is 2 there) with two confirms to update. *)
Definition two_replica_stub : @DupSync.replica_stub Z Z :=
  DupSync.mkStub 1
    [(DupSync.mkGpid 1 0, DupSync.mkReplica (DupSync.mkGpid 1 0) 2 [7; 8] 5);
     (DupSync.mkGpid 1 1, DupSync.mkReplica (DupSync.mkGpid 1 1) 3 [9] 6)]
    100 200.


(** The value that [find_mid] takes from a sorted run:
    [_mid_temp[index + remain_num / 2]]. *)
Definition median_of (l : list Z) : Z := nth (length l / 2) (sort l) 0.

(** The medians of the runs of [l] as [find_mid] cuts them: runs of five, and
    a last run of what is left once at most six elements are left. *)
Fixpoint run_medians_aux (fuel : nat) (l : list Z) : list Z :=
  match fuel with
  | O => []
  | Datatypes.S f =>
      if (length l <=? 6)%nat then [median_of l]
      else median_of (firstn 5 l) :: run_medians_aux f (skipn 5 l)
  end.

Definition run_medians (l : list Z) : list Z := run_medians_aux (length l) l.

(** The medians of the runs, then the medians of the runs of those, and so on
    down to one value. *)
Fixpoint median_of_medians_aux (fuel : nat) (l : list Z) : Z :=
  match fuel with
  | O => 0
  | Datatypes.S f =>
      match l with
      | [x] => x
      | _ => median_of_medians_aux f (run_medians l)
      end
  end.

Definition median_of_medians (l : list Z) : Z := median_of_medians_aux (length l) l.

(** ** The monad and the [while] rule *)

Lemma bind_eq {S A B} {m : M S A} (k : A -> M S B) {s s' a} :
  m s = Done s' a -> bind m k s = k a s'.
Proof. intros H. unfold bind. rewrite H. reflexivity. Qed.

Lemma bind_ret {S A B} (a : A) (k : A -> M S B) s : bind (ret a) k s = k a s.
Proof. reflexivity. Qed.

(** The rule of the loop: an invariant, a variant in [nat] below the fuel,
    and the postcondition at the exit. *)
Lemma while_rule {S V} (Inv Post : V -> S -> Prop) (var : V -> S -> nat)
    (cond : V -> M S bool) (body : V -> M S V) :
  (forall v s, Inv v s ->
     (cond v s = Done s false /\ Post v s) \/
     (cond v s = Done s true /\
      exists v' s', body v s = Done s' v' /\ Inv v' s' /\ (var v' s' < var v s)%nat)) ->
  forall fuel v s, Inv v s -> (var v s < fuel)%nat ->
  exists v' s', while_ fuel cond body v s = Done s' v' /\ Post v' s'.
Proof.
  intros Hstep fuel. induction fuel as [|f IH]; intros v s Hinv Hvar.
  - lia.
  - destruct (Hstep v s Hinv) as [[Hc Hp] | [Hc (v' & s' & Hb & Hinv' & Hlt)]].
    + exists v, s. split; [|exact Hp].
      cbn [while_]. rewrite (bind_eq _ Hc). reflexivity.
    + destruct (IH v' s' Hinv') as (v'' & s'' & Hw & Hp); [lia|].
      exists v'', s''. split; [|exact Hp].
      cbn [while_]. rewrite (bind_eq _ Hc). cbv beta iota.
      rewrite (bind_eq _ Hb). exact Hw.
Qed.

(** ** Arrays, segments and permutations *)

Lemma upd_same {A} (a : Z -> A) i v : upd a i v i = v.
Proof. unfold upd. rewrite Z.eqb_refl. reflexivity. Qed.

Lemma upd_other {A} (a : Z -> A) i j v : j <> i -> upd a i v j = a j.
Proof. intros H. unfold upd. destruct (Z.eqb_spec j i); [contradiction | reflexivity]. Qed.

Lemma within_true lo hi i : lo <= i <= hi -> within lo hi i = true.
Proof. intros H. unfold within. apply andb_true_intro. split; apply Z.leb_le; lia. Qed.

Lemma within_false lo hi i : i < lo \/ hi < i -> within lo hi i = false.
Proof.
  intros H. unfold within. apply andb_false_iff.
  destruct H; [left | right]; apply Z.leb_gt; lia.
Qed.

Lemma seg_length a l n : length (seg a l n) = n.
Proof. revert l. induction n; intros; simpl; [reflexivity | now rewrite IHn]. Qed.

Lemma seg_ext a b l n :
  (forall p, l <= p < l + Z.of_nat n -> a p = b p) -> seg a l n = seg b l n.
Proof.
  revert l. induction n as [|n IH]; intros l H; simpl; [reflexivity|].
  rewrite H by lia. f_equal. apply IH. intros p Hp. apply H. lia.
Qed.

Lemma seg_nth a l n k d : (k < n)%nat -> nth k (seg a l n) d = a (l + Z.of_nat k).
Proof.
  revert l k. induction n as [|n IH]; intros l k H; [lia|].
  destruct k as [|k]; simpl.
  - f_equal. lia.
  - rewrite IH by lia. f_equal. lia.
Qed.

Lemma seg_app a l n m : seg a l (n + m) = seg a l n ++ seg a (l + Z.of_nat n) m.
Proof.
  revert l. induction n as [|n IH]; intros l.
  - simpl. f_equal. lia.
  - cbn [Nat.add seg app]. f_equal. rewrite IH. do 2 f_equal. lia.
Qed.

Lemma seg_In a l n v :
  In v (seg a l n) <-> exists p, l <= p < l + Z.of_nat n /\ a p = v.
Proof.
  revert l. induction n as [|n IH]; intros l; simpl.
  - split; [tauto | intros (p & Hp & _); lia].
  - rewrite IH. split.
    + intros [H | (p & Hp & Hv)]; [exists l | exists p]; split; auto; lia.
    + intros (p & Hp & Hv). destruct (Z.eq_dec p l) as [-> | Hne]; [left; exact Hv|].
      right. exists p. split; [lia | exact Hv].
Qed.

Lemma segr_In a l r v :
  In v (segr a l r) <-> exists p, l <= p <= r /\ a p = v.
Proof.
  unfold segr. rewrite seg_In. split; intros (p & Hp & Hv); exists p; split; auto; lia.
Qed.

Lemma segr_length a l r : l <= r + 1 -> Z.of_nat (length (segr a l r)) = r - l + 1.
Proof. intros H. unfold segr. rewrite seg_length. lia. Qed.

Lemma segr_ext a b l r :
  (forall p, l <= p <= r -> a p = b p) -> segr a l r = segr b l r.
Proof. intros H. unfold segr. apply seg_ext. intros p Hp. apply H. lia. Qed.

Lemma segr_nth a l r k d :
  0 <= k <= r - l -> nth (Z.to_nat k) (segr a l r) d = a (l + k).
Proof. intros H. unfold segr. rewrite seg_nth by lia. f_equal. lia. Qed.

Lemma segr_split a l m r :
  l <= m -> m <= r + 1 -> segr a l r = segr a l (m - 1) ++ segr a m r.
Proof.
  intros H1 H2. unfold segr.
  replace (Z.to_nat (r - l + 1)) with (Z.to_nat (m - 1 - l + 1) + Z.to_nat (r - m + 1))%nat by lia.
  rewrite seg_app. do 2 f_equal. lia.
Qed.

(** The number of occurrences of [v] in a segment after one store. *)
Lemma count_seg_upd a l n p x v :
  l <= p < l + Z.of_nat n ->
  Z.of_nat (count_occ Z.eq_dec (seg (upd a p x) l n) v) =
  Z.of_nat (count_occ Z.eq_dec (seg a l n) v)
  - (if Z.eq_dec (a p) v then 1 else 0) + (if Z.eq_dec x v then 1 else 0).
Proof.
  revert l. induction n as [|n IH]; intros l H; [lia|].
  cbn [seg]. destruct (Z.eq_dec p l) as [-> | Hne].
  - rewrite upd_same.
    rewrite (seg_ext (upd a l x) a) by (intros q Hq; apply upd_other; lia).
    cbn [count_occ]. destruct (Z.eq_dec x v), (Z.eq_dec (a l) v); lia.
  - rewrite upd_other by lia.
    cbn [count_occ]. specialize (IH (l + 1) ltac:(lia)).
    destruct (Z.eq_dec (a l) v); lia.
Qed.

Lemma seg_swap_perm a l n p q :
  l <= p < l + Z.of_nat n -> l <= q < l + Z.of_nat n ->
  Permutation (seg (swap a p q) l n) (seg a l n).
Proof.
  intros Hp Hq. apply (Permutation_count_occ Z.eq_dec). intros v.
  apply Nat2Z.inj. unfold swap.
  rewrite count_seg_upd by lia. rewrite count_seg_upd by lia.
  assert (E : upd a p (a q) q = a q).
  { unfold upd. destruct (q =? p); reflexivity. }
  rewrite E. destruct (Z.eq_dec (a p) v), (Z.eq_dec (a q) v); lia.
Qed.

Lemma segr_swap_perm a l r p q :
  l <= p <= r -> l <= q <= r -> Permutation (segr (swap a p q) l r) (segr a l r).
Proof. intros Hp Hq. unfold segr. apply seg_swap_perm; lia. Qed.

(** A permutation inside [l .. r] that leaves the rest alone is a permutation
    of every enclosing segment. *)
Lemma segr_perm_widen a b l r l0 r0 :
  l0 <= l -> l <= r + 1 -> r <= r0 ->
  (forall p, p < l \/ r < p -> b p = a p) ->
  Permutation (segr b l r) (segr a l r) ->
  Permutation (segr b l0 r0) (segr a l0 r0).
Proof.
  intros H1 H2 H3 Hout Hperm.
  rewrite (segr_split a l0 l r0), (segr_split b l0 l r0) by lia.
  rewrite (segr_split a l (r + 1) r0), (segr_split b l (r + 1) r0) by lia.
  replace (r + 1 - 1) with r by lia.
  rewrite (segr_ext b a l0 (l - 1)) by (intros; apply Hout; lia).
  rewrite (segr_ext b a (r + 1) r0) by (intros; apply Hout; lia).
  apply Permutation_app_head. apply Permutation_app_tail. exact Hperm.
Qed.

(** ** Sorting and ranks *)

Lemma insert_perm x l : Permutation (insert x l) (x :: l).
Proof.
  induction l as [|y t IH]; simpl; [reflexivity|].
  destruct (x <=? y); [reflexivity|].
  rewrite IH. apply perm_swap.
Qed.

Lemma sort_perm l : Permutation (sort l) l.
Proof.
  induction l as [|x t IH]; simpl; [reflexivity|].
  rewrite insert_perm. now apply perm_skip.
Qed.

Lemma insert_sorted x l : Sorted Z.le l -> Sorted Z.le (insert x l).
Proof.
  induction l as [|y t IH]; intros H; simpl.
  - repeat constructor.
  - destruct (Z.leb_spec x y).
    + constructor; [exact H | constructor; exact H0].
    + inversion H as [|? ? Hs Hh]; subst. constructor; [apply IH; exact Hs|].
      destruct t as [|z t]; simpl.
      * constructor. lia.
      * destruct (Z.leb_spec x z); constructor; try lia.
        inversion Hh; subst. assumption.
Qed.

Lemma sort_sorted l : Sorted Z.le (sort l).
Proof. induction l; simpl; [constructor | now apply insert_sorted]. Qed.

Lemma sorted_nth_le l i j :
  Sorted Z.le l -> (i <= j < length l)%nat -> nth i l 0 <= nth j l 0.
Proof.
  intros Hs. apply Sorted_StronglySorted in Hs; [|intros x y z; apply Z.le_trans].
  revert i j. induction Hs as [|a l Hs IH Hall]; intros i j H; simpl in H; [lia|].
  destruct i as [|i], j as [|j]; simpl; try lia.
  - rewrite Forall_forall in Hall. apply Hall. apply nth_In. lia.
  - apply IH. lia.
Qed.

Lemma count_le_perm v l l' : Permutation l l' -> count_le v l = count_le v l'.
Proof.
  unfold count_le. induction 1; simpl; try congruence.
  - destruct (x <=? v); simpl; congruence.
  - destruct (x <=? v), (y <=? v); reflexivity.
Qed.

(** If the first [k + 1] elements are at most [v], at least [k + 1] elements
    are. *)
Lemma count_le_lower v l k :
  (k < length l)%nat -> (forall i, (i <= k)%nat -> nth i l 0 <= v) ->
  (k + 1 <= count_le v l)%nat.
Proof.
  unfold count_le. revert k. induction l as [|a l IH]; intros k Hk H; simpl in *; [lia|].
  assert (Ha : (a <=? v) = true) by (apply Z.leb_le; apply (H 0%nat); lia).
  rewrite Ha. simpl. destruct k as [|k]; [lia|].
  specialize (IH k ltac:(lia)).
  assert (forall i, (i <= k)%nat -> nth i l 0 <= v)
    by (intros i Hi; apply (H (S i)); lia).
  specialize (IH H0). lia.
Qed.

(** If every element from place [k] on is above [v], at most [k] elements are
    at most [v]. *)
Lemma count_le_upper v l k :
  (forall i, (k <= i < length l)%nat -> v < nth i l 0) ->
  (count_le v l <= k)%nat.
Proof.
  unfold count_le. revert k. induction l as [|a l IH]; intros k H; simpl in *; [lia|].
  destruct k as [|k].
  - assert (Ha : (a <=? v) = false) by (apply Z.leb_gt; apply (H 0%nat); lia).
    rewrite Ha. apply (IH 0%nat). intros i Hi. apply (H (S i)). lia.
  - pose proof (IH k) as Hl.
    assert (forall i, (k <= i < length l)%nat -> v < nth i l 0) as Hk
      by (intros i Hi; apply (H (S i)); lia).
    specialize (Hl Hk).
    destruct (a <=? v); simpl; lia.
Qed.

(** An element that separates a list (everything before it is at most it,
    everything after it is at least it) is the element of its rank in any
    sorted permutation of the list. *)
Lemma rank_unique (l s : list Z) (k : nat) :
  Permutation l s -> Sorted Z.le s -> (k < length l)%nat ->
  (forall i, (i < k)%nat -> nth i l 0 <= nth k l 0) ->
  (forall i, (k < i < length l)%nat -> nth k l 0 <= nth i l 0) ->
  nth k s 0 = nth k l 0.
Proof.
  intros Hperm Hs Hk Hbefore Hafter.
  assert (Hlen : length s = length l) by (symmetry; now apply Permutation_length).
  destruct (Z.lt_trichotomy (nth k s 0) (nth k l 0)) as [Hlt | [Heq | Hgt]];
    [exfalso | exact Heq | exfalso].
  - (* the elements at most [nth k s] *)
    pose proof (count_le_lower (nth k s 0) s k ltac:(lia)) as H1.
    pose proof (count_le_upper (nth k s 0) l k) as H2.
    rewrite (count_le_perm _ _ _ Hperm) in H2.
    assert (k + 1 <= k)%nat; [|lia].
    etransitivity; [apply H1 | apply H2].
    + intros i Hi. apply sorted_nth_le; [exact Hs | lia].
    + intros i Hi. destruct (Nat.eq_dec i k) as [-> | Hne]; [lia|].
      specialize (Hafter i ltac:(lia)). lia.
  - pose proof (count_le_lower (nth k l 0) l k ltac:(lia)) as H1.
    pose proof (count_le_upper (nth k l 0) s k) as H2.
    rewrite <- (count_le_perm _ _ _ Hperm) in H2.
    assert (k + 1 <= k)%nat; [|lia].
    etransitivity; [apply H1 | apply H2].
    + intros i Hi. destruct (Nat.eq_dec i k) as [-> | Hne]; [lia|].
      apply Hbefore. lia.
    + intros i Hi. pose proof (sorted_nth_le s k i Hs ltac:(lia)). lia.
Qed.

(** The same, against [sort] of any permutation of the list. *)
Lemma rank_of_separator (l samples : list Z) (k : nat) :
  Permutation l samples -> (k < length l)%nat ->
  (forall i, (i < k)%nat -> nth i l 0 <= nth k l 0) ->
  (forall i, (k < i < length l)%nat -> nth k l 0 <= nth i l 0) ->
  nth k (sort samples) 0 = nth k l 0.
Proof.
  intros Hperm. apply rank_unique; [|apply sort_sorted].
  rewrite Hperm. symmetry. apply sort_perm.
Qed.

(** ** The checked accesses *)

Lemma bind_load_tmp {B} lo hi i (k : Z -> M counter B) st :
  lo <= i <= hi -> bind (load_tmp lo hi i) k st = k (_tmp st i) st.
Proof. intros H. unfold bind, load_tmp. now rewrite within_true. Qed.

Lemma bind_store_tmp {B} lo hi i v (k : unit -> M counter B) st :
  lo <= i <= hi ->
  bind (store_tmp lo hi i v) k st = k tt (with_tmp st (upd (_tmp st) i v)).
Proof. intros H. unfold bind, store_tmp. now rewrite within_true. Qed.

Lemma bind_load_queue {B} i (k : Z -> M counter B) st :
  0 <= i < MAX_QUEUE_LENGTH -> bind (load_queue i) k st = k (_queue st i) st.
Proof. intros H. unfold bind, load_queue. now rewrite within_true by lia. Qed.

Lemma bind_load_mid_temp {B} i (k : Z -> M counter B) st :
  0 <= i < MAX_QUEUE_LENGTH -> bind (load_mid_temp i) k st = k (_mid_temp st i) st.
Proof. intros H. unfold bind, load_mid_temp. now rewrite within_true by lia. Qed.

Lemma bind_store_mid_temp {B} i v (k : unit -> M counter B) st :
  0 <= i < MAX_QUEUE_LENGTH ->
  bind (store_mid_temp i v) k st = k tt (with_mid_temp st (upd (_mid_temp st) i v)).
Proof. intros H. unfold bind, store_mid_temp. now rewrite within_true by lia. Qed.

Lemma bind_load_ask {B} i (k : Z -> M counter B) st :
  0 <= i < 5 -> bind (load_ask i) k st = k (_ask st i) st.
Proof.
  intros H. unfold bind, load_ask, COUNTER_PERCENTILE_COUNT. now rewrite within_true by lia.
Qed.

Lemma bind_store_ask {B} i v (k : unit -> M counter B) st :
  0 <= i < 5 ->
  bind (store_ask i v) k st = k tt (with_ask st (upd (_ask st) i v)).
Proof.
  intros H. unfold bind, store_ask, COUNTER_PERCENTILE_COUNT. now rewrite within_true by lia.
Qed.

Lemma bind_store_ans {B} i v (k : unit -> M counter B) st :
  0 <= i < 5 ->
  bind (store_ans i v) k st = k tt (with_ans st (upd (_ans st) i v)).
Proof.
  intros H. unfold bind, store_ans, COUNTER_PERCENTILE_COUNT. now rewrite within_true by lia.
Qed.

Lemma bind_load_calc_queue {B} i (k : task -> M counter B) st :
  0 <= i < MAX_QUEUE_LENGTH * 10 ->
  bind (load_calc_queue i) k st = k (_calc_queue st i) st.
Proof. intros H. unfold bind, load_calc_queue. now rewrite within_true by lia. Qed.

Lemma bind_store_calc_queue {B} i t (k : unit -> M counter B) st :
  0 <= i < MAX_QUEUE_LENGTH * 10 ->
  bind (store_calc_queue i t) k st =
  k tt (with_calc_queue st (upd (_calc_queue st) i t)).
Proof. intros H. unfold bind, store_calc_queue. now rewrite within_true by lia. Qed.

Lemma load_mid_temp_ok i st :
  0 <= i < MAX_QUEUE_LENGTH -> load_mid_temp i st = Done st (_mid_temp st i).
Proof. intros H. unfold load_mid_temp. now rewrite within_true by lia. Qed.

Ltac fields :=
  cbn [_tail _queue _tmp _mid_temp _ask _ans _calc_queue
       with_tail with_queue with_tmp with_mid_temp with_ask with_ans with_calc_queue
       t_left t_right t_qleft t_qright] in *.

(** One statement of a monadic block. *)
Ltac mstep :=
  first
    [ rewrite bind_ret
    | rewrite bind_load_tmp by lia
    | rewrite bind_store_tmp by lia
    | rewrite bind_load_queue by lia
    | rewrite bind_load_mid_temp by lia
    | rewrite bind_store_mid_temp by lia
    | rewrite bind_load_ask by lia
    | rewrite bind_store_ask by lia
    | rewrite bind_store_ans by lia
    | rewrite bind_load_calc_queue by lia
    | rewrite bind_store_calc_queue by lia ];
  cbv beta iota; fields.

Ltac msteps := repeat mstep.

(** Comparisons in [bool] back to [Prop]. *)
Ltac cmp :=
  rewrite ?Z.geb_leb, ?Z.gtb_ltb in *;
  repeat match goal with
  | |- context [?a <=? ?b] => destruct (Z.leb_spec a b)
  | |- context [?a <? ?b] => destruct (Z.ltb_spec a b)
  | |- context [?a =? ?b] => destruct (Z.eqb_spec a b)
  end.

(** ** [find_mid] returns one of the values it was given *)

Section FindMid.

(** [D] is a set of slots of [_mid_temp] and [P] a set of values: the loops
    below only copy values between slots of [D]. *)
Variables (D P : Z -> Prop).


Lemma closed_upd m p v : closed D P m -> P v -> closed D P (upd m p v).
Proof.
  intros Hc Hv q Hq. unfold upd. destruct (q =? p); [exact Hv | now apply Hc].
Qed.

Lemma shift_loop_spec fuel index k i st :
  0 <= index <= i -> i < MAX_QUEUE_LENGTH -> (Z.to_nat (i - index) + 1 < fuel)%nat ->
  (forall p, index <= p <= i -> D p) -> closed D P (_mid_temp st) ->
  exists m' j,
    shift_loop fuel index k (i - 1) st = Done (with_mid_temp st m') j /\
    index - 1 <= j <= i - 1 /\ closed D P m'.
Proof.
  intros Hi Hmax Hfuel HD Hcl. unfold shift_loop.
  destruct (while_rule
    (fun j s => exists m', s = with_mid_temp st m' /\ index - 1 <= j <= i - 1 /\ closed D P m')
    (fun j s => exists m', s = with_mid_temp st m' /\ index - 1 <= j <= i - 1 /\ closed D P m')
    (fun j _ => Z.to_nat (j - index + 1))
    (fun j => if j >=? index then (x <- load_mid_temp j ;; ret (x >? k)) else ret false)
    (fun j => x <- load_mid_temp j ;; store_mid_temp (j + 1) x ;; ret (j - 1)))
    with (fuel := fuel) (v := i - 1) (s := st) as (j & s & Hw & m' & -> & Hj & Hc').
  - intros j s (m' & -> & Hj & Hc'). rewrite Z.geb_leb.
    destruct (Z.leb_spec index j) as [Hge | Hlt].
    + msteps. rewrite Z.gtb_ltb. destruct (Z.ltb_spec k (m' j)) as [Hgt | Hle].
      * right. split; [reflexivity|]. eexists _, _. msteps.
        split; [reflexivity|]. split; [|lia].
        eexists. split; [reflexivity|]. split; [lia|].
        apply closed_upd; [exact Hc' | apply Hc'; apply HD; lia].
      * left. split; [reflexivity|]. exists m'. auto.
    + left. split; [reflexivity|]. exists m'. auto.
  - exists (_mid_temp st). split; [destruct st; reflexivity|]. split; [lia | exact Hcl].
  - lia.
  - exists m', j. auto.
Qed.

Lemma sort_group_spec fuel index remain st :
  0 <= index -> 1 <= remain -> index + remain <= MAX_QUEUE_LENGTH ->
  (Z.to_nat remain + 2 < fuel)%nat ->
  (forall p, index <= p < index + remain -> D p) -> closed D P (_mid_temp st) ->
  exists m' i,
    sort_group fuel index remain st = Done (with_mid_temp st m') i /\ closed D P m'.
Proof.
  intros Hi Hr Hmax Hfuel HD Hcl. unfold sort_group.
  destruct (while_rule
    (fun i s => exists m', s = with_mid_temp st m' /\ index <= i <= index + remain /\ closed D P m')
    (fun i s => exists m', s = with_mid_temp st m' /\ closed D P m')
    (fun i _ => Z.to_nat (index + remain - i))
    (fun i => ret (i <? index + remain))
    (fun i =>
       k <- load_mid_temp i ;;
       j <- shift_loop fuel index k (i - 1) ;;
       store_mid_temp (j + 1) k ;;
       ret (i + 1)))
    with (fuel := fuel) (v := index) (s := st) as (i & s & Hw & m' & -> & Hc').
  - intros i s (m' & -> & Hb & Hc'). unfold ret at 1.
    destruct (Z.ltb_spec i (index + remain)) as [Hlt | Hge].
    + right. split; [reflexivity|]. msteps.
      destruct (shift_loop_spec fuel index (m' i) i (with_mid_temp st m'))
        as (m'' & j & Hs & Hj & Hc''); try lia.
      { intros p Hp. apply HD. lia. }
      { exact Hc'. }
      rewrite (bind_eq _ Hs). msteps.
      eexists _, _. split; [reflexivity|]. split; [|lia].
      eexists. split; [reflexivity|]. split; [lia|].
      apply closed_upd; [exact Hc'' | apply Hc'; apply HD; lia].
    + left. split; [reflexivity|]. exists m'. auto.
  - exists (_mid_temp st). split; [destruct st; reflexivity|]. split; [lia | exact Hcl].
  - lia.
  - exists m', i. auto.
Qed.

End FindMid.

Lemma groups_loop_spec fuel left right st :
  0 <= left < right -> right < MAX_QUEUE_LENGTH ->
  (Z.to_nat (right - left) + 9 < fuel)%nat ->
  exists m' i,
    groups_loop fuel left right st = Done (with_mid_temp st m') i /\
    closed (fun p => 0 <= p <= Z.quot (right - left - 1) 5)
           (fun v => exists q, left <= q <= right /\ _mid_temp st q = v) m'.
Proof.
  intros Hl Hmax Hfuel. unfold groups_loop.
  set (P := fun v => exists q, left <= q <= right /\ _mid_temp st q = v).
  set (Dg := fun g p => left <= p <= right \/ 0 <= p < g).
  destruct (while_rule
    (fun index s => exists m' g, s = with_mid_temp st m' /\ index = left + 5 * g /\
                                 0 <= g /\ index < right + 5 /\ closed (Dg g) P m')
    (fun index s => exists m', s = with_mid_temp st m' /\
                               closed (fun p => 0 <= p <= Z.quot (right - left - 1) 5) P m')
    (fun index _ => Z.to_nat (right + 5 - index))
    (fun index => ret (index <? right))
    (fun index =>
       let remain_num := if index + 5 >=? right then right - index + 1 else 5 in
       sort_group fuel index remain_num ;;
       m <- load_mid_temp (index + Z.quot remain_num 2) ;;
       store_mid_temp (Z.quot (index - left) 5) m ;;
       ret (index + 5)))
    with (fuel := fuel) (v := left) (s := st) as (i & s & Hw & m' & -> & Hc').
  - intros index s (m' & g & -> & Hidx & Hg & Hb & Hc'). unfold ret at 1.
    destruct (Z.ltb_spec index right) as [Hlt | Hge].
    + right. split; [reflexivity|]. cbv zeta.
      set (remain := if index + 5 >=? right then right - index + 1 else 5).
      assert (Hrem : 2 <= remain <= 6 /\ index + remain - 1 <= right).
      { unfold remain. rewrite Z.geb_leb. destruct (Z.leb_spec right (index + 5)); lia. }
      assert (Hq : 1 <= Z.quot remain 2 < remain).
      { rewrite Z.quot_div_nonneg by lia. split.
        - apply Z.div_le_lower_bound; lia.
        - apply Z.div_lt_upper_bound; lia. }
      destruct (sort_group_spec (Dg g) P fuel index remain (with_mid_temp st m'))
        as (m'' & i' & Hs & Hc''); try lia.
      { intros p Hp. left. lia. }
      { exact Hc'. }
      rewrite (bind_eq _ Hs). msteps.
      assert (Hg' : Z.quot (index - left) 5 = g).
      { replace (index - left) with (g * 5) by lia. apply Z.quot_mul. lia. }
      rewrite Hg'. msteps.
      eexists _, _. split; [reflexivity|]. split; [|lia].
      exists (upd m'' g (m'' (index + Z.quot remain 2))), (g + 1).
      split; [reflexivity|]. split; [lia|]. split; [lia|]. split; [lia|].
      intros p Hp. unfold upd. destruct (Z.eqb_spec p g) as [-> | Hne].
      * apply Hc''. left. lia.
      * apply Hc''. destruct Hp as [Hp | Hp]; [left; exact Hp | right; lia].
    + left. split; [reflexivity|]. exists m'. split; [reflexivity|].
      intros p Hp. apply Hc'. right.
      rewrite Z.quot_div_nonneg in Hp by lia.
      assert ((right - left - 1) / 5 < g) by (apply Z.div_lt_upper_bound; lia).
      lia.
  - exists (_mid_temp st), 0. split; [destruct st; reflexivity|].
    split; [lia|]. split; [lia|]. split; [lia|].
    intros p [Hp | Hp]; [|lia]. exists p. auto.
  - lia.
  - exists m', i. auto.
Qed.

Lemma find_mid_spec fuel : forall left right st,
  0 <= left <= right -> right < MAX_QUEUE_LENGTH ->
  (Z.to_nat (right - left) + 10 < fuel)%nat ->
  exists m' v,
    find_mid fuel left right st = Done (with_mid_temp st m') v /\
    exists q, left <= q <= right /\ _mid_temp st q = v.
Proof.
  induction fuel as [|f IH]; intros left right st Hl Hmax Hfuel; [lia|].
  cbn [find_mid]. destruct (Z.eqb_spec left right) as [-> | Hne].
  - exists (_mid_temp st), (_mid_temp st right). split.
    + rewrite load_mid_temp_ok by lia. destruct st; reflexivity.
    + exists right. split; [lia | reflexivity].
  - destruct (groups_loop_spec (S f) left right st) as (m1 & i & Hg & Hc); try lia.
    rewrite (bind_eq _ Hg).
    assert (Hq : 0 <= Z.quot (right - left - 1) 5 <= right - left - 1).
    { rewrite Z.quot_div_nonneg by lia. split.
      - apply Z.div_pos; lia.
      - apply Z.div_le_upper_bound; lia. }
    destruct (IH 0 (Z.quot (right - left - 1) 5) (with_mid_temp st m1))
      as (m2 & v & Hf & q & Hq' & Hv); try lia.
    exists m2, v. split; [exact Hf|].
    fields. subst v. apply Hc. lia.
Qed.

(** ** The partition step of [select] *)

Section Partition.

Variables (fuel : nat) (lo hi : Z).

Lemma copy_loop_spec left right st :
  lo <= left -> right <= hi -> 0 <= left <= right + 1 -> right < MAX_QUEUE_LENGTH ->
  (Z.to_nat (right - left) + 2 < fuel)%nat ->
  exists m' i,
    copy_loop fuel lo hi left right st = Done (with_mid_temp st m') i /\
    forall p, left <= p <= right -> m' p = _tmp st p.
Proof.
  intros Hlo Hhi Hl Hmax Hfuel. unfold copy_loop.
  destruct (while_rule
    (fun i s => exists m', s = with_mid_temp st m' /\ left <= i <= right + 1 /\
                           forall p, left <= p < i -> m' p = _tmp st p)
    (fun i s => exists m', s = with_mid_temp st m' /\
                           forall p, left <= p <= right -> m' p = _tmp st p)
    (fun i _ => Z.to_nat (right + 1 - i))
    (fun i => ret (i <=? right))
    (fun i => x <- load_tmp lo hi i ;; store_mid_temp i x ;; ret (i + 1)))
    with (fuel := fuel) (v := left) (s := st) as (i & s & Hw & m' & -> & Hm).
  - intros i s (m' & -> & Hi & Hm). unfold ret at 1.
    destruct (Z.leb_spec i right) as [Hle | Hgt].
    + right. split; [reflexivity|]. msteps.
      eexists _, _. split; [reflexivity|]. split; [|lia].
      eexists. split; [reflexivity|]. split; [lia|].
      intros p Hp. unfold upd. destruct (Z.eqb_spec p i) as [-> | Hne]; [reflexivity|].
      apply Hm. lia.
    + left. split; [reflexivity|]. exists m'. split; [reflexivity|].
      intros p Hp. apply Hm. lia.
  - exists (_mid_temp st). split; [destruct st; reflexivity|]. split; [lia|]. intros; lia.
  - lia.
  - exists m', i. auto.
Qed.

Lemma find_pivot_spec mid left right st :
  lo <= left -> right <= hi ->
  (exists q, left <= q <= right /\ _tmp st q = mid) ->
  (Z.to_nat (right - left) + 2 < fuel)%nat ->
  exists index,
    find_pivot fuel lo hi mid left right st = Done st index /\
    left <= index <= right /\ _tmp st index = mid.
Proof.
  intros Hlo Hhi (q & Hq & Hv) Hfuel. unfold find_pivot.
  destruct (while_rule
    (fun index s => s = st /\ left <= index <= q)
    (fun index s => s = st /\ left <= index <= right /\ _tmp st index = mid)
    (fun index _ => Z.to_nat (right + 1 - index))
    (fun index =>
       if index <=? right then (x <- load_tmp lo hi index ;; ret (negb (x =? mid)))
       else ret false)
    (fun index => ret (index + 1)))
    with (fuel := fuel) (v := left) (s := st) as (i & s & Hw & -> & Hi & Hm).
  - intros index s (-> & Hi).
    destruct (Z.leb_spec index right) as [Hle | Hgt]; [|lia].
    msteps. unfold ret at 1. destruct (Z.eqb_spec (_tmp st index) mid) as [He | Hne]; cbn [negb].
    + left. split; [reflexivity|]. split; [reflexivity|]. split; [lia | exact He].
    + right. split; [reflexivity|]. exists (index + 1), st.
      split; [reflexivity|]. split; [|lia]. split; [reflexivity|].
      assert (index <> q) by congruence. lia.
  - split; [reflexivity | lia].
  - lia.
  - exists i. auto.
Qed.

Lemma scan_down_spec mid i j st :
  lo <= i -> j <= hi -> i <= j + 1 -> (Z.to_nat (j - i) + 2 < fuel)%nat ->
  exists j',
    scan_down fuel lo hi mid i j st = Done st j' /\
    i - 1 <= j' <= j /\
    (forall p, j' < p <= j -> mid < _tmp st p) /\
    (i <= j' -> _tmp st j' <= mid).
Proof.
  intros Hlo Hhi Hij Hfuel. unfold scan_down.
  destruct (while_rule
    (fun j' s => s = st /\ i - 1 <= j' <= j /\ forall p, j' < p <= j -> mid < _tmp st p)
    (fun j' s => s = st /\ i - 1 <= j' <= j /\
                 (forall p, j' < p <= j -> mid < _tmp st p) /\
                 (i <= j' -> _tmp st j' <= mid))
    (fun j' _ => Z.to_nat (j' - i + 1))
    (fun j => if i <=? j then (x <- load_tmp lo hi j ;; ret (x >? mid)) else ret false)
    (fun j => ret (j - 1)))
    with (fuel := fuel) (v := j) (s := st) as (j' & s & Hw & -> & Hj & Hs & Hstop).
  - intros j' s (-> & Hj & Hs).
    destruct (Z.leb_spec i j') as [Hle | Hgt].
    + msteps. unfold ret at 1. rewrite Z.gtb_ltb.
      destruct (Z.ltb_spec mid (_tmp st j')) as [Hlt | Hge].
      * right. split; [reflexivity|]. exists (j' - 1), st.
        split; [reflexivity|]. split; [|lia]. split; [reflexivity|]. split; [lia|].
        intros p Hp. destruct (Z.eq_dec p j') as [-> | Hne]; [exact Hlt | apply Hs; lia].
      * left. split; [reflexivity|]. repeat split; try lia; auto.
    + left. split; [reflexivity|]. repeat split; try lia; auto.
  - split; [reflexivity|]. split; [lia|]. intros; lia.
  - lia.
  - exists j'. auto.
Qed.

Lemma scan_up_spec mid i j st :
  lo <= i -> j <= hi -> i <= j + 1 -> (Z.to_nat (j - i) + 2 < fuel)%nat ->
  exists i',
    scan_up fuel lo hi mid j i st = Done st i' /\
    i <= i' <= j + 1 /\
    (forall p, i <= p < i' -> _tmp st p < mid) /\
    (i' <= j -> mid <= _tmp st i').
Proof.
  intros Hlo Hhi Hij Hfuel. unfold scan_up.
  destruct (while_rule
    (fun i' s => s = st /\ i <= i' <= j + 1 /\ forall p, i <= p < i' -> _tmp st p < mid)
    (fun i' s => s = st /\ i <= i' <= j + 1 /\
                 (forall p, i <= p < i' -> _tmp st p < mid) /\
                 (i' <= j -> mid <= _tmp st i'))
    (fun i' _ => Z.to_nat (j - i' + 1))
    (fun i => if i <=? j then (x <- load_tmp lo hi i ;; ret (x <? mid)) else ret false)
    (fun i => ret (i + 1)))
    with (fuel := fuel) (v := i) (s := st) as (i' & s & Hw & -> & Hi & Hs & Hstop).
  - intros i' s (-> & Hi & Hs).
    destruct (Z.leb_spec i' j) as [Hle | Hgt].
    + msteps. unfold ret at 1.
      destruct (Z.ltb_spec (_tmp st i') mid) as [Hlt | Hge].
      * right. split; [reflexivity|]. exists (i' + 1), st.
        split; [reflexivity|]. split; [|lia]. split; [reflexivity|]. split; [lia|].
        intros p Hp. destruct (Z.eq_dec p i') as [-> | Hne]; [exact Hlt | apply Hs; lia].
      * left. split; [reflexivity|]. repeat split; try lia; auto.
    + left. split; [reflexivity|]. repeat split; try lia; auto.
  - split; [reflexivity|]. split; [lia|]. intros; lia.
  - lia.
  - exists i'. auto.
Qed.

End Partition.

(** Moving the element of slot [t] into the hole [h] and making [t] the new
    hole exchanges two slots of the array with its hole filled. *)
Lemma hole_move (b : array) h t mid p :
  upd (upd b h (b t)) t mid p = swap (upd b h mid) h t p.
Proof.
  unfold swap, upd.
  destruct (Z.eqb_spec p t), (Z.eqb_spec p h), (Z.eqb_spec t h), (Z.eqb_spec h h);
    try reflexivity; try lia.
Qed.

Lemma hole_move_perm (b a0 : array) h t mid left right :
  left <= h <= right -> left <= t <= right ->
  Permutation (segr (upd b h mid) left right) (segr a0 left right) ->
  Permutation (segr (upd (upd b h (b t)) t mid) left right) (segr a0 left right).
Proof.
  intros Hh Ht Hp.
  rewrite (segr_ext _ (swap (upd b h mid) h t)) by (intros; apply hole_move).
  rewrite segr_swap_perm by lia. exact Hp.
Qed.

Lemma bind_assoc {S A B C} (m : M S A) (f : A -> M S B) (g : B -> M S C) s :
  bind (bind m f) g s = bind m (fun x => bind (f x) g) s.
Proof. unfold bind. destruct (m s); reflexivity. Qed.

Ltac upd_cases :=
  unfold upd in *;
  repeat match goal with
  | |- context [?a =? ?b] => destruct (Z.eqb_spec a b)
  | H : context [?a =? ?b] |- _ => destruct (Z.eqb_spec a b)
  end.

Ltac split_ands := repeat match goal with |- _ /\ _ => split end.

Lemma partition_body_spec fuel lo hi a0 mid left right i j index st :
  lo <= left -> right <= hi ->
  part_inv a0 mid left right (i, j, index) (_tmp st) -> i <= j ->
  (Z.to_nat (right - left) + 2 < fuel)%nat ->
  exists a' i' j' index',
    partition_body fuel lo hi mid (i, j, index) st = Done (with_tmp st a') (i', j', index') /\
    part_inv a0 mid left right (i', j', index') a' /\
    (Z.to_nat (j' - i' + 1) < Z.to_nat (j - i + 1))%nat.
Proof.
  intros Hlo Hhi (Hi & Hij & Hj & Hidx & Hhole & Hout & Hperm & Hleft & Hright) Hle Hfuel.
  unfold partition_body.
  destruct (scan_down_spec fuel lo hi mid i j st) as (j1 & Hsd & Hj1 & Hgt & Hstop1); try lia.
  rewrite (bind_eq _ Hsd).
  destruct (Z.leb_spec i j1) as [Hle1 | Hgt1].
  - (* an element at most [mid] was found at [j1]: it goes into the hole *)
    rewrite bind_assoc. msteps. rewrite bind_assoc. msteps.
    set (a1 := upd (_tmp st) index (_tmp st j1)).
    assert (Hperm1 : Permutation (segr (upd a1 j1 mid) left right) (segr a0 left right))
      by (apply hole_move_perm; [lia | lia | exact Hperm]).
    assert (Hleft1 : forall p, left <= p < i -> upd a1 j1 mid p <= mid).
    { intros p Hp. specialize (Hleft p Hp). specialize (Hstop1 Hle1).
      unfold a1. upd_cases; lia. }
    assert (Hright1 : forall p, j1 - 1 < p <= right -> mid <= upd a1 j1 mid p).
    { intros p Hp. pose proof (Hright p) as Hr. pose proof (Hgt p) as Hg.
      unfold a1. upd_cases; lia. }
    destruct (scan_up_spec fuel lo hi mid i (j1 - 1) (with_tmp st a1))
      as (i1 & Hsu & Hi1 & Hlt & Hstop2); try lia.
    rewrite (bind_eq _ Hsu). fields.
    destruct (Z.leb_spec i1 (j1 - 1)) as [Hle2 | Hgt2].
    + rewrite bind_assoc. msteps. rewrite bind_assoc. msteps.
      eexists _, _, _, _. split; [reflexivity|]. split; [|lia].
      unfold part_inv. split_ands; try lia.
      * intros p Hp. rewrite <- Hout by exact Hp. unfold a1. upd_cases; lia.
      * apply hole_move_perm; [lia | lia | exact Hperm1].
      * intros p Hp. pose proof (Hleft1 p) as Hl1. pose proof (Hlt p) as Hl2.
        unfold a1 in *. upd_cases; lia.
      * intros p Hp. pose proof (Hright1 p) as Hr1. specialize (Hstop2 Hle2).
        unfold a1 in *. upd_cases; lia.
    + msteps.
      eexists _, _, _, _. split; [reflexivity|]. split; [|lia].
      unfold part_inv. split_ands; try lia.
      * intros p Hp. rewrite <- Hout by exact Hp. unfold a1. upd_cases; lia.
      * exact Hperm1.
      * intros p Hp. pose proof (Hleft1 p) as Hl1. pose proof (Hlt p) as Hl2.
        unfold a1 in *. upd_cases; lia.
      * exact Hright1.
  - (* the scan ran down to [i - 1]: nothing moves *)
    msteps.
    destruct (scan_up_spec fuel lo hi mid i j1 st) as (i1 & Hsu & Hi1 & Hlt & Hstop2); try lia.
    rewrite (bind_eq _ Hsu).
    destruct (Z.leb_spec i1 j1) as [Hle2 | Hgt2]; [lia|].
    msteps.
    exists (_tmp st), i1, j1, index. split; [destruct st; reflexivity|]. split; [|lia].
    unfold part_inv. split_ands; try lia.
    + exact Hout.
    + exact Hperm.
    + intros p Hp. apply Hleft. lia.
    + intros p Hp. pose proof (Hright p) as Hr. pose proof (Hgt p) as Hg.
      upd_cases; lia.
Qed.

Lemma partition_loop_spec fuel lo hi a0 mid left right st :
  lo <= left -> right <= hi ->
  part_inv a0 mid left right (left, right, left) (_tmp st) ->
  (Z.to_nat (right - left) + 2 < fuel)%nat ->
  exists a' i j index,
    partition_loop fuel lo hi mid left right st = Done (with_tmp st a') (i, j, index) /\
    part_inv a0 mid left right (i, j, index) a' /\ j < i.
Proof.
  intros Hlo Hhi Hinv Hfuel. unfold partition_loop.
  destruct (while_rule
    (fun v s => exists a', s = with_tmp st a' /\ part_inv a0 mid left right v a')
    (fun v s => exists a', s = with_tmp st a' /\ part_inv a0 mid left right v a' /\
                           let '(i, j, _) := v in j < i)
    (fun (v : Z * Z * Z) _ => let '(i, j, _) := v in Z.to_nat (j - i + 1))
    (fun v : Z * Z * Z => let '(i, j, _) := v in ret (i <=? j))
    (partition_body fuel lo hi mid))
    with (fuel := fuel) (v := (left, right, left)) (s := st)
    as ([[i j] index] & s & Hw & a' & -> & Hinv' & Hji).
  - intros [[i j] index] s (a' & -> & Hinv'). unfold ret at 1.
    destruct (Z.leb_spec i j) as [Hle | Hgt].
    + right. split; [reflexivity|].
      destruct (partition_body_spec fuel lo hi a0 mid left right i j index (with_tmp st a'))
        as (a'' & i' & j' & index' & Hb & Hinv'' & Hvar); try lia; try exact Hinv'.
      exists (i', j', index'), (with_tmp st a''). split; [exact Hb|].
      split; [|exact Hvar]. exists a''. split; [reflexivity | exact Hinv''].
    + left. split; [reflexivity|]. exists a'. auto.
  - exists (_tmp st). split; [destruct st; reflexivity | exact Hinv].
  - destruct Hinv as (? & ? & ? & _). lia.
  - exists a', i, j, index. auto.
Qed.

Lemma partition_tmp_spec fuel lo hi left right st :
  lo <= left -> right <= hi -> 0 <= left < right -> right < MAX_QUEUE_LENGTH ->
  (Z.to_nat (right - left) + 10 < fuel)%nat ->
  exists t' m' index,
    partition_tmp fuel lo hi left right st =
      Done (with_mid_temp (with_tmp st t') m') index /\
    left <= index <= right /\
    (forall p, p < left \/ right < p -> t' p = _tmp st p) /\
    Permutation (segr t' left right) (segr (_tmp st) left right) /\
    (forall p, left <= p <= index -> t' p <= t' index) /\
    (forall p, index <= p <= right -> t' index <= t' p).
Proof.
  intros Hlo Hhi Hl Hmax Hfuel. unfold partition_tmp.
  destruct (copy_loop_spec fuel lo hi left right st) as (m1 & i0 & Hc & Hm1); try lia.
  rewrite (bind_eq _ Hc).
  destruct (find_mid_spec fuel left right (with_mid_temp st m1))
    as (m2 & mid & Hf & q & Hq & Hmid); try lia.
  rewrite (bind_eq _ Hf). fields. rewrite Hm1 in Hmid by lia.
  destruct (find_pivot_spec fuel lo hi mid left right (with_mid_temp st m2))
    as (index0 & Hp & Hidx0 & Hv0); try lia.
  { exists q. auto. }
  rewrite (bind_eq _ Hp). fields. msteps.
  set (a1 := upd (_tmp st) index0 (_tmp st left)).
  destruct (partition_loop_spec fuel lo hi (_tmp st) mid left right
              (with_tmp (with_mid_temp st m2) a1))
    as (a' & i & j & index & Hloop & Hinv & Hji); try lia.
  { fields. unfold part_inv. split_ands; try lia.
    - intros p Hp'. unfold a1. upd_cases; lia.
    - unfold a1. apply hole_move_perm; try lia.
      rewrite (segr_ext _ (_tmp st)); [reflexivity|].
      intros p Hp'. upd_cases; congruence. }
  destruct Hinv as (Hi & Hij & Hj & Hidx & Hhole & Hout & Hperm & Hleft & Hright).
  rewrite (bind_eq _ Hloop). cbv beta iota. fields. msteps.
  exists (upd a' index mid), m2, index. split; [reflexivity|].
  split; [lia|]. split; [|split; [exact Hperm|split]].
  - intros p Hp'. rewrite <- Hout by exact Hp'. upd_cases; lia.
  - intros p Hp'. rewrite upd_same.
    destruct (Z.eq_dec p index) as [-> | Hne]; [rewrite upd_same; lia|].
    apply Hleft. lia.
  - intros p Hp'. rewrite upd_same.
    destruct (Z.eq_dec p index) as [-> | Hne]; [rewrite upd_same; lia|].
    apply Hright. lia.
Qed.

(** ** The queries of [select] *)

Lemma wrap_u64_small z : 0 <= z < 2 ^ 64 -> wrap_u64 z = z.
Proof. intros H. unfold wrap_u64. now apply Z.mod_small. Qed.

Section Queries.

Variable fuel : nat.

Lemma answer_loop_spec lo hi left qleft qright st :
  lo <= left <= hi -> 0 <= qleft -> qright <= 4 -> qleft <= qright + 1 ->
  (forall q, qleft <= q <= qright -> _ask st q = 1) ->
  (Z.to_nat (qright - qleft) + 2 < fuel)%nat ->
  exists ans' i,
    answer_loop fuel lo hi left qleft qright st = Done (with_ans st ans') i /\
    (forall q, qleft <= q <= qright -> ans' q = _tmp st left) /\
    (forall q, q < qleft \/ qright < q -> ans' q = _ans st q).
Proof.
  intros Hl Hq0 Hq4 Hq Hask Hfuel. unfold answer_loop.
  destruct (while_rule
    (fun i s => exists ans', s = with_ans st ans' /\ qleft <= i <= qright + 1 /\
                  (forall q, qleft <= q < i -> ans' q = _tmp st left) /\
                  (forall q, q < qleft \/ i <= q -> ans' q = _ans st q))
    (fun i s => exists ans', s = with_ans st ans' /\
                  (forall q, qleft <= q <= qright -> ans' q = _tmp st left) /\
                  (forall q, q < qleft \/ qright < q -> ans' q = _ans st q))
    (fun i _ => Z.to_nat (qright + 1 - i))
    (fun i => ret (i <=? qright))
    (fun i =>
       a <- load_ask i ;;
       (if a =? 1 then (x <- load_tmp lo hi left ;; store_ans i x)
        else dassert_false "select percentail wrong!!!") ;;
       ret (i + 1)))
    with (fuel := fuel) (v := qleft) (s := st) as (i & s & Hw & ans' & -> & H1 & H2).
  - intros i s (ans' & -> & Hi & H1 & H2). unfold ret at 1.
    destruct (Z.leb_spec i qright) as [Hle | Hgt].
    + right. split; [reflexivity|]. msteps. rewrite Hask by lia. cbn [Z.eqb Pos.eqb].
      rewrite bind_assoc. msteps.
      eexists _, _. split; [reflexivity|]. split; [|lia].
      eexists. split; [reflexivity|]. split; [lia|]. split.
      * intros q Hq'. upd_cases; [reflexivity | apply H1; lia].
      * intros q Hq'. upd_cases; [lia | apply H2; lia].
    + left. split; [reflexivity|]. exists ans'. split; [reflexivity|]. split.
      * intros q Hq'. apply H1. lia.
      * intros q Hq'. apply H2. lia.
  - exists (_ans st). split; [destruct st; reflexivity|]. split; [lia|].
    split; [intros; lia | reflexivity].
  - lia.
  - exists ans', i. auto.
Qed.

Lemma ask_skip_spec now qleft qright st :
  0 <= now < 2 ^ 64 -> 0 <= qleft -> qright <= 4 -> qleft <= qright + 1 ->
  (Z.to_nat (qright - qleft) + 2 < fuel)%nat ->
  exists i,
    ask_skip fuel now qleft qright st = Done st i /\
    qleft <= i <= qright + 1 /\
    (forall q, qleft <= q < i -> _ask st q < now) /\
    (i <= qright -> now <= _ask st i).
Proof.
  intros Hnow Hq0 Hq4 Hq Hfuel. unfold ask_skip. rewrite (wrap_u64_small now Hnow).
  destruct (while_rule
    (fun i s => s = st /\ qleft <= i <= qright + 1 /\ forall q, qleft <= q < i -> _ask st q < now)
    (fun i s => s = st /\ qleft <= i <= qright + 1 /\
                (forall q, qleft <= q < i -> _ask st q < now) /\
                (i <= qright -> now <= _ask st i))
    (fun i _ => Z.to_nat (qright + 1 - i))
    (fun i => if i <=? qright then (a <- load_ask i ;; ret (a <? now)) else ret false)
    (fun i => ret (i + 1)))
    with (fuel := fuel) (v := qleft) (s := st) as (i & s & Hw & -> & Hi & H1 & H2).
  - intros i s (-> & Hi & H1).
    destruct (Z.leb_spec i qright) as [Hle | Hgt].
    + msteps. unfold ret at 1. destruct (Z.ltb_spec (_ask st i) now) as [Hlt | Hge].
      * right. split; [reflexivity|]. exists (i + 1), st.
        split; [reflexivity|]. split; [|lia]. split; [reflexivity|]. split; [lia|].
        intros q Hq'. destruct (Z.eq_dec q i) as [-> | Hne]; [exact Hlt | apply H1; lia].
      * left. split; [reflexivity|]. split_ands; auto; lia.
    + left. split; [reflexivity|]. split_ands; auto; lia.
  - split; [reflexivity|]. split; [lia|]. intros; lia.
  - lia.
  - exists i. auto.
Qed.

Lemma ask_sub_spec now i qright st :
  0 <= i -> qright <= 4 -> i <= qright + 1 ->
  (Z.to_nat (qright - i) + 2 < fuel)%nat ->
  exists a' j,
    ask_sub fuel now i qright st = Done (with_ask st a') j /\
    (forall q, i <= q <= qright -> a' q = wrap_u64 (_ask st q - now)) /\
    (forall q, q < i \/ qright < q -> a' q = _ask st q).
Proof.
  intros Hq0 Hq4 Hq Hfuel. unfold ask_sub.
  destruct (while_rule
    (fun j s => exists a', s = with_ask st a' /\ i <= j <= qright + 1 /\
                  (forall q, i <= q < j -> a' q = wrap_u64 (_ask st q - now)) /\
                  (forall q, q < i \/ j <= q -> a' q = _ask st q))
    (fun j s => exists a', s = with_ask st a' /\
                  (forall q, i <= q <= qright -> a' q = wrap_u64 (_ask st q - now)) /\
                  (forall q, q < i \/ qright < q -> a' q = _ask st q))
    (fun j _ => Z.to_nat (qright + 1 - j))
    (fun j => ret (j <=? qright))
    (fun j => a <- load_ask j ;; store_ask j (wrap_u64 (a - now)) ;; ret (j + 1)))
    with (fuel := fuel) (v := i) (s := st) as (j & s & Hw & a' & -> & H1 & H2).
  - intros j s (a' & -> & Hj & H1 & H2). unfold ret at 1.
    destruct (Z.leb_spec j qright) as [Hle | Hgt].
    + right. split; [reflexivity|]. msteps.
      eexists _, _. split; [reflexivity|]. split; [|lia].
      eexists. split; [reflexivity|]. split; [lia|]. split.
      * intros q Hq'. upd_cases; [subst; rewrite H2 by lia; reflexivity | apply H1; lia].
      * intros q Hq'. upd_cases; [lia | apply H2; lia].
    + left. split; [reflexivity|]. exists a'. split; [reflexivity|]. split.
      * intros q Hq'. apply H1. lia.
      * intros q Hq'. apply H2. lia.
  - exists (_ask st). split; [destruct st; reflexivity|]. split; [lia|].
    split; [intros; lia | reflexivity].
  - lia.
  - exists a', j. auto.
Qed.

Lemma ask_bump_spec i qright st :
  0 <= i -> qright <= 4 -> i <= qright + 1 ->
  (Z.to_nat (qright - i) + 2 < fuel)%nat ->
  exists a' j,
    ask_bump fuel i qright st = Done (with_ask st a') j /\
    i <= j <= qright + 1 /\
    (forall q, i <= q < j -> _ask st q = 0 /\ a' q = 1) /\
    (forall q, q < i \/ j <= q -> a' q = _ask st q) /\
    (j <= qright -> _ask st j <> 0).
Proof.
  intros Hq0 Hq4 Hq Hfuel. unfold ask_bump.
  destruct (while_rule
    (fun j s => exists a', s = with_ask st a' /\ i <= j <= qright + 1 /\
                  (forall q, i <= q < j -> _ask st q = 0 /\ a' q = 1) /\
                  (forall q, q < i \/ j <= q -> a' q = _ask st q))
    (fun j s => exists a', s = with_ask st a' /\ i <= j <= qright + 1 /\
                  (forall q, i <= q < j -> _ask st q = 0 /\ a' q = 1) /\
                  (forall q, q < i \/ j <= q -> a' q = _ask st q) /\
                  (j <= qright -> _ask st j <> 0))
    (fun j _ => Z.to_nat (qright + 1 - j))
    (fun j => if j <=? qright then (a <- load_ask j ;; ret (a =? 0)) else ret false)
    (fun j => a <- load_ask j ;; store_ask j (wrap_u64 (a + 1)) ;; ret (j + 1)))
    with (fuel := fuel) (v := i) (s := st) as (j & s & Hw & a' & -> & Hj & H1 & H2 & H3).
  - intros j s (a' & -> & Hj & H1 & H2).
    destruct (Z.leb_spec j qright) as [Hle | Hgt].
    + msteps. unfold ret at 1. rewrite (H2 j) by lia.
      destruct (Z.eqb_spec (_ask st j) 0) as [Hz | Hnz].
      * right. split; [reflexivity|]. msteps. try rewrite (H2 j) by lia. rewrite Hz.
        eexists _, _. split; [reflexivity|]. split; [|lia].
        eexists. split; [reflexivity|]. split; [lia|]. split.
        -- intros q Hq'. upd_cases; [subst; split; [exact Hz | reflexivity] | apply H1; lia].
        -- intros q Hq'. upd_cases; [lia | apply H2; lia].
      * left. split; [reflexivity|]. exists a'. split_ands; auto; lia.
    + left. split; [reflexivity|]. exists a'. split_ands; auto; lia.
  - exists (_ask st). split; [destruct st; reflexivity|]. split; [lia|].
    split; [intros; lia | reflexivity].
  - lia.
  - exists a', j. split_ands; auto; lia.
Qed.

End Queries.

(** ** [select] on one task *)

Lemma bind_insert_calc_queue {B} left right qleft qright ct (k : Z -> M counter B) st :
  0 <= ct + 1 < MAX_QUEUE_LENGTH * 10 ->
  bind (insert_calc_queue left right qleft qright ct) k st =
  k (ct + 1) (with_calc_queue st
                (upd (_calc_queue st) (ct + 1) (mkTask left right qleft qright))).
Proof.
  intros H. unfold insert_calc_queue. cbv zeta. rewrite bind_assoc. msteps. reflexivity.
Qed.

Lemma select_inactive fuel lo hi left right qleft qright ct st :
  qright < qleft -> select fuel lo hi left right qleft qright ct st = Done st ct.
Proof.
  intros H. unfold select. rewrite Z.gtb_ltb.
  destruct (Z.ltb_spec qright qleft); [reflexivity | lia].
Qed.

Lemma select_single fuel lo hi n R left qleft qright ct st :
  lo <= left <= hi ->
  task_wf n R (_ask st) (mkTask left left qleft qright) ->
  qleft <= qright -> (10 < fuel)%nat ->
  exists ans',
    select fuel lo hi left left qleft qright ct st = Done (with_ans st ans') ct /\
    (forall q, qleft <= q <= qright -> ans' q = _tmp st left) /\
    (forall q, q < qleft \/ qright < q -> ans' q = _ans st q).
Proof.
  intros Hl (_ & _ & Hq0 & Hq4 & Hq) Hact Hfuel. fields.
  unfold select. rewrite Z.gtb_ltb.
  destruct (Z.ltb_spec qright qleft); [lia|]. rewrite Z.eqb_refl.
  destruct (answer_loop_spec fuel lo hi left qleft qright st) as (ans' & i & Ha & H1 & H2);
    try lia.
  { intros q Hq'. destruct (Hq q Hq'). lia. }
  rewrite (bind_eq _ Ha). exists ans'. auto.
Qed.

Lemma select_split fuel lo hi n R left right qleft qright ct st :
  ranks_ok n R -> n <= MAX_QUEUE_LENGTH ->
  lo <= left -> right <= hi ->
  task_wf n R (_ask st) (mkTask left right qleft qright) ->
  qleft <= qright -> left <> right ->
  0 <= ct -> ct + 3 < MAX_QUEUE_LENGTH * 10 ->
  (Z.to_nat (right - left) + 10 < fuel)%nat ->
  exists t' m' a' index i j,
    select fuel lo hi left right qleft qright ct st =
      Done (mkCounter (_tail st) (_queue st) t' m' a' (_ans st)
              (upd (upd (upd (_calc_queue st)
                             (ct + 1) (mkTask left (index - 1) qleft (i - 1)))
                        (ct + 2) (mkTask index index i (j - 1)))
                   (ct + 3) (mkTask (index + 1) right j qright)))
           (ct + 3) /\
    left <= index <= right /\ qleft <= i <= j /\ j <= qright + 1 /\
    (forall p, p < left \/ right < p -> t' p = _tmp st p) /\
    Permutation (segr t' left right) (segr (_tmp st) left right) /\
    (forall p, left <= p <= index -> t' p <= t' index) /\
    (forall p, index <= p <= right -> t' index <= t' p) /\
    (forall q, q < qleft \/ qright < q -> a' q = _ask st q) /\
    task_wf n R a' (mkTask left (index - 1) qleft (i - 1)) /\
    task_wf n R a' (mkTask index index i (j - 1)) /\
    task_wf n R a' (mkTask (index + 1) right j qright).
Proof.
  intros [Hrange Hmono] Hn Hlo Hhi (Hl0 & Hrn & Hq0 & Hq4 & Hq) Hact Hne Hct Hcap Hfuel.
  fields.
  assert (Hlr : left < right) by (destruct (Hq qleft ltac:(lia)); lia).
  assert (Hbig : MAX_QUEUE_LENGTH < 2 ^ 64) by (unfold MAX_QUEUE_LENGTH; lia).
  unfold select. rewrite Z.gtb_ltb.
  destruct (Z.ltb_spec qright qleft); [lia|].
  destruct (Z.eqb_spec left right); [lia|].
  destruct (partition_tmp_spec fuel lo hi left right st)
    as (t' & m' & index & Hp & Hidx & Hout & Hperm & Hle & Hge); try lia.
  rewrite (bind_eq _ Hp). cbv zeta.
  set (s1 := with_mid_temp (with_tmp st t') m').
  set (now := index - left + 1).
  destruct (ask_skip_spec fuel now qleft qright s1) as (i & Hs & Hi & Hlt & Hstop);
    try (unfold now; lia).
  rewrite (bind_eq _ Hs).
  destruct (ask_sub_spec fuel now i qright s1) as (a1 & j0 & Hsub & Ha1 & Ha1'); try lia.
  rewrite (bind_eq _ Hsub).
  destruct (ask_bump_spec fuel i qright (with_ask s1 a1))
    as (a2 & j & Hb & Hj & Hz & Ha2 & Hnz); try lia.
  rewrite (bind_eq _ Hb). unfold s1 in *. fields.
  rewrite bind_insert_calc_queue by lia. rewrite bind_insert_calc_queue by lia. fields.
  replace (ct + 1 + 1) with (ct + 2) by lia.
  unfold insert_calc_queue. cbv zeta. msteps. replace (ct + 2 + 1) with (ct + 3) by lia.
  (* the ranks from [i] on are at least [now] *)
  assert (Hfrom_i : forall q, i <= q <= qright ->
                      a1 q = _ask st q - now /\ now <= _ask st q).
  { intros q Hq'. specialize (Hstop ltac:(lia)).
    destruct (Hq q ltac:(lia)) as [Eq Bq]. destruct (Hq i ltac:(lia)) as [Ei Bi].
    pose proof (Hmono i q ltac:(lia) ltac:(lia)).
    rewrite Ha1 by lia. split; [|lia]. apply wrap_u64_small. unfold now in *. lia. }
  (* the ranks from [j] on are above [now] *)
  assert (Hfrom_j : forall q, j <= q <= qright -> 1 <= a1 q).
  { intros q Hq'. specialize (Hnz ltac:(lia)).
    destruct (Hfrom_i q ltac:(lia)) as [Eq _]. destruct (Hfrom_i j ltac:(lia)) as [Ej Lj].
    destruct (Hq q ltac:(lia)) as [Eq' _]. destruct (Hq j ltac:(lia)) as [Ej' _].
    pose proof (Hmono j q ltac:(lia) ltac:(lia)). lia. }
  exists t', m', a2, index, i, j. split; [reflexivity|].
  split; [lia|]. split; [lia|]. split; [lia|].
  split; [exact Hout|]. split; [exact Hperm|]. split; [exact Hle|]. split; [exact Hge|].
  split; [|split; [|split]].
  - intros q Hq'. rewrite Ha2 by lia. apply Ha1'. lia.
  - unfold task_wf. fields. split_ands; try lia.
    intros q Hq'. rewrite Ha2 by lia. rewrite Ha1' by lia.
    destruct (Hq q ltac:(lia)) as [Eq Bq]. specialize (Hlt q ltac:(lia)).
    unfold now in *. lia.
  - unfold task_wf. fields. split_ands; try lia.
    intros q Hq'. destruct (Hz q ltac:(lia)) as [Z1 Z2].
    destruct (Hfrom_i q ltac:(lia)) as [Eq _]. destruct (Hq q ltac:(lia)) as [Eq' Bq].
    unfold now in *. lia.
  - unfold task_wf. fields. split_ands; try lia.
    intros q Hq'. rewrite Ha2 by lia.
    destruct (Hfrom_i q ltac:(lia)) as [Eq _]. destruct (Hq q ltac:(lia)) as [Eq' Bq].
    specialize (Hfrom_j q ltac:(lia)). unfold now in *. lia.
Qed.

(** ** Cuts *)

Lemma perm_values a' a left right p :
  Permutation (segr a' left right) (segr a left right) -> left <= p <= right ->
  exists p', left <= p' <= right /\ a' p = a p'.
Proof.
  intros Hperm Hp.
  assert (Hin : In (a' p) (segr a left right)).
  { apply (Permutation_in _ Hperm). apply segr_In. exists p. auto. }
  apply segr_In in Hin. destruct Hin as (p' & Hp' & E). exists p'. auto.
Qed.

(** A permutation inside [left .. right] keeps every cut that does not fall
    strictly inside the range. *)
Lemma cut_preserved n a a' left right c :
  cut n a c -> 0 <= left -> right < n ->
  (forall p, p < left \/ right < p -> a' p = a p) ->
  Permutation (segr a' left right) (segr a left right) ->
  c <= left \/ right < c -> cut n a' c.
Proof.
  intros Hcut Hl Hr Hout Hperm Hc i j Hi Hj.
  assert (Hi' : exists i', 0 <= i' < c /\ a' i = a i').
  { destruct (Z_lt_dec i left); [exists i; split; [lia | apply Hout; lia]|].
    destruct (Z_lt_dec right i); [exists i; split; [lia | apply Hout; lia]|].
    destruct (perm_values a' a left right i Hperm) as (i' & Hb & E); [lia|].
    exists i'. split; [lia | exact E]. }
  assert (Hj' : exists j', c <= j' < n /\ a' j = a j').
  { destruct (Z_lt_dec j left); [exists j; split; [lia | apply Hout; lia]|].
    destruct (Z_lt_dec right j); [exists j; split; [lia | apply Hout; lia]|].
    destruct (perm_values a' a left right j Hperm) as (j' & Hb & E); [lia|].
    exists j'. split; [lia | exact E]. }
  destruct Hi' as (i' & Hbi & ->). destruct Hj' as (j' & Hbj & ->).
  now apply Hcut.
Qed.

(** The pivot of a partitioned range makes two new cuts. *)
Lemma cut_pivot n a left right index :
  cut n a left -> cut n a (right + 1) ->
  0 <= left -> left <= index <= right -> right < n ->
  (forall p, left <= p <= index -> a p <= a index) ->
  (forall p, index <= p <= right -> a index <= a p) ->
  cut n a index /\ cut n a (index + 1).
Proof.
  intros Hcl Hcr Hl Hidx Hr Hle Hge. split; intros i j Hi Hj.
  - destruct (Z_lt_dec i left); [apply Hcl; lia|].
    destruct (Z_lt_dec right j); [apply Hcr; lia|].
    transitivity (a index); [apply Hle | apply Hge]; lia.
  - destruct (Z_lt_dec i left); [apply Hcl; lia|].
    destruct (Z_lt_dec right j); [apply Hcr; lia|].
    transitivity (a index); [apply Hle | apply Hge]; lia.
Qed.

(** A slot between two cuts holds the element of its rank. *)
Lemma separator_rank n a samples p :
  Permutation (segr a 0 (n - 1)) samples -> 0 <= p < n ->
  cut n a p -> cut n a (p + 1) ->
  a p = nth (Z.to_nat p) (sort samples) 0.
Proof.
  intros Hperm Hp Hc1 Hc2.
  assert (Hlen : length (segr a 0 (n - 1)) = Z.to_nat n)
    by (unfold segr; rewrite seg_length; f_equal; lia).
  rewrite (rank_of_separator (segr a 0 (n - 1)) samples (Z.to_nat p) Hperm).
  - rewrite segr_nth by lia. reflexivity.
  - lia.
  - intros i Hi. rewrite <- (Nat2Z.id i). rewrite !segr_nth by lia.
    apply Hc1; lia.
  - intros i Hi. rewrite <- (Nat2Z.id i). rewrite !segr_nth by lia.
    apply Hc2; lia.
Qed.

(** ** The weight of the pending tasks *)

Lemma weight_nonneg t : 0 <= weight t.
Proof. unfold weight. destruct (t_qleft t <=? t_qright t); lia. Qed.

Lemma sum_weight_nonneg cq l k : 0 <= sum_weight cq l k.
Proof.
  revert l. induction k as [|k IH]; intros l; simpl; [lia|].
  pose proof (weight_nonneg (cq l)). specialize (IH (l + 1)). lia.
Qed.

Lemma sum_weight_ext cq cq' l k :
  (forall x, l <= x < l + Z.of_nat k -> cq' x = cq x) ->
  sum_weight cq' l k = sum_weight cq l k.
Proof.
  revert l. induction k as [|k IH]; intros l H; simpl; [reflexivity|].
  rewrite H by lia. f_equal. apply IH. intros x Hx. apply H. lia.
Qed.

Lemma sum_weight_app cq l k m :
  sum_weight cq l (k + m) = sum_weight cq l k + sum_weight cq (l + Z.of_nat k) m.
Proof.
  revert l. induction k as [|k IH]; intros l.
  - simpl. f_equal. lia.
  - cbn [Nat.add sum_weight]. rewrite IH.
    replace (l + 1 + Z.of_nat k) with (l + Z.of_nat (S k)) by lia. lia.
Qed.

Lemma pending_weight_nonneg cq l r : 0 <= pending_weight cq l r.
Proof. apply sum_weight_nonneg. Qed.

Lemma pending_weight_first cq l r :
  l <= r -> pending_weight cq l r = weight (cq l) + pending_weight cq (l + 1) r.
Proof.
  intros H. unfold pending_weight.
  replace (Z.to_nat (r - l + 1)) with (S (Z.to_nat (r - (l + 1) + 1))) by lia.
  reflexivity.
Qed.

Lemma pending_weight_push3 cq l r t1 t2 t3 :
  l <= r + 1 ->
  pending_weight (upd (upd (upd cq (r + 1) t1) (r + 2) t2) (r + 3) t3) l (r + 3) =
  pending_weight cq l r + weight t1 + weight t2 + weight t3.
Proof.
  intros H. unfold pending_weight.
  replace (Z.to_nat (r + 3 - l + 1)) with (Z.to_nat (r - l + 1) + 3)%nat by lia.
  rewrite sum_weight_app.
  rewrite (sum_weight_ext cq) by (intros x Hx; rewrite !upd_other by lia; reflexivity).
  replace (l + Z.of_nat (Z.to_nat (r - l + 1))) with (r + 1) by lia.
  cbn [sum_weight].
  replace (r + 1 + 1) with (r + 2) by lia. replace (r + 2 + 1) with (r + 3) by lia.
  upd_cases; lia.
Qed.

Lemma disjoint_sym t u : disjoint t u -> disjoint u t.
Proof. unfold disjoint. intros H Hu Ht. specialize (H Ht Hu). lia. Qed.

(** A task pushed for a part of [t0] stays clear of what is clear of [t0]. *)
Lemma disjoint_sub t t0 u :
  disjoint t t0 -> active t0 ->
  t_left t0 <= t_left u -> t_right u <= t_right t0 ->
  t_qleft t0 <= t_qleft u -> t_qright u <= t_qright t0 ->
  disjoint t u.
Proof. unfold disjoint. intros H H0 ? ? ? ? Ht Hu. specialize (H Ht H0). lia. Qed.

(** ** One round of the worklist loop of [calc] *)

Section Worklist.

Variables (fuel : nat) (n : Z) (samples : list Z) (R : Z -> Z).
Hypothesis HR : ranks_ok n R.
Hypothesis Hn : 1 <= n <= MAX_QUEUE_LENGTH.
Hypothesis Hfuel : (Z.to_nat (3 * n) + 10 < fuel)%nat.

Lemma work_inv_r_bound {l r st} :
  work_inv n samples R l r st -> r <= 3 * n - 2.
Proof.
  intros H. pose proof (wi_potential H).
  pose proof (pending_weight_nonneg (_calc_queue st) l r). lia.
Qed.

Lemma active_range {l r st} k :
  work_inv n samples R l r st -> l <= k <= r -> active (_calc_queue st k) ->
  0 <= t_left (_calc_queue st k) <= t_right (_calc_queue st k) /\
  t_right (_calc_queue st k) < n.
Proof.
  intros H Hk Ha. destruct (wi_wf H k Hk) as (H0 & H1 & H2 & H3 & Hq).
  destruct (Hq (t_qleft (_calc_queue st k))) as [_ ?]; [unfold active in Ha; lia|]. lia.
Qed.

(** The task is dropped: it has no query. *)
Lemma calc_step_inactive l r st :
  work_inv n samples R l r st -> l <= r -> ~ active (_calc_queue st l) ->
  calc_step fuel (l, r) st = Done st (l + 1, r) /\
  work_inv n samples R (l + 1) r st /\
  pending_weight (_calc_queue st) (l + 1) r <= pending_weight (_calc_queue st) l r.
Proof.
  intros H Hlr Hna. pose proof (work_inv_r_bound H) as Hr.
  assert (Hcap : 0 <= l < MAX_QUEUE_LENGTH * 10) by (destruct (wi_bounds H); lia).
  unfold active in Hna. split; [|split].
  - unfold calc_step. msteps. erewrite bind_eq by (apply select_inactive; lia). reflexivity.
  - destruct H as [Hb Hpot Hperm Hwf Hcuts Hdis Hcov]. constructor.
    + lia.
    + rewrite pending_weight_first in Hpot by lia.
      pose proof (weight_nonneg (_calc_queue st l)). lia.
    + exact Hperm.
    + intros k Hk. apply Hwf. lia.
    + intros k Hk. apply Hcuts. lia.
    + intros k k' Hk Hk'. apply Hdis; lia.
    + intros q Hq. destruct (Hcov q Hq) as [(k & Hk & Hqk) | Ha]; [|right; exact Ha].
      left. exists k. split; [|exact Hqk].
      destruct (Z.eq_dec k l) as [-> | Hne]; [lia | lia].
  - rewrite (pending_weight_first _ l r) by lia.
    pose proof (weight_nonneg (_calc_queue st l)). lia.
Qed.

(** The range is a single slot: it answers all the queries of the task. *)
Lemma calc_step_single l r st :
  work_inv n samples R l r st -> l <= r -> active (_calc_queue st l) ->
  t_left (_calc_queue st l) = t_right (_calc_queue st l) ->
  exists ans',
    calc_step fuel (l, r) st = Done (with_ans st ans') (l + 1, r) /\
    work_inv n samples R (l + 1) r (with_ans st ans') /\
    pending_weight (_calc_queue st) (l + 1) r <= pending_weight (_calc_queue st) l r.
Proof.
  intros H Hlr Hact Heq. pose proof (work_inv_r_bound H) as Hr.
  assert (Hcap : 0 <= l < MAX_QUEUE_LENGTH * 10) by (destruct (wi_bounds H); lia).
  destruct (active_range l H ltac:(lia) Hact) as [Hrange Hrn].
  pose proof (wi_wf H l ltac:(lia)) as Hwfl.
  destruct (wi_cuts H l ltac:(lia) Hact) as [Hc1 Hc2].
  remember (_calc_queue st l) as t0 eqn:Et0. destruct t0 as [left right qleft qright].
  fields. subst right. unfold active in Hact. fields.
  destruct (select_single fuel 0 (MAX_QUEUE_LENGTH - 1) n R left qleft qright r st)
    as (ans' & Hs & Hin & Hout); try lia; try exact Hwfl.
  exists ans'. split; [|split].
  - unfold calc_step. msteps. rewrite <- Et0. fields. rewrite (bind_eq _ Hs). reflexivity.
  - assert (Hval : forall q, qleft <= q <= qright ->
                     ans' q = nth (Z.to_nat (R q - 1)) (sort samples) 0).
    { intros q Hq. rewrite Hin by lia.
      destruct Hwfl as (_ & _ & _ & _ & Hask). fields.
      destruct (Hask q Hq) as [_ HRq]. replace (R q - 1) with left by lia.
      apply (separator_rank n); [exact (wi_perm H) | lia | exact Hc1 | exact Hc2]. }
    destruct H as [Hb Hpot Hperm Hwf Hcuts Hdis Hcov]. constructor; fields.
    + lia.
    + rewrite pending_weight_first in Hpot by lia.
      pose proof (weight_nonneg (_calc_queue st l)). lia.
    + exact Hperm.
    + intros k Hk. apply Hwf. lia.
    + intros k Hk. apply Hcuts. lia.
    + intros k k' Hk Hk'. apply Hdis; lia.
    + intros q Hq.
      destruct (Z_le_gt_dec qleft q) as [H1 | H1];
        [destruct (Z_le_gt_dec q qright) as [H2 | H2]|].
      * right. apply Hval. lia.
      * destruct (Hcov q Hq) as [(k & Hk & Hqk) | Ha].
        -- left. exists k. split; [|exact Hqk].
           destruct (Z.eq_dec k l) as [-> | Hne]; [|lia].
           rewrite <- Et0 in Hqk. fields. lia.
        -- right. rewrite Hout by lia. exact Ha.
      * destruct (Hcov q Hq) as [(k & Hk & Hqk) | Ha].
        -- left. exists k. split; [|exact Hqk].
           destruct (Z.eq_dec k l) as [-> | Hne]; [|lia].
           rewrite <- Et0 in Hqk. fields. lia.
        -- right. rewrite Hout by lia. exact Ha.
  - rewrite (pending_weight_first _ l r) by lia.
    pose proof (weight_nonneg (_calc_queue st l)). lia.
Qed.

(** The range is partitioned and three tasks are pushed. *)
Lemma calc_step_split l r st :
  work_inv n samples R l r st -> l <= r -> active (_calc_queue st l) ->
  t_left (_calc_queue st l) <> t_right (_calc_queue st l) ->
  exists st',
    calc_step fuel (l, r) st = Done st' (l + 1, r + 3) /\
    work_inv n samples R (l + 1) (r + 3) st' /\
    _tail st' = _tail st /\ _queue st' = _queue st /\
    pending_weight (_calc_queue st') (l + 1) (r + 3) + 1 <=
    pending_weight (_calc_queue st) l r.
Proof.
  intros H Hlr Hact Hne. pose proof (work_inv_r_bound H) as Hr.
  assert (Hcap : 0 <= l < MAX_QUEUE_LENGTH * 10) by (destruct (wi_bounds H); lia).
  destruct (active_range l H ltac:(lia) Hact) as [Hrange Hrn].
  pose proof (wi_wf H l ltac:(lia)) as Hwfl.
  destruct (wi_cuts H l ltac:(lia) Hact) as [Hc1 Hc2].
  pose proof (wi_potential H) as Hpot.
  rewrite pending_weight_first in Hpot by lia.
  pose proof (pending_weight_nonneg (_calc_queue st) (l + 1) r) as Hpw.
  remember (_calc_queue st l) as t0 eqn:Et0. destruct t0 as [left right qleft qright].
  fields. unfold active in Hact. fields.
  assert (Hw0 : weight (mkTask left right qleft qright) = right - left).
  { unfold weight. fields. destruct (Z.leb_spec qleft qright); lia. }
  destruct (select_split fuel 0 (MAX_QUEUE_LENGTH - 1) n R left right qleft qright r st)
    as (t' & m' & a' & index & i & j & Hs & Hidx & Hi & Hj & Hout & Hperm & Hle & Hge &
        Hask & Hwf1 & Hwf2 & Hwf3); try lia; try assumption.
  set (T1 := mkTask left (index - 1) qleft (i - 1)) in *.
  set (T2 := mkTask index index i (j - 1)) in *.
  set (T3 := mkTask (index + 1) right j qright) in *.
  set (cq' := upd (upd (upd (_calc_queue st) (r + 1) T1) (r + 2) T2) (r + 3) T3) in *.
  set (st' := mkCounter (_tail st) (_queue st) t' m' a' (_ans st) cq') in *.
  assert (Hold : forall k, k <= r -> cq' k = _calc_queue st k).
  { intros k Hk. unfold cq'. rewrite !upd_other by lia. reflexivity. }
  assert (E1 : cq' (r + 1) = T1) by (unfold cq'; upd_cases; try lia; reflexivity).
  assert (E2 : cq' (r + 2) = T2) by (unfold cq'; upd_cases; try lia; reflexivity).
  assert (E3 : cq' (r + 3) = T3) by (unfold cq'; upd_cases; try lia; reflexivity).
  assert (Hw123 : weight T1 + weight T2 + weight T3 + 1 <= right - left).
  { unfold weight, T1, T2, T3. fields.
    destruct (qleft <=? i - 1), (i <=? j - 1), (j <=? qright); lia. }
  assert (Hpw' : pending_weight cq' (l + 1) (r + 3) =
                 pending_weight (_calc_queue st) (l + 1) r + weight T1 + weight T2 + weight T3).
  { unfold cq'. apply pending_weight_push3. lia. }
  (* the cuts of the task survive the partition, and the pivot adds two *)
  assert (Hc1' : cut n t' left)
    by (apply (cut_preserved n (_tmp st) t' left right); auto; lia).
  assert (Hc2' : cut n t' (right + 1))
    by (apply (cut_preserved n (_tmp st) t' left right); auto; lia).
  destruct (cut_pivot n t' left right index Hc1' Hc2') as [Hc3 Hc4]; try lia; auto.
  (* what was clear of the task is clear of the three new ones *)
  assert (Hclear : forall k u, l + 1 <= k <= r ->
            t_left (mkTask left right qleft qright) <= t_left u ->
            t_right u <= t_right (mkTask left right qleft qright) ->
            t_qleft (mkTask left right qleft qright) <= t_qleft u ->
            t_qright u <= t_qright (mkTask left right qleft qright) ->
            disjoint (_calc_queue st k) u).
  { intros k u Hk ? ? ? ?.
    apply (disjoint_sub (_calc_queue st k) (mkTask left right qleft qright) u); auto.
    rewrite Et0. apply (wi_disjoint H); lia. }
  assert (H12 : disjoint T1 T2) by (unfold disjoint, T1, T2; fields; lia).
  assert (H13 : disjoint T1 T3) by (unfold disjoint, T1, T3; fields; lia).
  assert (H23 : disjoint T2 T3) by (unfold disjoint, T2, T3; fields; lia).
  assert (Hk1 : forall k, l + 1 <= k <= r -> disjoint (_calc_queue st k) T1)
    by (intros; apply Hclear; unfold T1; fields; lia).
  assert (Hk2 : forall k, l + 1 <= k <= r -> disjoint (_calc_queue st k) T2)
    by (intros; apply Hclear; unfold T2; fields; lia).
  assert (Hk3 : forall k, l + 1 <= k <= r -> disjoint (_calc_queue st k) T3)
    by (intros; apply Hclear; unfold T3; fields; lia).
  exists st'. split; [|split; [|split; [reflexivity|split; [reflexivity|]]]].
  - unfold calc_step. msteps. rewrite <- Et0. fields. rewrite (bind_eq _ Hs). reflexivity.
  - constructor; unfold st'; fields.
    + destruct (wi_bounds H). lia.
    + rewrite Hpw'. lia.
    + rewrite <- (wi_perm H).
      apply (segr_perm_widen (_tmp st) t' left right 0 (n - 1)); auto; lia.
    + intros k Hk. destruct (Z_le_gt_dec k r) as [Hkr | Hkr].
      * rewrite Hold by lia.
        destruct (wi_wf H k ltac:(lia)) as (W0 & W1 & W2 & W3 & Wq).
        unfold task_wf. split_ands; auto.
        intros q Hq. rewrite Hask; [apply Wq; exact Hq|].
        assert (Hd : disjoint (_calc_queue st k) (_calc_queue st l))
          by (apply (wi_disjoint H); lia).
        rewrite <- Et0 in Hd. unfold disjoint, active in Hd. fields. lia.
      * assert (Hk' : k = r + 1 \/ k = r + 2 \/ k = r + 3) by lia.
        destruct Hk' as [-> | [-> | ->]]; [rewrite E1 | rewrite E2 | rewrite E3]; assumption.
    + intros k Hk. destruct (Z_le_gt_dec k r) as [Hkr | Hkr].
      * rewrite Hold by lia. intros Ha.
        destruct (wi_cuts H k ltac:(lia) Ha) as [C1 C2].
        destruct (active_range k H ltac:(lia) Ha) as [Rk Rn].
        assert (Hd : disjoint (_calc_queue st k) (_calc_queue st l))
          by (apply (wi_disjoint H); lia).
        rewrite <- Et0 in Hd. unfold disjoint, active in Hd, Ha. fields.
        split; apply (cut_preserved n (_tmp st) t' left right); auto; lia.
      * assert (Hk' : k = r + 1 \/ k = r + 2 \/ k = r + 3) by lia.
        destruct Hk' as [-> | [-> | ->]]; [rewrite E1 | rewrite E2 | rewrite E3];
          intros _; unfold T1, T2, T3; fields.
        -- replace (index - 1 + 1) with index by lia. auto.
        -- auto.
        -- auto.
    + intros k k' Hk Hk' Hkk.
      destruct (Z_le_gt_dec k r) as [Hkr | Hkr], (Z_le_gt_dec k' r) as [Hkr' | Hkr'].
      * rewrite !Hold by lia. apply (wi_disjoint H); lia.
      * rewrite (Hold k) by lia.
        assert (Hc : k' = r + 1 \/ k' = r + 2 \/ k' = r + 3) by lia.
        destruct Hc as [-> | [-> | ->]];
          [rewrite E1; apply Hk1 | rewrite E2; apply Hk2 | rewrite E3; apply Hk3]; lia.
      * rewrite (Hold k') by lia. apply disjoint_sym.
        assert (Hc : k = r + 1 \/ k = r + 2 \/ k = r + 3) by lia.
        destruct Hc as [-> | [-> | ->]];
          [rewrite E1; apply Hk1 | rewrite E2; apply Hk2 | rewrite E3; apply Hk3]; lia.
      * assert (Hc : k = r + 1 \/ k = r + 2 \/ k = r + 3) by lia.
        assert (Hc' : k' = r + 1 \/ k' = r + 2 \/ k' = r + 3) by lia.
        destruct Hc as [-> | [-> | ->]], Hc' as [-> | [-> | ->]];
          rewrite ?E1, ?E2, ?E3; auto using disjoint_sym; lia.
    + intros q Hq. destruct (wi_cover H q Hq) as [(k & Hk & Hqk) | Ha]; [|right; exact Ha].
      left. destruct (Z.eq_dec k l) as [-> | Hnl].
      * rewrite <- Et0 in Hqk. fields.
        destruct (Z_lt_dec q i); [exists (r + 1); rewrite E1|
          destruct (Z_lt_dec q j); [exists (r + 2); rewrite E2 | exists (r + 3); rewrite E3]];
          unfold T1, T2, T3; fields; lia.
      * exists k. rewrite Hold by lia. split; [lia | exact Hqk].
  - unfold st'. fields. rewrite Hpw'.
    rewrite (pending_weight_first _ l r) by lia. rewrite <- Et0. lia.
Qed.


(** *** The loop of [calc] *)

Lemma calc_step_spec l r st :
  work_inv n samples R l r st -> l <= r ->
  exists st' r',
    calc_step fuel (l, r) st = Done st' (l + 1, r') /\
    work_inv n samples R (l + 1) r' st' /\
    _tail st' = _tail st /\ _queue st' = _queue st /\
    r' + 3 * pending_weight (_calc_queue st') (l + 1) r' <=
    r + 3 * pending_weight (_calc_queue st) l r.
Proof.
  intros H Hlr.
  destruct (Z_le_gt_dec (t_qleft (_calc_queue st l)) (t_qright (_calc_queue st l)))
    as [Hact | Hna].
  - destruct (Z.eq_dec (t_left (_calc_queue st l)) (t_right (_calc_queue st l)))
      as [Heq | Hne].
    + destruct (calc_step_single l r st H Hlr Hact Heq)
        as (ans' & Hs & Hinv & Hpw).
      exists (with_ans st ans'), r. fields. split_ands; auto. lia.
    + destruct (calc_step_split l r st H Hlr Hact Hne)
        as (st' & Hs & Hinv & Ht & Hq & Hpw).
      exists st', (r + 3). split_ands; auto. lia.
  - destruct (calc_step_inactive l r st H Hlr) as (Hs & Hinv & Hpw).
    { unfold active. lia. }
    exists st, r. split_ands; auto. lia.
Qed.

Lemma calc_loop_spec r st :
  work_inv n samples R 1 r st ->
  exists st' r',
    calc_loop fuel (1, r) st = Done st' (r' + 1, r') /\
    r' <= 3 * n - 2 /\
    _tail st' = _tail st /\ _queue st' = _queue st /\
    forall q, 0 <= q <= 4 -> _ans st' q = nth (Z.to_nat (R q - 1)) (sort samples) 0.
Proof.
  intros H. unfold calc_loop.
  destruct (while_rule
    (fun (v : Z * Z) s => let '(l, r) := v in
       work_inv n samples R l r s /\ _tail s = _tail st /\ _queue s = _queue st)
    (fun (v : Z * Z) s =>
       (fst v = snd v + 1 /\ snd v <= 3 * n - 2) /\
       _tail s = _tail st /\ _queue s = _queue st /\
       forall q, 0 <= q <= 4 -> _ans s q = nth (Z.to_nat (R q - 1)) (sort samples) 0)
    (fun (v : Z * Z) s => let '(l, r) := v in
       Z.to_nat (r - l + 1 + 3 * pending_weight (_calc_queue s) l r))
    (fun v : Z * Z => let '(l, r) := v in ret (l <=? r))
    (calc_step fuel))
    with (fuel := fuel) (v := (1, r)) (s := st) as (v & s & Hw & Hpost).
  - intros [l r0] s (Hinv & Ht & Hq). unfold ret at 1.
    destruct (Z.leb_spec l r0) as [Hle | Hgt].
    + right. split; [reflexivity|].
      destruct (calc_step_spec l r0 s Hinv Hle) as (s' & r' & Hs & Hinv' & Ht' & Hq' & Hpw).
      exists (l + 1, r'), s'. split; [exact Hs|]. split.
      * split; [exact Hinv'|]. split; congruence.
      * pose proof (pending_weight_nonneg (_calc_queue s') (l + 1) r').
        pose proof (pending_weight_nonneg (_calc_queue s) l r0). lia.
    + left. split; [reflexivity|].
      split; [cbn [fst snd]; pose proof (wi_bounds Hinv);
              pose proof (work_inv_r_bound Hinv); lia|].
      split; [exact Ht|]. split; [exact Hq|].
      intros q Hq4. destruct (wi_cover Hinv q Hq4) as [(k & Hk & _) | Ha]; [lia | exact Ha].
  - auto.
  - pose proof (wi_potential H). pose proof (wi_bounds H).
    pose proof (pending_weight_nonneg (_calc_queue st) 1 r). lia.
  - destruct v as [l' r']. destruct Hpost as ((E & Hb) & Hrest). cbn [fst snd] in *.
    subst l'. exists s, r'. split; [exact Hw|]. split; [exact Hb | exact Hrest].
Qed.

End Worklist.

(** ** The ranks *)

Lemma spec_rank_ok n : 1 <= n -> ranks_ok n (spec_rank n).
Proof.
  intros Hn. split.
  - intros q Hq. unfold spec_rank, fraction.
    unfold COUNTER_PERCENTILE_50, COUNTER_PERCENTILE_90, COUNTER_PERCENTILE_95,
      COUNTER_PERCENTILE_99.
    repeat match goal with |- context [?a =? ?b] => destruct (Z.eqb_spec a b) end;
      Z.div_mod_to_equations; lia.
  - intros q q' Hq Hq'. unfold spec_rank, fraction.
    unfold COUNTER_PERCENTILE_50, COUNTER_PERCENTILE_90, COUNTER_PERCENTILE_95,
      COUNTER_PERCENTILE_99.
    repeat match goal with |- context [?a =? ?b] => destruct (Z.eqb_spec a b) end;
      try lia; Z.div_mod_to_equations; lia.
Qed.

(** A normal binary64 has a mantissa of 53 digits, that [Prim2SF] keeps. *)
Lemma digits2_pos_bounds p :
  2 ^ (Zpos (digits2_pos p) - 1) <= Zpos p < 2 ^ Zpos (digits2_pos p).
Proof.
  induction p as [p IH | p IH |]; cbn [digits2_pos].
  - rewrite Pos2Z.inj_succ, Z.pow_succ_r by lia.
    replace (Z.succ (Zpos (digits2_pos p)) - 1) with (Z.succ (Zpos (digits2_pos p) - 1)) by lia.
    rewrite Z.pow_succ_r by lia. lia.
  - rewrite Pos2Z.inj_succ, Z.pow_succ_r by lia.
    replace (Z.succ (Zpos (digits2_pos p)) - 1) with (Z.succ (Zpos (digits2_pos p) - 1)) by lia.
    rewrite Z.pow_succ_r by lia. lia.
  - cbn. lia.
Qed.

Lemma Zdigits2_normal m : 2 ^ 52 <= m < 2 ^ 53 -> Zdigits2 m = 53.
Proof.
  intros H. destruct m as [|p|p]; try lia. cbn [Zdigits2].
  pose proof (digits2_pos_bounds p) as B.
  destruct (Z.lt_trichotomy (Zpos (digits2_pos p)) 53) as [L | [E | G]].
  - assert (2 ^ Zpos (digits2_pos p) <= 2 ^ 52) by (apply Z.pow_le_mono_r; lia). lia.
  - exact E.
  - assert (2 ^ 53 <= 2 ^ (Zpos (digits2_pos p) - 1)) by (apply Z.pow_le_mono_r; lia). lia.
Qed.

Lemma shr_fexp_normal m e :
  2 ^ 52 <= m < 2 ^ 53 -> -1074 <= e ->
  shr_fexp prec emax m e loc_Exact = (Build_shr_record m false false, e).
Proof.
  intros Hm He. unfold shr_fexp. rewrite Zdigits2_normal by exact Hm.
  unfold fexp, SpecFloat.emin, prec, emax. cbn [shr_record_of_loc].
  replace (Z.max (53 + e - 53) (3 - 1024 - 53) - e) with 0 by lia.
  reflexivity.
Qed.

(** [trunc_normal] is the conversion [(int)f] where it answers. *)
Lemma trunc_normal_sound f k : trunc_normal f = Some k -> double_to_int f = Uint63.to_Z k.
Proof.
  unfold trunc_normal, double_to_int, Prim2SF, Z.frexp.
  destruct (PrimFloat.is_nan f); [discriminate|].
  destruct (PrimFloat.is_zero f); [discriminate|].
  destruct (PrimFloat.is_infinity f); [discriminate|].
  destruct (PrimFloat.get_sign f); [discriminate|]. cbn [orb].
  destruct (frshiftexp f) as [r se].
  destruct ((4503599627370496 <=? normfr_mantissa r)%uint63) eqn:E1; [|discriminate].
  destruct ((normfr_mantissa r <? 9007199254740992)%uint63) eqn:E2; [|discriminate].
  destruct ((1080 <=? se)%uint63) eqn:E3; [|discriminate].
  destruct ((se <=? 2154)%uint63) eqn:E4; [|discriminate].
  cbn [andb]. intros H. injection H as <-.
  apply Uint63.leb_spec in E1, E3, E4. apply Uint63.ltb_spec in E2.
  change (Uint63.to_Z 4503599627370496%uint63) with (2 ^ 52) in E1.
  change (Uint63.to_Z 9007199254740992%uint63) with (2 ^ 53) in E2.
  change (Uint63.to_Z 1080%uint63) with 1080 in E3.
  change (Uint63.to_Z 2154%uint63) with 2154 in E4.
  rewrite shr_fexp_normal by (unfold shift, prec; lia). cbn [shr_m].
  destruct (Uint63.to_Z (normfr_mantissa r)%uint63) as [|p|p] eqn:Em; try lia.
  rewrite Uint63.lsr_spec, Uint63.sub_spec, Em.
  change (Uint63.to_Z 2154%uint63) with 2154.
  rewrite Z.mod_small by (change wB with (2 ^ 63); lia).
  unfold shift, prec.
  destruct (Z.leb_spec 0 (Uint63.to_Z se - 2101 - 53)) as [L | L].
  - replace (Uint63.to_Z se - 2101 - 53) with 0 by lia.
    replace (2154 - Uint63.to_Z se) with 0 by lia. cbn [Z.shiftl]. rewrite Z.pow_0_r, Z.div_1_r.
    reflexivity.
  - rewrite Z.shiftr_div_pow2 by lia. f_equal. f_equal. lia.
Qed.

Lemma rank_check_sound i n p num den :
  Uint63.to_Z i = n -> 1 <= n <= 50000 ->
  0 <= Uint63.to_Z num <= 1000 -> 0 < Uint63.to_Z den ->
  rank_check i p num den = true ->
  ask_rank n p = n * Uint63.to_Z num / Uint63.to_Z den + 1.
Proof.
  intros Hi Hn Hnum Hden H. unfold rank_check in H.
  destruct (trunc_normal (PrimFloat.mul (of_uint63 i) p)) as [k|] eqn:E; [|discriminate].
  apply Uint63.eqb_spec in H. subst k.
  apply trunc_normal_sound in E.
  unfold ask_rank, int_to_double.
  destruct (Z.leb_spec 0 n); [|lia].
  replace (Uint63.of_Z n) with i by (rewrite <- Hi; symmetry; apply Uint63.of_to_Z).
  rewrite E, Uint63.div_spec, Uint63.mul_spec, Hi.
  rewrite (Z.mod_small (n * _)) by (change wB with (2 ^ 63); nia).
  apply wrap_u64_small.
  assert (0 <= n * Uint63.to_Z num / Uint63.to_Z den <= n * Uint63.to_Z num).
  { split; [apply Z.div_pos; nia|]. apply Z.div_le_upper_bound; nia. }
  nia.
Qed.

Lemma ranks_agree_sound k : forall i n q,
  ranks_agree k i = true -> 1 <= Uint63.to_Z i ->
  Uint63.to_Z i <= n < Uint63.to_Z i + Z.of_nat k -> n <= 50000 -> 0 <= q <= 4 ->
  code_rank n q = spec_rank n q.
Proof.
  induction k as [|k IH]; intros i n q H Hi Hn Hmax Hq; [lia|].
  cbn [ranks_agree] in H. repeat rewrite andb_true_iff in H.
  destruct H as [[[[[H0 H1] H2] H3] H4] Hrest].
  destruct (Z.eq_dec n (Uint63.to_Z i)) as [E | Hne].
  - symmetry in E.
    assert (Hc : q = 0 \/ q = 1 \/ q = 2 \/ q = 3 \/ q = 4) by lia.
    assert (Hr : forall p num den, 0 <= Uint63.to_Z num <= 1000 -> 0 < Uint63.to_Z den ->
      rank_check i p num den = true ->
      ask_rank n p = n * Uint63.to_Z num / Uint63.to_Z den + 1).
    { intros p num den. apply rank_check_sound; [exact E | lia]. }
    assert (B1 : 0 <= 1 <= 1000 /\ 0 <= 9 <= 1000 /\ 0 <= 95 <= 1000 /\ 0 <= 99 <= 1000 /\
                 0 <= 999 <= 1000) by lia.
    destruct B1 as [B1 [B9 [B95 [B99 B999]]]].
    destruct Hc as [-> | [-> | [-> | [-> | ->]]]].
    + exact (Hr 0.5%float 1%uint63 2%uint63 B1 eq_refl H0).
    + exact (Hr 0.90%float 9%uint63 10%uint63 B9 eq_refl H1).
    + exact (Hr 0.95%float 95%uint63 100%uint63 B95 eq_refl H2).
    + exact (Hr 0.99%float 99%uint63 100%uint63 B99 eq_refl H3).
    + exact (Hr 0.999%float 999%uint63 1000%uint63 B999 eq_refl H4).
  - assert (E : Uint63.to_Z (i + 1)%uint63 = Uint63.to_Z i + 1).
    { rewrite Uint63.add_spec. change (Uint63.to_Z 1%uint63) with 1.
      apply Z.mod_small. change wB with (2 ^ 63). lia. }
    apply (IH (i + 1)%uint63); [exact Hrest | lia | lia | exact Hmax | exact Hq].
Qed.

(** For every size of snapshot the floating-point products of [calc] give the
    ranks of the spec (checked for the 50000 sizes). *)
Lemma code_rank_spec n q :
  1 <= n <= MAX_QUEUE_LENGTH -> 0 <= q <= 4 -> code_rank n q = spec_rank n q.
Proof.
  intros Hn Hq. unfold MAX_QUEUE_LENGTH in Hn.
  apply (ranks_agree_sound (Z.to_nat 50000) 1%uint63);
    [| change (Uint63.to_Z 1%uint63) with 1; lia
     | change (Uint63.to_Z 1%uint63) with 1; lia | lia | exact Hq].
  vm_compute. reflexivity.
Qed.

(** ** [calc] *)

Lemma calc_prologue_spec fuel n st :
  1 <= n <= MAX_QUEUE_LENGTH -> (Z.to_nat n + 2 < fuel)%nat ->
  exists t' a',
    calc_prologue fuel n st =
      Done (mkCounter (_tail st) (_queue st) t' (_mid_temp st) a' (_ans st)
              (upd (_calc_queue st) 1 (mkTask 0 (n - 1) 0 4))) 1 /\
    (forall p, 0 <= p < n -> t' p = _queue st p) /\
    (forall q, 0 <= q <= 4 -> a' q = code_rank n q).
Proof.
  intros Hn Hfuel. unfold calc_prologue.
  destruct (while_rule
    (fun i s => exists t', s = with_tmp st t' /\ 0 <= i <= n /\
                           forall p, 0 <= p < i -> t' p = _queue st p)
    (fun i s => exists t', s = with_tmp st t' /\
                           forall p, 0 <= p < n -> t' p = _queue st p)
    (fun i _ => Z.to_nat (n - i))
    (fun i => ret (i <? n))
    (fun i => x <- load_queue i ;; store_tmp 0 (MAX_QUEUE_LENGTH - 1) i x ;; ret (i + 1)))
    with (fuel := fuel) (v := 0) (s := st) as (i & s & Hw & t' & -> & Ht).
  - intros i s (t' & -> & Hi & Ht). unfold ret at 1.
    destruct (Z.ltb_spec i n) as [Hlt | Hge].
    + right. split; [reflexivity|]. msteps.
      eexists _, _. split; [reflexivity|]. split; [|lia].
      eexists. split; [reflexivity|]. split; [lia|].
      intros p Hp. upd_cases; [subst; reflexivity | apply Ht; lia].
    + left. split; [reflexivity|]. exists t'. split; [reflexivity|].
      intros p Hp. apply Ht. lia.
  - exists (_tmp st). split; [destruct st; reflexivity|]. split; [lia|]. intros; lia.
  - lia.
  - rewrite (bind_eq _ Hw).
    replace (wrap_int (n - 1)) with (n - 1)
      by (unfold wrap_int, MAX_QUEUE_LENGTH in *; rewrite Z.mod_small; lia).
    unfold COUNTER_PERCENTILE_50, COUNTER_PERCENTILE_90, COUNTER_PERCENTILE_95,
      COUNTER_PERCENTILE_99, COUNTER_PERCENTILE_999, COUNTER_PERCENTILE_COUNT.
    msteps. unfold insert_calc_queue. cbv zeta.
    change (0 + 1) with 1. change (5 - 1) with 4.
    rewrite bind_store_calc_queue by (unfold MAX_QUEUE_LENGTH; lia).
    unfold ret. fields. eexists _, _. split; [reflexivity|]. split; [exact Ht|].
    intros q Hq. unfold code_rank, COUNTER_PERCENTILE_50, COUNTER_PERCENTILE_90,
      COUNTER_PERCENTILE_95, COUNTER_PERCENTILE_99.
    assert (Hc : q = 0 \/ q = 1 \/ q = 2 \/ q = 3 \/ q = 4) by lia.
    destruct Hc as [-> | [-> | [-> | [-> | ->]]]]; reflexivity.
Qed.

(** The state that [calc_prologue] leaves satisfies the invariant of the
    worklist. *)
Lemma work_inv_init n samples st t' a' :
  1 <= n <= MAX_QUEUE_LENGTH ->
  Permutation (segr (_queue st) 0 (n - 1)) samples ->
  (forall p, 0 <= p < n -> t' p = _queue st p) ->
  (forall q, 0 <= q <= 4 -> a' q = code_rank n q) ->
  work_inv n samples (spec_rank n) 1 1
    (mkCounter (_tail st) (_queue st) t' (_mid_temp st) a' (_ans st)
       (upd (_calc_queue st) 1 (mkTask 0 (n - 1) 0 4))).
Proof.
  intros Hn Hperm Ht Ha. destruct (spec_rank_ok n ltac:(lia)) as [Hrange Hmono].
  constructor; fields.
  - lia.
  - unfold pending_weight. replace (Z.to_nat (1 - 1 + 1)) with 1%nat by lia.
    cbn [sum_weight]. rewrite upd_same. unfold weight. fields.
    change (0 <=? 4) with true. cbv iota. lia.
  - rewrite (segr_ext t' (_queue st)) by (intros; apply Ht; lia). exact Hperm.
  - intros k Hk. replace k with 1 by lia. rewrite upd_same. unfold task_wf. fields.
    split_ands; try lia. intros q Hq. rewrite Ha, code_rank_spec by lia.
    specialize (Hrange q ltac:(lia)). lia.
  - intros k Hk. replace k with 1 by lia. rewrite upd_same. intros _. fields.
    split; intros i j Hi Hj; lia.
  - intros k k' Hk Hk' Hne. lia.
  - intros q Hq. left. exists 1. rewrite upd_same. fields. lia.
Qed.

(** The main statement about [calc]: on a counter that holds samples, with
    enough fuel, [calc] returns, leaves [_tail] and [_queue] alone, and stores
    for each tag the element of the tag's rank among the first
    [min (_tail, MAX_QUEUE_LENGTH)] slots of [_queue]. *)
Lemma calc_spec fuel st n samples :
  0 < _tail st -> n = Z.min (_tail st) MAX_QUEUE_LENGTH ->
  Permutation (segr (_queue st) 0 (n - 1)) samples ->
  (Z.to_nat (3 * n) + 10 < fuel)%nat ->
  exists st1 st' r',
    calc_prologue fuel n st = Done st1 1 /\
    calc_loop fuel (1, 1) st1 = Done st' (r' + 1, r') /\ r' <= 3 * n - 2 /\
    calc fuel st = Done st' tt /\
    _tail st' = _tail st /\ _queue st' = _queue st /\
    forall q, 0 <= q <= 4 -> _ans st' q = percentile samples q.
Proof.
  intros Htail En Hperm Hfuel.
  assert (Hn : 1 <= n <= MAX_QUEUE_LENGTH) by (unfold MAX_QUEUE_LENGTH in *; lia).
  assert (Hlen : Z.of_nat (length samples) = n).
  { rewrite <- (Permutation_length Hperm). unfold segr. rewrite seg_length. lia. }
  destruct (calc_prologue_spec fuel n st Hn ltac:(lia)) as (t' & a' & Hp & Ht & Ha).
  pose proof (work_inv_init n samples st t' a' Hn Hperm Ht Ha) as Hinv.
  destruct (calc_loop_spec fuel n samples (spec_rank n) (spec_rank_ok n ltac:(lia))
              Hn Hfuel 1 _ Hinv) as (st' & r' & Hl & Hr' & Htl & Hq & Hans).
  eexists _, st', r'. split; [exact Hp|]. split; [exact Hl|]. split; [exact Hr'|].
  split; [|split; [exact Htl|split; [exact Hq|]]].
  - unfold calc. destruct (Z.eqb_spec (_tail st) 0); [lia|].
    replace (if _tail st >? MAX_QUEUE_LENGTH then MAX_QUEUE_LENGTH else _tail st) with n
      by (rewrite Z.gtb_ltb; destruct (Z.ltb_spec MAX_QUEUE_LENGTH (_tail st)); lia).
    rewrite (bind_eq _ Hp). rewrite (bind_eq _ Hl). reflexivity.
  - intros q Hq4. unfold percentile. rewrite Hlen. apply Hans. exact Hq4.
Qed.

(** ** [set] and the ring buffer *)

Lemma wrap_int_small z : INT_MIN <= z <= INT_MAX -> wrap_int z = z.
Proof.
  unfold wrap_int, INT_MIN, INT_MAX. intros H.
  rewrite Z.mod_small by lia. lia.
Qed.

Lemma set_spec v st :
  0 <= _tail st < INT_MAX ->
  set v st =
    Done (with_queue (with_tail st (_tail st + 1))
            (upd (_queue st) (_tail st mod MAX_QUEUE_LENGTH) v)) tt.
Proof.
  intros H. unfold set, store_queue. fields.
  rewrite Z.rem_mod_nonneg by (unfold MAX_QUEUE_LENGTH; lia).
  pose proof (Z.mod_pos_bound (_tail st) MAX_QUEUE_LENGTH ltac:(unfold MAX_QUEUE_LENGTH; lia)).
  rewrite within_true by lia.
  rewrite wrap_int_small by (unfold INT_MIN, INT_MAX in *; lia). reflexivity.
Qed.

(** Past [INT_MAX] the cursor is negative, and so is [idx % MAX_QUEUE_LENGTH]:
    the store falls before the array. *)
Lemma set_negative_tail v st :
  _tail st < 0 -> Z.rem (_tail st) MAX_QUEUE_LENGTH <> 0 -> set v st = Undefined.
Proof.
  intros H Hne. unfold set, store_queue. fields.
  pose proof (Z.rem_nonpos (_tail st) MAX_QUEUE_LENGTH
                ltac:(unfold MAX_QUEUE_LENGTH; lia) ltac:(lia)).
  rewrite within_false by lia. reflexivity.
Qed.

Lemma mod_shift_neq a d m : 0 < d < m -> (a + d) mod m <> a mod m.
Proof.
  intros Hd E.
  assert (Hm : (a + d - a) mod m = 0).
  { rewrite Zminus_mod, E, Z.sub_diag. apply Z.mod_0_l. lia. }
  replace (a + d - a) with d in Hm by lia.
  rewrite Z.mod_small in Hm by lia. lia.
Qed.

(** Recording [samples] from a cursor [t0]: the cursor moves by the number of
    samples, write number [j] lands in slot [j mod MAX_QUEUE_LENGTH], and the
    last [MAX_QUEUE_LENGTH] writes are the ones that remain. *)
Lemma record_all_spec samples : forall st,
  0 <= _tail st -> _tail st + Z.of_nat (length samples) <= INT_MAX ->
  exists q',
    record_all samples st =
      Done (with_queue (with_tail st (_tail st + Z.of_nat (length samples))) q') tt /\
    (forall j, _tail st <= j < _tail st + Z.of_nat (length samples) ->
               _tail st + Z.of_nat (length samples) - MAX_QUEUE_LENGTH <= j ->
               q' (j mod MAX_QUEUE_LENGTH) = nth (Z.to_nat (j - _tail st)) samples 0) /\
    (forall p, (forall j, _tail st <= j < _tail st + Z.of_nat (length samples) ->
                          j mod MAX_QUEUE_LENGTH <> p) ->
               q' p = _queue st p).
Proof.
  induction samples as [|v rest IH]; intros st Ht Hlen.
  - exists (_queue st). cbn [record_all length]. split; [|split].
    + unfold ret. change (Z.of_nat 0) with 0. rewrite Z.add_0_r.
      destruct st; reflexivity.
    + intros j Hj. cbn in Hj. lia.
    + reflexivity.
  - cbn [length] in *. cbn [record_all].
    rewrite (bind_eq _ (set_spec v st ltac:(lia))).
    destruct (IH (with_queue (with_tail st (_tail st + 1))
                    (upd (_queue st) (_tail st mod MAX_QUEUE_LENGTH) v)))
      as (q' & Hr & Hin & Hout); fields; try lia.
    exists q'. split; [|split].
    + rewrite Hr.
      replace (_tail st + 1 + Z.of_nat (length rest))
        with (_tail st + Z.of_nat (S (length rest))) by lia.
      reflexivity.
    + intros j Hj Hlast. destruct (Z.eq_dec j (_tail st)) as [-> | Hne].
      * rewrite Hout.
        -- rewrite upd_same. replace (_tail st - _tail st) with 0 by lia. reflexivity.
        -- intros j' Hj'. replace j' with (_tail st + (j' - _tail st)) by lia.
           apply mod_shift_neq. lia.
      * rewrite Hin by lia.
        replace (Z.to_nat (j - _tail st)) with (S (Z.to_nat (j - (_tail st + 1)))) by lia.
        reflexivity.
    + intros p Hp. rewrite Hout.
      * apply upd_other. intros E. apply (Hp (_tail st)); [lia | auto].
      * intros j Hj. apply Hp. lia.
Qed.

Lemma nth_skipn_add (l : list Z) : forall k i, nth i (skipn k l) 0 = nth (k + i) l 0.
Proof.
  induction l as [|a l IH]; intros k i.
  - rewrite skipn_nil. destruct i, k; reflexivity.
  - destruct k; [reflexivity|]. cbn [skipn Nat.add nth]. apply IH.
Qed.

(** Without wrap-around the buffer holds the samples in order. *)
Lemma record_all_fresh samples mem :
  Z.of_nat (length samples) <= MAX_QUEUE_LENGTH ->
  exists q',
    record_all samples (perf_counter_number_percentile mem) =
      Done (with_queue (with_tail mem (Z.of_nat (length samples))) q') tt /\
    segr q' 0 (Z.of_nat (length samples) - 1) = samples.
Proof.
  intros Hlen.
  pose proof (record_all_spec samples (perf_counter_number_percentile mem)) as H.
  unfold perf_counter_number_percentile in *. fields.
  destruct H as (q' & Hr & Hin & _); try (unfold INT_MAX, MAX_QUEUE_LENGTH in *; lia).
  rewrite Z.add_0_l in *.
  exists q'. split; [exact Hr|].
  apply (nth_ext _ _ 0 0).
  - unfold segr. rewrite seg_length. lia.
  - intros k Hk. unfold segr in *. rewrite seg_length in Hk. rewrite seg_nth by lia.
    specialize (Hin (Z.of_nat k) ltac:(lia) ltac:(lia)).
    rewrite Z.mod_small in Hin by lia.
    rewrite Z.add_0_l, Hin. f_equal. lia.
Qed.

(** With wrap-around the buffer holds the last [MAX_QUEUE_LENGTH] samples,
    rotated. *)
Lemma record_all_wrapped samples mem k :
  0 <= k -> Z.of_nat (length samples) = MAX_QUEUE_LENGTH + k ->
  MAX_QUEUE_LENGTH + k <= INT_MAX ->
  exists q',
    record_all samples (perf_counter_number_percentile mem) =
      Done (with_queue (with_tail mem (MAX_QUEUE_LENGTH + k)) q') tt /\
    Permutation (segr q' 0 (MAX_QUEUE_LENGTH - 1)) (skipn (Z.to_nat k) samples).
Proof.
  intros Hk Hlen Hmax.
  assert (HM : 0 < MAX_QUEUE_LENGTH) by (unfold MAX_QUEUE_LENGTH; lia).
  pose proof (record_all_spec samples (perf_counter_number_percentile mem)) as H.
  unfold perf_counter_number_percentile in *. fields.
  destruct H as (q' & Hr & Hin & _); try lia.
  rewrite Hlen in *. rewrite Z.add_0_l in *.
  exists q'. split; [exact Hr|].
  set (rho := k mod MAX_QUEUE_LENGTH).
  assert (Hrho : 0 <= rho < MAX_QUEUE_LENGTH) by (apply Z.mod_pos_bound; lia).
  assert (Hat : forall i, 0 <= i < MAX_QUEUE_LENGTH ->
            nth (Z.to_nat i) (skipn (Z.to_nat k) samples) 0 =
            q' ((k + i) mod MAX_QUEUE_LENGTH)).
  { intros i Hi. rewrite Hin by lia. rewrite nth_skipn_add. f_equal. lia. }
  rewrite (segr_split q' 0 rho (MAX_QUEUE_LENGTH - 1)) by lia.
  rewrite Permutation_app_comm.
  replace (skipn (Z.to_nat k) samples)
    with (segr q' rho (MAX_QUEUE_LENGTH - 1) ++ segr q' 0 (rho - 1)); [reflexivity|].
  apply (nth_ext _ _ 0 0).
  - rewrite length_app, length_skipn. unfold segr. rewrite !seg_length. lia.
  - intros x Hx. rewrite length_app in Hx. unfold segr in Hx. rewrite !seg_length in Hx.
    rewrite <- (Nat2Z.id x), Hat by lia.
    assert (Ek : k = MAX_QUEUE_LENGTH * (k / MAX_QUEUE_LENGTH) + rho)
      by (apply Z.div_mod; lia).
    destruct (Z_lt_dec (Z.of_nat x) (MAX_QUEUE_LENGTH - rho)) as [Hlt | Hge].
    + rewrite app_nth1 by (unfold segr; rewrite seg_length; lia).
      rewrite Nat2Z.id. unfold segr. rewrite seg_nth by lia.
      f_equal. apply (Z.mod_unique _ _ (k / MAX_QUEUE_LENGTH)); lia.
    + rewrite app_nth2 by (unfold segr; rewrite seg_length; lia).
      unfold segr. rewrite !seg_length. rewrite seg_nth by lia.
      f_equal. apply (Z.mod_unique _ _ (k / MAX_QUEUE_LENGTH + 1)); lia.
Qed.

(** ** [get_percentile] *)

Lemma get_percentile_empty tag st :
  _tail st = 0 -> get_percentile tag st = Done st (-1).
Proof. intros H. unfold get_percentile. rewrite H. reflexivity. Qed.

Lemma get_percentile_valid tag st :
  _tail st <> 0 -> 0 <= tag < COUNTER_PERCENTILE_COUNT ->
  get_percentile tag st = Done st (u64_to_double (_ans st tag)).
Proof.
  intros H Ht. unfold get_percentile.
  destruct (Z.eqb_spec (_tail st) 0); [contradiction|].
  rewrite Z.geb_leb.
  destruct (Z.ltb_spec tag 0); [lia|].
  destruct (Z.leb_spec COUNTER_PERCENTILE_COUNT tag); [lia|]. reflexivity.
Qed.

Lemma get_percentile_invalid tag st :
  _tail st <> 0 -> tag < 0 \/ COUNTER_PERCENTILE_COUNT <= tag ->
  get_percentile tag st = Aborted st "send a wrong counter percentile type".
Proof.
  intros H Ht. unfold get_percentile.
  destruct (Z.eqb_spec (_tail st) 0); [contradiction|].
  rewrite Z.geb_leb.
  destruct (Z.ltb_spec tag 0); [reflexivity|].
  destruct (Z.leb_spec COUNTER_PERCENTILE_COUNT tag); [reflexivity | lia].
Qed.

Lemma u64_to_double_small v : v < 2 ^ 53 -> u64_to_double v = v.
Proof.
  intros H. unfold u64_to_double. destruct (Z.ltb_spec v (2 ^ 53)); [reflexivity | lia].
Qed.

Lemma u64_to_double_nonneg v : 0 <= v -> 0 <= u64_to_double v.
Proof.
  intros H. unfold u64_to_double. destruct (Z.ltb_spec v (2 ^ 53)); [exact H|].
  cbv zeta.
  assert (0 <= Z.shiftr v (Z.log2 v - 52)) by (apply Z.shiftr_nonneg; exact H).
  destruct (_ || _); apply Z.shiftl_nonneg; lia.
Qed.

(** ** A run on a window of [_tmp] and the run on the whole array *)

Lemma refines_refl {S A} (m : M S A) : refines m m.
Proof. intros s s' a H. exact H. Qed.

Lemma refines_bind {S A B} (m1 m2 : M S A) (k1 k2 : A -> M S B) :
  refines m1 m2 -> (forall a, refines (k1 a) (k2 a)) ->
  refines (bind m1 k1) (bind m2 k2).
Proof.
  intros Hm Hk s s' b H. unfold bind in *.
  destruct (m1 s) as [s1 a| | |] eqn:E; try discriminate.
  rewrite (Hm _ _ _ E). now apply Hk.
Qed.

Lemma refines_while {S V} fuel (c1 c2 : V -> M S bool) (b1 b2 : V -> M S V) :
  (forall v, refines (c1 v) (c2 v)) -> (forall v, refines (b1 v) (b2 v)) ->
  forall v, refines (while_ fuel c1 b1 v) (while_ fuel c2 b2 v).
Proof.
  intros Hc Hb. induction fuel as [|f IH]; intros v.
  - intros s s' a H. discriminate.
  - cbn [while_]. apply refines_bind; [apply Hc|].
    intros [|]; [|apply refines_refl].
    apply refines_bind; [apply Hb | exact IH].
Qed.

Section Window.

Variables (fuel : nat) (lo hi lo' hi' : Z).
Hypothesis Hlo : lo' <= lo.
Hypothesis Hhi : hi <= hi'.

Lemma refines_load_tmp i : refines (load_tmp lo hi i) (load_tmp lo' hi' i).
Proof.
  intros s s' a. unfold load_tmp, within.
  destruct (Z.leb_spec lo i), (Z.leb_spec i hi); cbn; try discriminate.
  intros E. destruct (Z.leb_spec lo' i), (Z.leb_spec i hi'); cbn; try lia. exact E.
Qed.

Lemma refines_store_tmp i v : refines (store_tmp lo hi i v) (store_tmp lo' hi' i v).
Proof.
  intros s s' a. unfold store_tmp, within.
  destruct (Z.leb_spec lo i), (Z.leb_spec i hi); cbn; try discriminate.
  intros E. destruct (Z.leb_spec lo' i), (Z.leb_spec i hi'); cbn; try lia. exact E.
Qed.

Ltac refine_step :=
  match goal with
  | |- refines (bind _ _) (bind _ _) => apply refines_bind; [|intros ?]
  | |- refines (while_ _ _ _ _) (while_ _ _ _ _) => apply refines_while; intros ?
  | |- refines (load_tmp _ _ _) (load_tmp _ _ _) => apply refines_load_tmp
  | |- refines (store_tmp _ _ _ _) (store_tmp _ _ _ _) => apply refines_store_tmp
  | |- refines ?m ?m => apply refines_refl
  | |- refines (if ?c then _ else _) (if ?c then _ else _) => destruct c
  | |- refines (match ?x with (_, _) => _ end) _ => destruct x
  | |- refines (let '(_, _) := ?x in _) _ => destruct x
  end.

Lemma refines_partition_tmp left right :
  refines (partition_tmp fuel lo hi left right) (partition_tmp fuel lo' hi' left right).
Proof.
  unfold partition_tmp, copy_loop, find_pivot, partition_loop, partition_body,
    scan_down, scan_up.
  repeat refine_step.
Qed.

Lemma refines_select left right qleft qright ct :
  refines (select fuel lo hi left right qleft qright ct)
          (select fuel lo' hi' left right qleft qright ct).
Proof.
  unfold select, answer_loop.
  repeat refine_step. apply refines_partition_tmp.
Qed.

End Window.


(** ** What [select] pushes, whatever [_ask] holds *)

Lemma select_pushes fuel lo hi left right qleft qright ct st :
  lo <= left -> right <= hi -> 0 <= left < right -> right < MAX_QUEUE_LENGTH ->
  0 <= qleft <= qright -> qright <= 4 ->
  0 <= ct -> ct + 3 < MAX_QUEUE_LENGTH * 10 ->
  (Z.to_nat (right - left) + 10 < fuel)%nat ->
  exists st' index i j,
    select fuel lo hi left right qleft qright ct st = Done st' (ct + 3) /\
    left <= index <= right /\
    _calc_queue st' (ct + 1) = mkTask left (index - 1) qleft (i - 1) /\
    _calc_queue st' (ct + 2) = mkTask index index i (j - 1) /\
    _calc_queue st' (ct + 3) = mkTask (index + 1) right j qright.
Proof.
  intros Hlo Hhi Hl Hmax Hq Hq4 Hct Hcap Hfuel.
  assert (Hbig : MAX_QUEUE_LENGTH < 2 ^ 64) by (unfold MAX_QUEUE_LENGTH; lia).
  unfold select. rewrite Z.gtb_ltb.
  destruct (Z.ltb_spec qright qleft); [lia|].
  destruct (Z.eqb_spec left right); [lia|].
  destruct (partition_tmp_spec fuel lo hi left right st)
    as (t' & m' & index & Hp & Hidx & _); try lia.
  rewrite (bind_eq _ Hp). cbv zeta.
  set (s1 := with_mid_temp (with_tmp st t') m').
  destruct (ask_skip_spec fuel (index - left + 1) qleft qright s1) as (i & Hs & Hi & _);
    try lia.
  rewrite (bind_eq _ Hs).
  destruct (ask_sub_spec fuel (index - left + 1) i qright s1) as (a1 & j0 & Hsub & _);
    try lia.
  rewrite (bind_eq _ Hsub).
  destruct (ask_bump_spec fuel i qright (with_ask s1 a1)) as (a2 & j & Hb & Hj & _); try lia.
  rewrite (bind_eq _ Hb). unfold s1. fields.
  rewrite bind_insert_calc_queue by lia. rewrite bind_insert_calc_queue by lia. fields.
  unfold insert_calc_queue. cbv zeta. msteps.
  replace (ct + 1 + 1) with (ct + 2) by lia. replace (ct + 2 + 1) with (ct + 3) by lia.
  eexists _, index, i, j. split; [reflexivity|]. split; [lia|]. fields.
  split; [|split]; upd_cases; try lia; reflexivity.
Qed.

(** ** [calc], round by round *)

Lemma bind_cong {S A B} (m : M S A) (k1 k2 : A -> M S B) s :
  (forall a s', k1 a s' = k2 a s') -> bind m k1 s = bind m k2 s.
Proof. intros H. unfold bind. destruct (m s); auto. Qed.

Lemma calc_rounds_then_loop fuel k : forall f v st,
  while_ (k + S f) (fun v : Z * Z => let '(l, r) := v in ret (l <=? r)) (calc_step fuel) v st =
  bind (calc_rounds fuel k v)
       (while_ (S f) (fun v : Z * Z => let '(l, r) := v in ret (l <=? r)) (calc_step fuel)) st.
Proof.
  induction k as [|k IH]; intros f [l r] st.
  - reflexivity.
  - cbn [Nat.add calc_rounds while_]. rewrite bind_ret.
    destruct (l <=? r) eqn:E.
    + rewrite bind_assoc. apply bind_cong. intros a s'. apply IH.
    + rewrite bind_ret. cbn [while_]. rewrite bind_ret, E. reflexivity.
Qed.

Lemma bind_same {S A B} (m1 m2 : M S A) (k : A -> M S B) s :
  m1 s = m2 s -> bind m1 k s = bind m2 k s.
Proof. intros H. unfold bind. rewrite H. reflexivity. Qed.

(** [calc] goes through the state that [calc_begin] returns. *)
Lemma calc_resumes k f st :
  _tail st <> 0 ->
  calc (k + S f) st =
  (v <- calc_begin (k + S f) k ;;
   while_ (S f) (fun v : Z * Z => let '(l, r) := v in ret (l <=? r)) (calc_step (k + S f)) v ;;
   ret tt) st.
Proof.
  intros H. unfold calc.
  destruct (Z.eqb_spec (_tail st) 0); [contradiction|]. cbv zeta.
  set (m := if _tail st >? MAX_QUEUE_LENGTH then MAX_QUEUE_LENGTH else _tail st).
  rewrite (bind_same (calc_begin (k + S f) k)
             (r <- calc_prologue (k + S f) m ;; calc_rounds (k + S f) k (1, r)))
    by reflexivity.
  rewrite bind_assoc. apply bind_cong. intros r s'.
  unfold calc_loop. rewrite (bind_same _ _ _ _ (calc_rounds_then_loop _ k f (1, r) s')).
  rewrite bind_assoc. reflexivity.
Qed.

Lemma record_all_app l1 : forall l2 st,
  record_all (l1 ++ l2) st = (record_all l1 ;; record_all l2) st.
Proof.
  induction l1 as [|v l1 IH]; intros l2 st.
  - reflexivity.
  - cbn [app record_all]. rewrite bind_assoc. apply bind_cong. intros a s'. apply IH.
Qed.

Lemma set_at_int_max v st :
  _tail st = INT_MAX ->
  set v st =
    Done (with_queue (with_tail st INT_MIN)
            (upd (_queue st) (INT_MAX mod MAX_QUEUE_LENGTH) v)) tt.
Proof.
  intros H. unfold set, store_queue. fields. rewrite H.
  rewrite Z.rem_mod_nonneg by (unfold INT_MAX, MAX_QUEUE_LENGTH; lia).
  pose proof (Z.mod_pos_bound INT_MAX MAX_QUEUE_LENGTH ltac:(unfold MAX_QUEUE_LENGTH; lia)).
  rewrite within_true by lia. reflexivity.
Qed.

(** * The claims about the counter *)

(** ** Reading the answers *)

(** C1 (as amended).  For every list of [n] samples, [1 <= n <= 50000],
    recorded into a fresh counter and followed by one [calc]:
    [get_percentile] returns, for each of the five tags, the element of rank
    [floor (n * p) + 1] (from 1) of the sorted samples, converted to [double].
    The conversion is the identity on elements below [2 ^ 53], so there the
    element itself is returned. *)
Theorem read_after_calc (mem : counter) (samples : list Z) (fuel : nat) (tag : Z) :
  1 <= Z.of_nat (length samples) <= MAX_QUEUE_LENGTH ->
  (Z.to_nat (3 * Z.of_nat (length samples)) + 10 < fuel)%nat ->
  0 <= tag < COUNTER_PERCENTILE_COUNT ->
  exists st,
    (record_all samples ;; calc fuel) (perf_counter_number_percentile mem) = Done st tt /\
    get_percentile tag st = Done st (u64_to_double (percentile samples tag)) /\
    (percentile samples tag < 2 ^ 53 ->
     get_percentile tag st = Done st (percentile samples tag)).
Proof.
  intros Hn Hfuel Htag.
  destruct (record_all_fresh samples mem ltac:(lia)) as (q' & Hr & Hq).
  set (n := Z.of_nat (length samples)) in *.
  set (st1 := with_queue (with_tail mem n) q') in *.
  destruct (calc_spec fuel st1 n samples) as (s1 & st & r' & _ & _ & _ & Hc & Ht & _ & Hans).
  - unfold st1. fields. lia.
  - unfold st1. fields. lia.
  - unfold st1. fields. rewrite Hq. reflexivity.
  - exact Hfuel.
  - exists st. split.
    + rewrite (bind_eq _ Hr). exact Hc.
    + assert (E : get_percentile tag st = Done st (u64_to_double (percentile samples tag))).
      { rewrite get_percentile_valid; [| rewrite Ht; unfold st1; fields; lia | exact Htag].
        rewrite Hans by (unfold COUNTER_PERCENTILE_COUNT in Htag; lia). reflexivity. }
      split; [exact E|]. intros Hsmall. rewrite E, u64_to_double_small by exact Hsmall.
      reflexivity.
Qed.

Lemma read_after_calc_witness :
  exists st,
    (record_all [5; 1; 4; 2; 3] ;; calc 100) (perf_counter_number_percentile zero_mem)
      = Done st tt /\
    get_percentile COUNTER_PERCENTILE_50 st
      = Done st (u64_to_double (percentile [5; 1; 4; 2; 3] COUNTER_PERCENTILE_50)) /\
    (percentile [5; 1; 4; 2; 3] COUNTER_PERCENTILE_50 < 2 ^ 53 ->
     get_percentile COUNTER_PERCENTILE_50 st
       = Done st (percentile [5; 1; 4; 2; 3] COUNTER_PERCENTILE_50)).
Proof.
  apply (read_after_calc zero_mem [5; 1; 4; 2; 3] 100 COUNTER_PERCENTILE_50).
  - vm_compute. split; discriminate.
  - vm_compute. lia.
  - vm_compute. split; [discriminate | reflexivity].
Defined.

(** C1 (as stated) fails: one sample [2 ^ 53 + 1] is the element of every
    rank, and [get_percentile] returns [2 ^ 53]. *)
Lemma read_rounds_large_sample :
  exists st,
    (record_all [9007199254740993] ;; calc 20) (perf_counter_number_percentile zero_mem)
      = Done st tt /\
    percentile [9007199254740993] COUNTER_PERCENTILE_50 = 9007199254740993 /\
    get_percentile COUNTER_PERCENTILE_50 st = Done st 9007199254740992 /\
    get_percentile COUNTER_PERCENTILE_50 st
      <> Done st (percentile [9007199254740993] COUNTER_PERCENTILE_50).
Proof.
  eexists. split; [vm_compute; reflexivity|].
  split; [reflexivity|]. split; [reflexivity|].
  intros H. vm_compute in H. discriminate H.
Qed.

(** ** The answer set during and after a recompute *)

(** C2 (as amended).  The five answers are not published as one unit (see
    [mixed_epochs_between_rounds]); what holds is that once [calc] has
    returned, the answers of all five tags are those of its own snapshot
    alone.  [calc] on a counter that holds samples returns, and a read of each
    tag then gives the element of rank [floor (n * p) + 1] of the sorted
    snapshot (the first [min (_tail, 50000)] slots of [_queue]), converted to
    [double].  Nothing else enters the answers: a second counter with the same
    snapshot ends with the same five answers, whatever its previous answer
    set, its scratch arrays, the slots of [_queue] outside the snapshot and
    its cursor beyond the snapshot hold. *)
Theorem calc_replaces_all_answers (fuel : nat) (st1 st2 : counter) :
  0 < _tail st1 -> 0 < _tail st2 ->
  snapshot st2 = snapshot st1 ->
  (Z.to_nat (3 * Z.min (_tail st1) MAX_QUEUE_LENGTH) + 10 < fuel)%nat ->
  exists st1' st2',
    calc fuel st1 = Done st1' tt /\ calc fuel st2 = Done st2' tt /\
    (forall tag, 0 <= tag < COUNTER_PERCENTILE_COUNT ->
       get_percentile tag st1'
         = Done st1' (u64_to_double (percentile (snapshot st1) tag)) /\
       get_percentile tag st2'
         = Done st2' (u64_to_double (percentile (snapshot st1) tag))) /\
    answers st1'
      = map (fun tag => u64_to_double (percentile (snapshot st1) tag)) [0; 1; 2; 3; 4] /\
    answers st2' = answers st1'.
Proof.
  intros Ht1 Ht2 Es Hfuel.
  assert (En : Z.min (_tail st2) MAX_QUEUE_LENGTH = Z.min (_tail st1) MAX_QUEUE_LENGTH).
  { pose proof (f_equal (fun l => Z.of_nat (length l)) Es) as El. cbv beta in El.
    unfold snapshot, MAX_QUEUE_LENGTH in *. rewrite !segr_length in El by lia. lia. }
  destruct (calc_spec fuel st1 (Z.min (_tail st1) MAX_QUEUE_LENGTH) (snapshot st1))
    as (_ & st1' & _ & _ & _ & _ & Hc1 & Ht1' & _ & Ha1);
    try reflexivity; try assumption.
  destruct (calc_spec fuel st2 (Z.min (_tail st2) MAX_QUEUE_LENGTH) (snapshot st1))
    as (_ & st2' & _ & _ & _ & _ & Hc2 & Ht2' & _ & Ha2);
    try reflexivity; try assumption.
  - rewrite <- Es. reflexivity.
  - rewrite En. exact Hfuel.
  - assert (Hread : forall tag, 0 <= tag < COUNTER_PERCENTILE_COUNT ->
       get_percentile tag st1'
         = Done st1' (u64_to_double (percentile (snapshot st1) tag)) /\
       get_percentile tag st2'
         = Done st2' (u64_to_double (percentile (snapshot st1) tag))).
    { intros tag Htag.
      rewrite !get_percentile_valid by (try exact Htag; lia).
      rewrite Ha1, Ha2 by (unfold COUNTER_PERCENTILE_COUNT in Htag; lia).
      split; reflexivity. }
    assert (Hans : forall st', (forall tag, 0 <= tag < COUNTER_PERCENTILE_COUNT ->
                      get_percentile tag st'
                        = Done st' (u64_to_double (percentile (snapshot st1) tag))) ->
              answers st'
                = map (fun tag => u64_to_double (percentile (snapshot st1) tag))
                      [0; 1; 2; 3; 4]).
    { intros st' H. unfold answers. apply map_ext_in. intros tag Hin.
      rewrite H; [reflexivity|]. unfold COUNTER_PERCENTILE_COUNT. cbn in Hin. lia. }
    exists st1', st2'. split; [exact Hc1|]. split; [exact Hc2|].
    split; [exact Hread|]. split.
    + apply Hans. intros tag Htag. apply Hread, Htag.
    + rewrite (Hans st1'), (Hans st2'); [reflexivity | |];
        intros tag Htag; apply Hread, Htag.
Qed.

Lemma calc_replaces_all_answers_witness :
  exists st1' st2',
    calc 100 three_samples = Done st1' tt /\
    calc 100 (with_ans (with_queue three_samples (fun i => if i <? 3 then 10 - i else 99)) (fun _ => 77)) = Done st2' tt /\
    (forall tag, 0 <= tag < COUNTER_PERCENTILE_COUNT ->
       get_percentile tag st1'
         = Done st1' (u64_to_double (percentile (snapshot three_samples) tag)) /\
       get_percentile tag st2'
         = Done st2' (u64_to_double (percentile (snapshot three_samples) tag))) /\
    answers st1'
      = map (fun tag => u64_to_double (percentile (snapshot three_samples) tag))
            [0; 1; 2; 3; 4] /\
    answers st2' = answers st1'.
Proof.
  apply (calc_replaces_all_answers 100 three_samples
           (with_ans (with_queue three_samples (fun i => if i <? 3 then 10 - i else 99)) (fun _ => 77))).
  - reflexivity.
  - reflexivity.
  - reflexivity.
  - vm_compute. lia.
Defined.

(** C2 (as stated) fails.  A first epoch over the sample [10] answers [10]
    for every tag.  Two more samples, [20] and [30], are recorded and [calc]
    runs again; it ends with the answers [20; 30; 30; 30; 30].  After the
    third round of its loop the answer of p50 is already the new one and the
    answers of the other tags are still those of the first epoch: a reader
    that runs there (no lock is taken by [calc] or [get_percentile]) gets
    answers of both epochs. *)
Lemma mixed_epochs_between_rounds :
  exists st_old st_mid st_new v,
    (set 10 ;; calc 100) (perf_counter_number_percentile zero_mem) = Done st_old tt /\
    answers st_old = [10; 10; 10; 10; 10] /\
    (set 20 ;; set 30 ;; calc 100) st_old = Done st_new tt /\
    answers st_new = [20; 30; 30; 30; 30] /\
    (set 20 ;; set 30 ;; calc_begin 100 3) st_old = Done st_mid v /\
    answers st_mid = [20; 10; 10; 10; 10].
Proof.
  eexists _, _, _, _.
  split; [vm_compute; reflexivity|]. split; [vm_compute; reflexivity|].
  split; [vm_compute; reflexivity|]. split; [vm_compute; reflexivity|].
  split; [vm_compute; reflexivity|]. vm_compute. reflexivity.
Qed.

(** ** Before the first recompute *)

(** C3, at its failing input: on a fresh counter (memory all zero) one sample
    is recorded and [get_percentile] is called before any [calc]; it returns
    the content of the never written [_ans], here [0], not the sentinel. *)
Lemma read_before_first_calc :
  exists st,
    set 5 (perf_counter_number_percentile zero_mem) = Done st tt /\
    get_percentile COUNTER_PERCENTILE_50 st = Done st 0.
Proof. eexists. split; [vm_compute; reflexivity | vm_compute; reflexivity]. Qed.

(** In general: after a [set] and before any [calc], a valid tag reads the
    conversion of what the memory of the object held in [_ans], which is never
    the sentinel [-1]. *)
Lemma read_after_set_is_not_sentinel (mem : counter) (v tag : Z) :
  0 <= tag < COUNTER_PERCENTILE_COUNT -> 0 <= _ans mem tag ->
  exists st,
    set v (perf_counter_number_percentile mem) = Done st tt /\
    get_percentile tag st = Done st (u64_to_double (_ans mem tag)) /\
    u64_to_double (_ans mem tag) <> -1.
Proof.
  intros Htag Hans. eexists. split; [|split].
  - rewrite set_spec; [reflexivity|]. unfold perf_counter_number_percentile, INT_MAX. fields. lia.
  - rewrite get_percentile_valid; [reflexivity | | exact Htag].
    unfold perf_counter_number_percentile. fields. lia.
  - pose proof (u64_to_double_nonneg _ Hans). lia.
Qed.

(** C7.  [calc] on a counter that has recorded nothing returns at once and
    leaves the whole state as it was; every tag then still reads [-1]. *)
Theorem calc_on_empty_counter (fuel : nat) (st : counter) :
  _tail st = 0 ->
  calc fuel st = Done st tt /\
  forall tag, (calc fuel ;; get_percentile tag) st = Done st (-1).
Proof.
  intros H. assert (E : calc fuel st = Done st tt) by (unfold calc; rewrite H; reflexivity).
  split; [exact E|]. intros tag. rewrite (bind_eq _ E). now apply get_percentile_empty.
Qed.

Lemma calc_on_empty_counter_witness :
  calc 0 (perf_counter_number_percentile zero_mem)
    = Done (perf_counter_number_percentile zero_mem) tt /\
  forall tag, (calc 0 ;; get_percentile tag) (perf_counter_number_percentile zero_mem)
              = Done (perf_counter_number_percentile zero_mem) (-1).
Proof.
  apply (calc_on_empty_counter 0 (perf_counter_number_percentile zero_mem)). reflexivity.
Defined.

(** ** Contract violations *)

(** C5, at its failing input: on a counter that has recorded nothing,
    [get_percentile] with a tag outside the enumeration returns [-1.0]; the
    test [_tail == 0] comes before the test of the tag. *)
Lemma invalid_tag_on_empty_counter :
  get_percentile 7 (perf_counter_number_percentile zero_mem)
    = Done (perf_counter_number_percentile zero_mem) (-1) /\
  get_percentile (-1) (perf_counter_number_percentile zero_mem)
    = Done (perf_counter_number_percentile zero_mem) (-1).
Proof. split; reflexivity. Qed.

(** Once a sample has been recorded, a tag outside the enumeration does stop
    the program at the assertion. *)
Theorem invalid_tag_aborts (st : counter) (tag : Z) :
  _tail st <> 0 -> tag < 0 \/ COUNTER_PERCENTILE_COUNT <= tag ->
  get_percentile tag st = Aborted st "send a wrong counter percentile type".
Proof. apply get_percentile_invalid. Qed.

Lemma invalid_tag_aborts_witness :
  get_percentile 5 (with_tail zero_mem 1)
    = Aborted (with_tail zero_mem 1) "send a wrong counter percentile type".
Proof.
  apply (invalid_tag_aborts (with_tail zero_mem 1) 5).
  - discriminate.
  - right. discriminate.
Defined.

(** C8.  The mutations that a counter kind does not support stop at
    [dassert(false, ...)] before anything is written: [increment],
    [decrement] and [add] on the percentile counter, [set] on the number
    counter. *)
Theorem unsupported_mutations_abort (st : counter) (c : Number.perf_counter_number)
    (val : Z) :
  increment st = Aborted st "invalid execution flow" /\
  decrement st = Aborted st "invalid execution flow" /\
  add val st = Aborted st "invalid execution flow" /\
  Number.set val c = Aborted c "invalid execution flow".
Proof. repeat split. Qed.

(** ** The ring buffer *)

(** C6, at its failing input: with the cursor at [INT_MAX] (after
    [2 ^ 31 - 1] calls of [set]) one more [set] does not move the cursor one
    up: the [int] wraps to [INT_MIN].  The following [set] computes
    [idx % MAX_QUEUE_LENGTH = -33648] and stores before the array. *)
Lemma set_at_the_end_of_int :
  (exists st, set 5 (with_tail zero_mem INT_MAX) = Done st tt /\
              _tail st = INT_MIN /\ _tail st <> INT_MAX + 1) /\
  Z.rem INT_MIN MAX_QUEUE_LENGTH = -33648 /\
  set 5 (with_tail zero_mem INT_MIN) = Undefined.
Proof.
  split; [|split].
  - eexists. split; [apply set_at_int_max; reflexivity|]. split; [reflexivity|].
    cbn [_tail with_tail with_queue]. discriminate.
  - reflexivity.
  - apply set_negative_tail; [reflexivity | intros E; vm_compute in E; discriminate E].
Qed.

(** C6 holds for every cursor [0 <= _tail < INT_MAX]: [set] returns, moves
    the cursor one up, stores the value into slot [_tail mod
    MAX_QUEUE_LENGTH] of [_queue] and leaves the other slots, and the rest of
    the counter, as they were. *)
Theorem set_below_int_max (v : Z) (st : counter) :
  0 <= _tail st < INT_MAX ->
  exists q',
    set v st = Done (with_queue (with_tail st (_tail st + 1)) q') tt /\
    q' (_tail st mod MAX_QUEUE_LENGTH) = v /\
    0 <= _tail st mod MAX_QUEUE_LENGTH < MAX_QUEUE_LENGTH /\
    forall p, p <> _tail st mod MAX_QUEUE_LENGTH -> q' p = _queue st p.
Proof.
  intros H. eexists. split; [apply set_spec; exact H|].
  split; [apply upd_same|]. split.
  - apply Z.mod_pos_bound. unfold MAX_QUEUE_LENGTH. lia.
  - intros p Hp. now apply upd_other.
Qed.

Lemma set_below_int_max_witness :
  exists q',
    set 5 (with_tail zero_mem 50001)
      = Done (with_queue (with_tail (with_tail zero_mem 50001)
                            (_tail (with_tail zero_mem 50001) + 1)) q') tt /\
    q' (_tail (with_tail zero_mem 50001) mod MAX_QUEUE_LENGTH) = 5 /\
    0 <= _tail (with_tail zero_mem 50001) mod MAX_QUEUE_LENGTH < MAX_QUEUE_LENGTH /\
    forall p, p <> _tail (with_tail zero_mem 50001) mod MAX_QUEUE_LENGTH ->
              q' p = _queue (with_tail zero_mem 50001) p.
Proof.
  apply (set_below_int_max 5 (with_tail zero_mem 50001)).
  vm_compute. split; [discriminate | reflexivity].
Defined.

(** C4, at its failing input: recording [2 ^ 31 + 1 = 50000 + 2147433649]
    samples does not return.  The first [2 ^ 31 - 1] calls of [set] bring the
    cursor to [INT_MAX], the next one wraps it to [INT_MIN], and the last one
    stores outside [_queue]; there is no state for [calc] to run on. *)
Lemma record_past_int_max :
  Z.of_nat (length (repeat 0 (Z.to_nat INT_MAX) ++ [0; 0]))
    = MAX_QUEUE_LENGTH + 2147433649 /\
  record_all (repeat 0 (Z.to_nat INT_MAX) ++ [0; 0])
    (perf_counter_number_percentile zero_mem) = Undefined.
Proof.
  split.
  - rewrite length_app, repeat_length. cbn [length].
    rewrite Nat2Z.inj_add, Z2Nat.id by (unfold INT_MAX; lia). reflexivity.
  - rewrite record_all_app.
    destruct (record_all_spec (repeat 0 (Z.to_nat INT_MAX))
                (perf_counter_number_percentile zero_mem)) as (q' & Hr & _).
    + cbn [_tail perf_counter_number_percentile with_tail]. lia.
    + rewrite repeat_length, Z2Nat.id by (unfold INT_MAX; lia).
      cbn [_tail perf_counter_number_percentile with_tail]. lia.
    + rewrite repeat_length, Z2Nat.id in Hr by (unfold INT_MAX; lia).
      cbn [_tail perf_counter_number_percentile with_tail] in Hr.
      rewrite Z.add_0_l in Hr.
      rewrite (bind_eq _ Hr). cbn [record_all].
      erewrite bind_eq by (apply set_at_int_max; reflexivity).
      unfold bind at 1. rewrite set_negative_tail; [reflexivity | reflexivity |].
      intros E. vm_compute in E. discriminate E.
Qed.

(** C4 holds as long as the cursor stays an [int]: for [k > 0] with
    [50000 + k <= INT_MAX], after [50000 + k] samples and one [calc] every tag
    reads the percentile of the last 50000 samples; the first [k] samples do
    not appear in the answer. *)
Theorem windowed_percentiles (mem : counter) (samples : list Z) (k : Z) (fuel : nat)
    (tag : Z) :
  0 < k -> Z.of_nat (length samples) = MAX_QUEUE_LENGTH + k ->
  MAX_QUEUE_LENGTH + k <= INT_MAX ->
  (Z.to_nat (3 * MAX_QUEUE_LENGTH) + 10 < fuel)%nat ->
  0 <= tag < COUNTER_PERCENTILE_COUNT ->
  exists st,
    (record_all samples ;; calc fuel) (perf_counter_number_percentile mem) = Done st tt /\
    get_percentile tag st
      = Done st (u64_to_double (percentile (skipn (Z.to_nat k) samples) tag)).
Proof.
  intros Hk Hlen Hmax Hfuel Htag.
  destruct (record_all_wrapped samples mem k ltac:(lia) Hlen Hmax) as (q' & Hr & Hperm).
  set (st1 := with_queue (with_tail mem (MAX_QUEUE_LENGTH + k)) q') in *.
  assert (HM : 0 < MAX_QUEUE_LENGTH) by (unfold MAX_QUEUE_LENGTH; lia).
  destruct (calc_spec fuel st1 MAX_QUEUE_LENGTH (skipn (Z.to_nat k) samples))
    as (s1 & st & r' & _ & _ & _ & Hc & Ht & _ & Hans).
  - unfold st1. fields. lia.
  - unfold st1. fields. lia.
  - unfold st1. fields. exact Hperm.
  - exact Hfuel.
  - exists st. split.
    + rewrite (bind_eq _ Hr). exact Hc.
    + rewrite get_percentile_valid; [| rewrite Ht; unfold st1; fields; lia | exact Htag].
      rewrite Hans by (unfold COUNTER_PERCENTILE_COUNT in Htag; lia). reflexivity.
Qed.

Lemma windowed_percentiles_witness :
  exists st,
    (record_all (7 :: repeat 1 (Z.to_nat 50000)) ;; calc (Z.to_nat 150020))
      (perf_counter_number_percentile zero_mem) = Done st tt /\
    get_percentile COUNTER_PERCENTILE_99 st
      = Done st (u64_to_double
                   (percentile (skipn (Z.to_nat 1) (7 :: repeat 1 (Z.to_nat 50000)))
                               COUNTER_PERCENTILE_99)).
Proof.
  apply (windowed_percentiles zero_mem (7 :: repeat 1 (Z.to_nat 50000)) 1 (Z.to_nat 150020)
           COUNTER_PERCENTILE_99).
  - reflexivity.
  - cbn [length]. rewrite repeat_length. vm_compute. reflexivity.
  - vm_compute. discriminate.
  - apply Nat.ltb_lt. vm_compute. reflexivity.
  - vm_compute. split; [discriminate | reflexivity].
Defined.

(** ** Termination and safety of the recompute *)

(** C9.  On every counter that holds samples ([n = min (_tail, 50000)] of
    them in the snapshot), [calc] returns: the loop over [_calc_queue] ends
    after at most [3 * n - 2] tasks.  The two facts behind it: [find_mid]
    returns on every sub-range, and a [select] that partitions [left .. right]
    pushes the three tasks [left .. index - 1], [index .. index] and
    [index + 1 .. right] with [left <= index <= right], each over a strictly
    smaller range. *)
Theorem calc_terminates (fuel : nat) (st : counter) :
  0 < _tail st ->
  (Z.to_nat (3 * Z.min (_tail st) MAX_QUEUE_LENGTH) + 10 < fuel)%nat ->
  (exists st1 st' r',
     calc_prologue fuel (Z.min (_tail st) MAX_QUEUE_LENGTH) st = Done st1 1 /\
     calc_loop fuel (1, 1) st1 = Done st' (r' + 1, r') /\
     r' <= 3 * Z.min (_tail st) MAX_QUEUE_LENGTH - 2 /\
     calc fuel st = Done st' tt) /\
  (forall f left right s,
     0 <= left <= right -> right < MAX_QUEUE_LENGTH ->
     (Z.to_nat (right - left) + 10 < f)%nat ->
     exists s' v, find_mid f left right s = Done s' v) /\
  (forall f left right qleft qright ct s,
     0 <= left < right -> right < MAX_QUEUE_LENGTH ->
     0 <= qleft <= qright -> qright <= 4 ->
     0 <= ct -> ct + 3 < MAX_QUEUE_LENGTH * 10 ->
     (Z.to_nat (right - left) + 10 < f)%nat ->
     exists s' index i j,
       select f 0 (MAX_QUEUE_LENGTH - 1) left right qleft qright ct s = Done s' (ct + 3) /\
       left <= index <= right /\
       _calc_queue s' (ct + 1) = mkTask left (index - 1) qleft (i - 1) /\
       _calc_queue s' (ct + 2) = mkTask index index i (j - 1) /\
       _calc_queue s' (ct + 3) = mkTask (index + 1) right j qright).
Proof.
  intros Ht Hfuel. split; [|split].
  - destruct (calc_spec fuel st (Z.min (_tail st) MAX_QUEUE_LENGTH)
                (segr (_queue st) 0 (Z.min (_tail st) MAX_QUEUE_LENGTH - 1)))
      as (st1 & st' & r' & Hp & Hl & Hr & Hc & _); try reflexivity; try assumption.
    exists st1, st', r'. auto.
  - intros f left right s Hl Hr Hf.
    destruct (find_mid_spec f left right s Hl Hr Hf) as (m' & v & E & _).
    eexists _, v. exact E.
  - intros f left right qleft qright ct s Hl Hr Hq Hq4 Hct Hcap Hf.
    apply select_pushes; lia.
Qed.

Lemma calc_terminates_witness :
  (exists st1 st' r',
     calc_prologue 100 (Z.min (_tail (with_tail zero_mem 3)) MAX_QUEUE_LENGTH)
       (with_tail zero_mem 3) = Done st1 1 /\
     calc_loop 100 (1, 1) st1 = Done st' (r' + 1, r') /\
     r' <= 3 * Z.min (_tail (with_tail zero_mem 3)) MAX_QUEUE_LENGTH - 2 /\
     calc 100 (with_tail zero_mem 3) = Done st' tt) /\
  (forall f left right s,
     0 <= left <= right -> right < MAX_QUEUE_LENGTH ->
     (Z.to_nat (right - left) + 10 < f)%nat ->
     exists s' v, find_mid f left right s = Done s' v) /\
  (forall f left right qleft qright ct s,
     0 <= left < right -> right < MAX_QUEUE_LENGTH ->
     0 <= qleft <= qright -> qright <= 4 ->
     0 <= ct -> ct + 3 < MAX_QUEUE_LENGTH * 10 ->
     (Z.to_nat (right - left) + 10 < f)%nat ->
     exists s' index i j,
       select f 0 (MAX_QUEUE_LENGTH - 1) left right qleft qright ct s = Done s' (ct + 3) /\
       left <= index <= right /\
       _calc_queue s' (ct + 1) = mkTask left (index - 1) qleft (i - 1) /\
       _calc_queue s' (ct + 2) = mkTask index index i (j - 1) /\
       _calc_queue s' (ct + 3) = mkTask (index + 1) right j qright).
Proof.
  apply (calc_terminates 100 (with_tail zero_mem 3)).
  - reflexivity.
  - vm_compute. lia.
Defined.

(** C10.  For every content of the arrays and every range [left < right]
    that [select] partitions: the pivot that [find_mid] returns is one of
    [_tmp[left .. right]]; the scan for it stops at an index in
    [left .. right]; and the whole partition step, run with [_tmp] restricted
    to the window [left .. right] (any access outside of it is [Undefined]),
    returns, and returns what the run on the whole array returns.  (For
    [left = right], [select] does not call [find_mid].) *)
Theorem partition_stays_in_range (fuel : nat) (st : counter) (left right : Z) :
  0 <= left < right -> right < MAX_QUEUE_LENGTH ->
  (Z.to_nat (right - left) + 10 < fuel)%nat ->
  exists m1 i0 m2 mid index0 t' m' index,
    copy_loop fuel left right left right st = Done (with_mid_temp st m1) i0 /\
    find_mid fuel left right (with_mid_temp st m1) = Done (with_mid_temp st m2) mid /\
    In mid (segr (_tmp st) left right) /\
    find_pivot fuel left right mid left right (with_mid_temp st m2)
      = Done (with_mid_temp st m2) index0 /\
    left <= index0 <= right /\ _tmp st index0 = mid /\
    partition_tmp fuel left right left right st
      = Done (with_mid_temp (with_tmp st t') m') index /\
    left <= index <= right /\
    partition_tmp fuel 0 (MAX_QUEUE_LENGTH - 1) left right st
      = Done (with_mid_temp (with_tmp st t') m') index.
Proof.
  intros Hl Hmax Hfuel.
  destruct (copy_loop_spec fuel left right left right st) as (m1 & i0 & Hc & Hm1); try lia.
  destruct (find_mid_spec fuel left right (with_mid_temp st m1))
    as (m2 & mid & Hf & q & Hq & Hmid); try lia.
  fields. rewrite Hm1 in Hmid by lia.
  destruct (find_pivot_spec fuel left right mid left right (with_mid_temp st m2))
    as (index0 & Hp & Hidx0 & Hv0); try lia.
  { exists q. auto. }
  destruct (partition_tmp_spec fuel left right left right st)
    as (t' & m' & index & Hpt & Hidx & _); try lia.
  exists m1, i0, m2, mid, index0, t', m', index.
  split; [exact Hc|]. split; [exact Hf|].
  split; [apply segr_In; exists q; auto|].
  split; [exact Hp|]. split; [exact Hidx0|]. split; [exact Hv0|].
  split; [exact Hpt|]. split; [exact Hidx|].
  apply (refines_partition_tmp fuel left right 0 (MAX_QUEUE_LENGTH - 1)); [lia | lia | exact Hpt].
Qed.

Lemma partition_stays_in_range_witness :
  exists m1 i0 m2 mid index0 t' m' index,
    copy_loop 100 2 6 2 6 zero_mem = Done (with_mid_temp zero_mem m1) i0 /\
    find_mid 100 2 6 (with_mid_temp zero_mem m1) = Done (with_mid_temp zero_mem m2) mid /\
    In mid (segr (_tmp zero_mem) 2 6) /\
    find_pivot 100 2 6 mid 2 6 (with_mid_temp zero_mem m2)
      = Done (with_mid_temp zero_mem m2) index0 /\
    2 <= index0 <= 6 /\ _tmp zero_mem index0 = mid /\
    partition_tmp 100 2 6 2 6 zero_mem = Done (with_mid_temp (with_tmp zero_mem t') m') index /\
    2 <= index <= 6 /\
    partition_tmp 100 0 (MAX_QUEUE_LENGTH - 1) 2 6 zero_mem
      = Done (with_mid_temp (with_tmp zero_mem t') m') index.
Proof.
  apply (partition_stays_in_range 100 zero_mem 2 6).
  - lia.
  - reflexivity.
  - vm_compute. lia.
Defined.

(** ** The answers of [calc] as order statistics of its snapshot *)

Lemma snapshot_length st :
  0 < _tail st -> Z.of_nat (length (snapshot st)) = Z.min (_tail st) MAX_QUEUE_LENGTH.
Proof.
  intros H. unfold snapshot, MAX_QUEUE_LENGTH. rewrite segr_length; lia.
Qed.

Lemma calc_on_snapshot fuel st :
  0 < _tail st ->
  (Z.to_nat (3 * Z.min (_tail st) MAX_QUEUE_LENGTH) + 10 < fuel)%nat ->
  exists st',
    calc fuel st = Done st' tt /\ _tail st' = _tail st /\ _queue st' = _queue st /\
    forall q, 0 <= q <= 4 -> _ans st' q = percentile (snapshot st) q.
Proof.
  intros Ht Hfuel.
  destruct (calc_spec fuel st (Z.min (_tail st) MAX_QUEUE_LENGTH) (snapshot st))
    as (_ & st' & _ & _ & _ & _ & Hc & Ht' & Hq' & Ha); try reflexivity; try assumption.
  exists st'. auto.
Qed.

Lemma spec_rank_in_range n q :
  1 <= n -> 0 <= q <= 4 -> 1 <= spec_rank n q <= n.
Proof. intros Hn Hq. exact (proj1 (spec_rank_ok n Hn) q Hq). Qed.

Lemma sort_length l : length (sort l) = length l.
Proof. apply Permutation_length, sort_perm. Qed.

Lemma percentile_in samples q :
  samples <> [] -> 0 <= q <= 4 -> In (percentile samples q) samples.
Proof.
  intros Hne Hq. unfold percentile.
  assert (Hn : 1 <= Z.of_nat (length samples)) by (destruct samples; [congruence | cbn [length]; lia]).
  pose proof (spec_rank_in_range _ q Hn Hq) as Hr.
  apply (Permutation_in _ (sort_perm samples)).
  apply nth_In. rewrite sort_length. lia.
Qed.

(** Two sorted lists with the same elements read the same at every rank. *)
Lemma sort_nth_perm l l' k :
  Permutation l l' -> nth k (sort l) 0 = nth k (sort l') 0.
Proof.
  intros Hp. destruct (Nat.lt_ge_cases k (length l)) as [Hk | Hk].
  - symmetry. apply rank_of_separator.
    + apply Permutation_trans with l; [apply sort_perm | exact Hp].
    + rewrite sort_length. exact Hk.
    + intros i Hi. apply sorted_nth_le; [apply sort_sorted | rewrite sort_length; lia].
    + intros i Hi. apply sorted_nth_le; [apply sort_sorted | lia].
  - rewrite !nth_overflow; [reflexivity | |]; rewrite sort_length;
      [rewrite <- (Permutation_length Hp)|]; exact Hk.
Qed.

Lemma percentile_perm l l' q : Permutation l l' -> percentile l q = percentile l' q.
Proof.
  intros Hp. unfold percentile. rewrite (Permutation_length Hp). now apply sort_nth_perm.
Qed.
(** * More of the percentile counter *)

(** ** What the answers are *)

(** X4.  After a [calc] on a counter that holds samples the five answers are
    ascending with the tags: p50 <= p90 <= p95 <= p99 <= p99.9. *)
Theorem answers_are_ascending (fuel : nat) (st : counter) :
  0 < _tail st ->
  (Z.to_nat (3 * Z.min (_tail st) MAX_QUEUE_LENGTH) + 10 < fuel)%nat ->
  exists st',
    calc fuel st = Done st' tt /\
    forall q q', 0 <= q <= q' -> q' <= 4 -> _ans st' q <= _ans st' q'.
Proof.
  intros Ht Hfuel. destruct (calc_on_snapshot fuel st Ht Hfuel) as (st' & Hc & _ & _ & Ha).
  exists st'. split; [exact Hc|]. intros q q' Hq Hq'.
  rewrite !Ha by lia. unfold percentile.
  pose proof (snapshot_length st Ht) as Hlen.
  assert (Hn : 1 <= Z.of_nat (length (snapshot st))) by (unfold MAX_QUEUE_LENGTH in Hlen; lia).
  destruct (spec_rank_ok _ Hn) as [Hr Hm].
  pose proof (Hr q ltac:(lia)). pose proof (Hr q' ltac:(lia)). pose proof (Hm q q' Hq Hq').
  apply sorted_nth_le; [apply sort_sorted | rewrite sort_length; lia].
Qed.

Lemma answers_are_ascending_witness :
  exists st',
    calc 100 three_samples = Done st' tt /\
    forall q q', 0 <= q <= q' -> q' <= 4 -> _ans st' q <= _ans st' q'.
Proof.
  apply (answers_are_ascending 100 three_samples).
  - reflexivity.
  - vm_compute. lia.
Defined.

(** X5.  Each answer is an order statistic of the snapshot, said without
    sorting: the answer of a tag is one of the samples of the snapshot, at
    least [floor (n * p) + 1] samples are at most the answer, and fewer than
    [floor (n * p) + 1] samples are strictly below it. *)
Theorem answers_are_order_statistics (fuel : nat) (st : counter) (q : Z) :
  0 < _tail st ->
  (Z.to_nat (3 * Z.min (_tail st) MAX_QUEUE_LENGTH) + 10 < fuel)%nat ->
  0 <= q <= 4 ->
  exists st',
    calc fuel st = Done st' tt /\
    In (_ans st' q) (snapshot st) /\
    (count_le (_ans st' q - 1) (snapshot st)
       < Z.to_nat (spec_rank (Z.min (_tail st) MAX_QUEUE_LENGTH) q)
       <= count_le (_ans st' q) (snapshot st))%nat.
Proof.
  intros Ht Hfuel Hq. destruct (calc_on_snapshot fuel st Ht Hfuel) as (st' & Hc & _ & _ & Ha).
  exists st'. split; [exact Hc|]. rewrite Ha by exact Hq.
  pose proof (snapshot_length st Ht) as Hlen.
  assert (Hn : 1 <= Z.of_nat (length (snapshot st))) by (unfold MAX_QUEUE_LENGTH in Hlen; lia).
  split.
  { apply percentile_in; [|exact Hq]. intros E. rewrite E in Hn. cbn in Hn. lia. }
  unfold percentile. rewrite Hlen.
  pose proof (spec_rank_in_range _ q Hn Hq) as Hr. rewrite Hlen in Hr.
  set (k := Z.to_nat (spec_rank (Z.min (_tail st) MAX_QUEUE_LENGTH) q - 1)).
  assert (Hk : (k < length (sort (snapshot st)))%nat) by (rewrite sort_length; lia).
  rewrite !(count_le_perm _ _ _ (Permutation_sym (sort_perm (snapshot st)))).
  split.
  - apply Nat.le_lt_trans with k; [|lia].
    apply count_le_upper. intros i Hi.
    pose proof (sorted_nth_le (sort (snapshot st)) k i (sort_sorted _) ltac:(lia)). lia.
  - apply Nat.le_trans with (k + 1)%nat; [lia|].
    apply count_le_lower; [exact Hk|]. intros i Hi.
    apply sorted_nth_le; [apply sort_sorted | lia].
Qed.

Lemma answers_are_order_statistics_witness :
  exists st',
    calc 100 three_samples = Done st' tt /\
    In (_ans st' COUNTER_PERCENTILE_90) (snapshot three_samples) /\
    (count_le (_ans st' COUNTER_PERCENTILE_90 - 1) (snapshot three_samples)
       < Z.to_nat (spec_rank (Z.min (_tail three_samples) MAX_QUEUE_LENGTH)
                             COUNTER_PERCENTILE_90)
       <= count_le (_ans st' COUNTER_PERCENTILE_90) (snapshot three_samples))%nat.
Proof.
  apply (answers_are_order_statistics 100 three_samples COUNTER_PERCENTILE_90).
  - reflexivity.
  - vm_compute. lia.
  - vm_compute. split; discriminate.
Defined.

(** X6.  When a snapshot is small, the high percentiles are its maximum: with
    [n] samples and a tag of fraction [num / den] such that
    [n * (den - num) <= den] (at most 2 samples for p50, 10 for p90, 20 for
    p95, 100 for p99, 1000 for p99.9), the answer of the tag is a sample that
    no sample exceeds. *)
Theorem small_snapshot_reads_its_maximum (fuel : nat) (st : counter) (q : Z) :
  0 < _tail st -> 0 <= q <= 4 ->
  _tail st * (snd (fraction q) - fst (fraction q)) <= snd (fraction q) ->
  (Z.to_nat (3 * Z.min (_tail st) MAX_QUEUE_LENGTH) + 10 < fuel)%nat ->
  exists st',
    calc fuel st = Done st' tt /\
    In (_ans st' q) (snapshot st) /\
    forall v, In v (snapshot st) -> v <= _ans st' q.
Proof.
  intros Ht Hq Hsmall Hfuel.
  destruct (calc_on_snapshot fuel st Ht Hfuel) as (st' & Hc & _ & _ & Ha).
  exists st'. split; [exact Hc|]. rewrite Ha by exact Hq.
  pose proof (snapshot_length st Ht) as Hlen.
  assert (Hn : 1 <= Z.of_nat (length (snapshot st))) by (unfold MAX_QUEUE_LENGTH in Hlen; lia).
  split.
  { apply percentile_in; [|exact Hq]. intros E. rewrite E in Hn. cbn in Hn. lia. }
  assert (Hrank : spec_rank (Z.of_nat (length (snapshot st))) q = Z.of_nat (length (snapshot st))).
  { assert (Hmin : Z.of_nat (length (snapshot st)) = _tail st).
    { rewrite Hlen. apply Z.min_l. revert Hsmall. unfold fraction, MAX_QUEUE_LENGTH,
        COUNTER_PERCENTILE_50, COUNTER_PERCENTILE_90, COUNTER_PERCENTILE_95,
        COUNTER_PERCENTILE_99.
      repeat match goal with |- context [?a =? ?b] => destruct (Z.eqb_spec a b) end;
        cbn [fst snd]; lia. }
    rewrite Hmin. revert Hsmall. unfold spec_rank, fraction,
      COUNTER_PERCENTILE_50, COUNTER_PERCENTILE_90, COUNTER_PERCENTILE_95,
      COUNTER_PERCENTILE_99.
    repeat match goal with |- context [?a =? ?b] => destruct (Z.eqb_spec a b) end;
      cbn [fst snd]; intros Hsmall; Z.div_mod_to_equations; lia. }
  intros v Hv. unfold percentile. rewrite Hrank.
  apply (Permutation_in _ (Permutation_sym (sort_perm (snapshot st)))) in Hv.
  destruct (In_nth _ _ 0 Hv) as (i & Hi & <-).
  rewrite sort_length in Hi.
  apply sorted_nth_le; [apply sort_sorted | rewrite sort_length; lia].
Qed.

Lemma small_snapshot_reads_its_maximum_witness :
  exists st',
    calc 100 three_samples = Done st' tt /\
    In (_ans st' COUNTER_PERCENTILE_90) (snapshot three_samples) /\
    forall v, In v (snapshot three_samples) -> v <= _ans st' COUNTER_PERCENTILE_90.
Proof.
  apply (small_snapshot_reads_its_maximum 100 three_samples COUNTER_PERCENTILE_90).
  - reflexivity.
  - vm_compute. split; discriminate.
  - vm_compute. discriminate.
  - vm_compute. lia.
Defined.

(** ** What [calc] leaves alone, and what a second [calc] does *)

(** X7.  [calc] never writes the ring buffer or its cursor, and a second
    [calc] that follows with no [set] in between ends with the same five
    answers. *)
Theorem calc_again_changes_no_answer (fuel : nat) (st : counter) :
  0 <= _tail st ->
  (Z.to_nat (3 * Z.min (_tail st) MAX_QUEUE_LENGTH) + 10 < fuel)%nat ->
  exists st1 st2,
    calc fuel st = Done st1 tt /\ _tail st1 = _tail st /\ _queue st1 = _queue st /\
    calc fuel st1 = Done st2 tt /\ _tail st2 = _tail st /\ _queue st2 = _queue st /\
    (forall q, 0 <= q <= 4 -> _ans st2 q = _ans st1 q) /\
    answers st2 = answers st1.
Proof.
  intros Ht Hfuel. destruct (Z.eq_dec (_tail st) 0) as [E0 | Hne].
  - assert (E : calc fuel st = Done st tt) by (unfold calc; rewrite E0; reflexivity).
    exists st, st. repeat split; try exact E; reflexivity.
  - assert (Hpos : 0 < _tail st) by lia.
    destruct (calc_on_snapshot fuel st Hpos Hfuel) as (st1 & Hc1 & Ht1 & Hq1 & Ha1).
    destruct (calc_on_snapshot fuel st1) as (st2 & Hc2 & Ht2 & Hq2 & Ha2).
    { rewrite Ht1. exact Hpos. }
    { rewrite Ht1. exact Hfuel. }
    assert (Hs : snapshot st1 = snapshot st) by (unfold snapshot; rewrite Ht1, Hq1; reflexivity).
    assert (Hans : forall q, 0 <= q <= 4 -> _ans st2 q = _ans st1 q).
    { intros q Hq. rewrite Ha2, Ha1, Hs by exact Hq. reflexivity. }
    exists st1, st2. split; [exact Hc1|]. split; [exact Ht1|]. split; [exact Hq1|].
    split; [exact Hc2|]. split; [congruence|]. split; [congruence|].
    split; [exact Hans|].
    unfold answers. apply map_ext_in. intros tag Hin.
    assert (Htag : 0 <= tag < COUNTER_PERCENTILE_COUNT).
    { unfold COUNTER_PERCENTILE_COUNT. cbn in Hin. lia. }
    rewrite !get_percentile_valid by (try exact Htag; lia).
    rewrite Hans by (unfold COUNTER_PERCENTILE_COUNT in Htag; lia). reflexivity.
Qed.

Lemma calc_again_changes_no_answer_witness :
  exists st1 st2,
    calc 100 three_samples = Done st1 tt /\
    _tail st1 = _tail three_samples /\ _queue st1 = _queue three_samples /\
    calc 100 st1 = Done st2 tt /\
    _tail st2 = _tail three_samples /\ _queue st2 = _queue three_samples /\
    (forall q, 0 <= q <= 4 -> _ans st2 q = _ans st1 q) /\
    answers st2 = answers st1.
Proof.
  apply (calc_again_changes_no_answer 100 three_samples).
  - vm_compute. discriminate.
  - vm_compute. lia.
Defined.

(** X8.  The answers depend on the recorded samples as a multiset only: two
    fresh counters that record the same samples in different orders end, after
    [calc], with the same five answers. *)
Theorem answers_ignore_the_order_of_arrival (mem1 mem2 : counter) (s1 s2 : list Z)
    (fuel : nat) :
  Permutation s1 s2 ->
  1 <= Z.of_nat (length s1) <= MAX_QUEUE_LENGTH ->
  (Z.to_nat (3 * Z.of_nat (length s1)) + 10 < fuel)%nat ->
  exists st1 st2,
    (record_all s1 ;; calc fuel) (perf_counter_number_percentile mem1) = Done st1 tt /\
    (record_all s2 ;; calc fuel) (perf_counter_number_percentile mem2) = Done st2 tt /\
    answers st1 = answers st2.
Proof.
  intros Hp Hn Hfuel. pose proof (Permutation_length Hp) as Hlen.
  assert (run : forall mem s, Permutation s1 s -> length s = length s1 ->
            exists st, (record_all s ;; calc fuel) (perf_counter_number_percentile mem)
                         = Done st tt /\
                       _tail st <> 0 /\
                       forall q, 0 <= q <= 4 -> _ans st q = percentile s1 q).
  { intros mem s Hps Hl.
    destruct (record_all_fresh s mem ltac:(lia)) as (q' & Hr & Hq).
    rewrite Hl in Hr, Hq.
    set (n := Z.of_nat (length s1)) in *.
    set (st0 := with_queue (with_tail mem n) q') in *.
    destruct (calc_spec fuel st0 n s1) as (_ & st & _ & _ & _ & _ & Hc & Ht & _ & Ha).
    - unfold st0. fields. lia.
    - unfold st0. fields. lia.
    - unfold st0. fields. rewrite Hq. apply Permutation_sym. exact Hps.
    - exact Hfuel.
    - exists st. split; [rewrite (bind_eq _ Hr); exact Hc|].
      split; [rewrite Ht; unfold st0; fields; lia | exact Ha]. }
  destruct (run mem1 s1 (Permutation_refl _) eq_refl) as (st1 & H1 & T1 & A1).
  destruct (run mem2 s2 Hp (eq_sym Hlen)) as (st2 & H2 & T2 & A2).
  exists st1, st2. split; [exact H1|]. split; [exact H2|].
  unfold answers. apply map_ext_in. intros tag Hin.
  assert (Htag : 0 <= tag < COUNTER_PERCENTILE_COUNT).
  { unfold COUNTER_PERCENTILE_COUNT. cbn in Hin. lia. }
  rewrite !get_percentile_valid by (try exact Htag; assumption).
  rewrite A1, A2 by (unfold COUNTER_PERCENTILE_COUNT in Htag; lia). reflexivity.
Qed.

Lemma answers_ignore_the_order_of_arrival_witness :
  exists st1 st2,
    (record_all [5; 1; 4] ;; calc 100) (perf_counter_number_percentile zero_mem)
      = Done st1 tt /\
    (record_all [4; 5; 1] ;; calc 100) (perf_counter_number_percentile three_samples)
      = Done st2 tt /\
    answers st1 = answers st2.
Proof.
  apply (answers_ignore_the_order_of_arrival zero_mem three_samples [5; 1; 4] [4; 5; 1] 100).
  - apply perm_trans with [5; 4; 1]; [apply perm_skip, perm_swap|].
    apply perm_trans with [4; 5; 1]; [apply perm_swap | apply Permutation_refl].
  - vm_compute. split; discriminate.
  - vm_compute. lia.
Defined.

(** ** The ranks that [calc] asks for *)

(** X9.  For every size [n] of snapshot, [1 <= n <= 50000], the ranks that
    [calc] computes with the products [tmp_num * 0.5], ..., [tmp_num * 0.999]
    in binary64 and stores into [_ask] are exactly [n * num / den + 1] (the
    rounding of the products never moves a rank), lie in [1 .. n] and ascend
    with the tags: [_ask] is sorted without the [std::sort] that the source
    has commented out. *)
Theorem asked_ranks_are_exact_and_sorted (fuel : nat) (n : Z) (st : counter) :
  1 <= n <= MAX_QUEUE_LENGTH -> (Z.to_nat n + 2 < fuel)%nat ->
  exists st1,
    calc_prologue fuel n st = Done st1 1 /\
    _ask st1 COUNTER_PERCENTILE_50 = n * 1 / 2 + 1 /\
    _ask st1 COUNTER_PERCENTILE_90 = n * 9 / 10 + 1 /\
    _ask st1 COUNTER_PERCENTILE_95 = n * 95 / 100 + 1 /\
    _ask st1 COUNTER_PERCENTILE_99 = n * 99 / 100 + 1 /\
    _ask st1 COUNTER_PERCENTILE_999 = n * 999 / 1000 + 1 /\
    (forall q, 0 <= q <= 4 -> 1 <= _ask st1 q <= n) /\
    (forall q q', 0 <= q <= q' -> q' <= 4 -> _ask st1 q <= _ask st1 q').
Proof.
  intros Hn Hfuel.
  destruct (calc_prologue_spec fuel n st Hn Hfuel) as (t' & a' & Hp & _ & Ha).
  eexists. split; [exact Hp|]. cbn [_ask].
  assert (Hs : forall q, 0 <= q <= 4 -> a' q = spec_rank n q).
  { intros q Hq. rewrite Ha by exact Hq. apply code_rank_spec; assumption. }
  destruct (spec_rank_ok n ltac:(lia)) as [Hr Hm].
  split; [exact (Hs 0 ltac:(lia))|]. split; [exact (Hs 1 ltac:(lia))|].
  split; [exact (Hs 2 ltac:(lia))|]. split; [exact (Hs 3 ltac:(lia))|].
  split; [exact (Hs 4 ltac:(lia))|]. split.
  - intros q Hq. rewrite Hs by exact Hq. apply Hr. exact Hq.
  - intros q q' Hq Hq'. rewrite !Hs by lia. apply Hm; assumption.
Qed.

Lemma asked_ranks_are_exact_and_sorted_witness :
  exists st1,
    calc_prologue 100 3 three_samples = Done st1 1 /\
    _ask st1 COUNTER_PERCENTILE_50 = 3 * 1 / 2 + 1 /\
    _ask st1 COUNTER_PERCENTILE_90 = 3 * 9 / 10 + 1 /\
    _ask st1 COUNTER_PERCENTILE_95 = 3 * 95 / 100 + 1 /\
    _ask st1 COUNTER_PERCENTILE_99 = 3 * 99 / 100 + 1 /\
    _ask st1 COUNTER_PERCENTILE_999 = 3 * 999 / 1000 + 1 /\
    (forall q, 0 <= q <= 4 -> 1 <= _ask st1 q <= 3) /\
    (forall q q', 0 <= q <= q' -> q' <= 4 -> _ask st1 q <= _ask st1 q').
Proof.
  apply (asked_ranks_are_exact_and_sorted 100 3 three_samples).
  - vm_compute. split; discriminate.
  - vm_compute. lia.
Defined.

(** ** The partition step of [select] *)

(** X10.  The partition step of [select] on [left < right] rearranges
    [_tmp[left .. right]] and nothing else of [_tmp]: the range ends as a
    permutation of what it held, the pivot sits at the returned [index], no
    element before [index] exceeds it and no element after [index] is below
    it.  Elements equal to the pivot may end on either side. *)
Theorem partition_orders_the_range (fuel : nat) (st : counter) (left right : Z) :
  0 <= left < right -> right < MAX_QUEUE_LENGTH ->
  (Z.to_nat (right - left) + 10 < fuel)%nat ->
  exists t' m' index,
    partition_tmp fuel 0 (MAX_QUEUE_LENGTH - 1) left right st
      = Done (with_mid_temp (with_tmp st t') m') index /\
    left <= index <= right /\
    In (t' index) (segr (_tmp st) left right) /\
    Permutation (segr t' left right) (segr (_tmp st) left right) /\
    (forall p, left <= p <= index -> t' p <= t' index) /\
    (forall p, index <= p <= right -> t' index <= t' p) /\
    (forall p, p < left \/ right < p -> t' p = _tmp st p).
Proof.
  intros Hl Hr Hfuel.
  destruct (partition_tmp_spec fuel 0 (MAX_QUEUE_LENGTH - 1) left right st)
    as (t' & m' & index & Hp & Hi & Hout & Hperm & Hle & Hge); try lia.
  exists t', m', index. split; [exact Hp|]. split; [exact Hi|].
  split.
  { apply (Permutation_in _ Hperm). apply segr_In. exists index. split; [lia | reflexivity]. }
  auto.
Qed.

Lemma partition_orders_the_range_witness :
  exists t' m' index,
    partition_tmp 100 0 (MAX_QUEUE_LENGTH - 1) 0 2 (with_tmp zero_mem (fun i => 10 - i))
      = Done (with_mid_temp (with_tmp (with_tmp zero_mem (fun i => 10 - i)) t') m') index /\
    0 <= index <= 2 /\
    In (t' index) (segr (_tmp (with_tmp zero_mem (fun i => 10 - i))) 0 2) /\
    Permutation (segr t' 0 2) (segr (_tmp (with_tmp zero_mem (fun i => 10 - i))) 0 2) /\
    (forall p, 0 <= p <= index -> t' p <= t' index) /\
    (forall p, index <= p <= 2 -> t' index <= t' p) /\
    (forall p, p < 0 \/ 2 < p -> t' p = _tmp (with_tmp zero_mem (fun i => 10 - i)) p).
Proof.
  apply (partition_orders_the_range 100 (with_tmp zero_mem (fun i => 10 - i)) 0 2).
  - lia.
  - reflexivity.
  - vm_compute. lia.
Defined.

(** ** The insertion sort of [find_mid] *)

(** The inner loop moves a hole down from slot [i] to the place of [k]. *)
Lemma shift_loop_inserts fuel index k i st :
  0 <= index <= i -> i < MAX_QUEUE_LENGTH -> (Z.to_nat (i - index) + 1 < fuel)%nat ->
  _mid_temp st i = k -> sorted_run (_mid_temp st) index (i - 1) ->
  exists m' j,
    shift_loop fuel index k (i - 1) st = Done (with_mid_temp st m') j /\
    index - 1 <= j <= i - 1 /\
    sorted_run (upd m' (j + 1) k) index i /\
    Permutation (segr (upd m' (j + 1) k) index i) (segr (_mid_temp st) index i) /\
    (forall p, p < index \/ i < p -> m' p = _mid_temp st p).
Proof.
  intros Hi Hmax Hfuel Hk Hsorted. unfold shift_loop.
  set (Inv := fun (j : Z) (s : counter) => exists m',
    s = with_mid_temp st m' /\ index - 1 <= j <= i - 1 /\
    Permutation (segr (upd m' (j + 1) k) index i) (segr (_mid_temp st) index i) /\
    (forall p, p < index \/ i < p -> m' p = _mid_temp st p) /\
    (forall p q, index <= p -> p <= q -> q <= i -> p <> j + 1 -> q <> j + 1 -> m' p <= m' q) /\
    (forall p, j + 2 <= p <= i -> k < m' p)).
  destruct (while_rule Inv
    (fun j s => Inv j s /\ (index <= j -> _mid_temp s j <= k))
    (fun j _ => Z.to_nat (j - index + 1))
    (fun j => if j >=? index then (x <- load_mid_temp j ;; ret (x >? k)) else ret false)
    (fun j => x <- load_mid_temp j ;; store_mid_temp (j + 1) x ;; ret (j - 1)))
    with (fuel := fuel) (v := i - 1) (s := st)
    as (j & s & Hw & (m' & -> & Hj & Hperm & Hout & Hs1 & Hs2) & Hle).
  - intros j s (m' & -> & Hj & Hperm & Hout & Hs1 & Hs2). rewrite Z.geb_leb.
    destruct (Z.leb_spec index j) as [Hge | Hlt].
    + msteps. rewrite Z.gtb_ltb. destruct (Z.ltb_spec k (m' j)) as [Hgt | Hle].
      * right. split; [reflexivity|]. eexists _, _. msteps.
        split; [reflexivity|]. split; [|lia].
        eexists. split; [reflexivity|]. split; [lia|].
        replace (j - 1 + 1) with j by lia. split; [|split; [|split]].
        -- apply hole_move_perm; [lia | lia | exact Hperm].
        -- intros p Hp. rewrite upd_other by lia. apply Hout. exact Hp.
        -- intros p q Hp Hpq Hq Hpj Hqj. unfold upd.
           destruct (Z.eqb_spec p (j + 1)), (Z.eqb_spec q (j + 1)); subst;
             try lia; apply Hs1; lia.
        -- intros p Hp. unfold upd. destruct (Z.eqb_spec p (j + 1)); [lia|].
           apply Hs2. lia.
      * left. split; [reflexivity|]. split; [|fields; intros _; exact Hle].
        exists m'. auto 10.
    + left. split; [reflexivity|]. split; [|intros; lia]. exists m'. auto 10.
  - exists (_mid_temp st). split; [destruct st; reflexivity|]. split; [lia|].
    replace (i - 1 + 1) with i by lia. split; [|split; [|split]].
    + rewrite (segr_ext _ (_mid_temp st)); [reflexivity|].
      intros p Hp. unfold upd. destruct (Z.eqb_spec p i); congruence.
    + reflexivity.
    + intros p q Hp Hpq Hq Hpi Hqi. apply Hsorted; lia.
    + intros p Hp. lia.
  - lia.
  - exists m', j. split; [exact Hw|]. split; [exact Hj|]. fields.
    split; [|split; [exact Hperm | exact Hout]].
    intros p q Hp Hpq Hq. unfold upd.
    destruct (Z.eqb_spec p (j + 1)), (Z.eqb_spec q (j + 1)); subst; try lia.
    + pose proof (Hs2 q ltac:(lia)). lia.
    + assert (m' p <= m' j) by (apply Hs1; lia). pose proof (Hle ltac:(lia)). lia.
    + apply Hs1; lia.
Qed.

Lemma sort_group_sorts fuel index remain st :
  0 <= index -> 1 <= remain -> index + remain <= MAX_QUEUE_LENGTH ->
  (Z.to_nat remain + 2 < fuel)%nat ->
  exists m' i,
    sort_group fuel index remain st = Done (with_mid_temp st m') i /\
    sorted_run m' index (index + remain - 1) /\
    Permutation (segr m' index (index + remain - 1))
                (segr (_mid_temp st) index (index + remain - 1)) /\
    (forall p, p < index \/ index + remain <= p -> m' p = _mid_temp st p).
Proof.
  intros Hi Hr Hmax Hfuel. unfold sort_group.
  set (last := index + remain - 1).
  destruct (while_rule
    (fun i s => exists m', s = with_mid_temp st m' /\ index <= i <= index + remain /\
       sorted_run m' index (i - 1) /\
       Permutation (segr m' index last) (segr (_mid_temp st) index last) /\
       (forall p, p < index \/ index + remain <= p -> m' p = _mid_temp st p))
    (fun i s => exists m', s = with_mid_temp st m' /\
       sorted_run m' index last /\
       Permutation (segr m' index last) (segr (_mid_temp st) index last) /\
       (forall p, p < index \/ index + remain <= p -> m' p = _mid_temp st p))
    (fun i _ => Z.to_nat (index + remain - i))
    (fun i => ret (i <? index + remain))
    (fun i =>
       k <- load_mid_temp i ;;
       j <- shift_loop fuel index k (i - 1) ;;
       store_mid_temp (j + 1) k ;;
       ret (i + 1)))
    with (fuel := fuel) (v := index) (s := st) as (i & s & Hw & m' & -> & Hs & Hp & Hout).
  - intros i s (m' & -> & Hb & Hs & Hp & Hout). unfold ret at 1.
    destruct (Z.ltb_spec i (index + remain)) as [Hlt | Hge].
    + right. split; [reflexivity|]. msteps.
      destruct (shift_loop_inserts fuel index (m' i) i (with_mid_temp st m'))
        as (m'' & j & Hsh & Hj & Hs' & Hp' & Hout'); try lia; try reflexivity.
      { exact Hs. }
      fields. rewrite (bind_eq _ Hsh). msteps.
      eexists _, _. split; [reflexivity|]. split; [|lia].
      eexists. split; [reflexivity|]. split; [lia|].
      replace (i + 1 - 1) with i by lia. split; [exact Hs'|]. split.
      * apply Permutation_trans with (segr m' index last); [|exact Hp].
        apply (segr_perm_widen m' _ index i); try (unfold last; lia); [|exact Hp'].
        intros p Hpo. rewrite upd_other by lia. apply Hout'. lia.
      * intros p Hpo. rewrite upd_other by lia. rewrite Hout' by lia. apply Hout. exact Hpo.
    + left. split; [reflexivity|]. exists m'. split; [reflexivity|].
      split; [|auto]. intros p q H1 H2 H3. apply Hs; unfold last in *; lia.
  - exists (_mid_temp st). split; [destruct st; reflexivity|]. split; [lia|].
    split; [intros p q; lia|]. split; [reflexivity | reflexivity].
  - lia.
  - exists m', i. auto.
Qed.

(** In a sorted run every slot holds the element of its rank. *)
Lemma sorted_run_rank m m0 l r p :
  sorted_run m l r -> Permutation (segr m l r) (segr m0 l r) -> l <= p <= r ->
  m p = nth (Z.to_nat (p - l)) (sort (segr m0 l r)) 0.
Proof.
  intros Hs Hp Hl.
  assert (Hlen : length (segr m l r) = Z.to_nat (r - l + 1)).
  { apply Nat2Z.inj. rewrite segr_length by lia. lia. }
  rewrite (rank_of_separator (segr m l r) (segr m0 l r) (Z.to_nat (p - l)) Hp).
  - rewrite segr_nth by lia. f_equal. lia.
  - lia.
  - intros i Hi. rewrite <- (Nat2Z.id i), !segr_nth by lia. apply Hs; lia.
  - intros i Hi. rewrite <- (Nat2Z.id i), !segr_nth by lia. apply Hs; lia.
Qed.

(** ** [find_mid] *)

(** X11.  The insertion sort that [find_mid] runs on a run [index ..
    index + remain_num - 1] of [_mid_temp] sorts it in place: afterwards the
    run ascends, it is a permutation of what it held, and no other slot of
    [_mid_temp] (and no other array) has changed. *)
Theorem insertion_sort_sorts_the_run (fuel : nat) (st : counter) (index remain_num : Z) :
  0 <= index -> 1 <= remain_num -> index + remain_num <= MAX_QUEUE_LENGTH ->
  (Z.to_nat remain_num + 2 < fuel)%nat ->
  exists m' i,
    sort_group fuel index remain_num st = Done (with_mid_temp st m') i /\
    (forall p q, index <= p -> p <= q -> q < index + remain_num -> m' p <= m' q) /\
    Permutation (segr m' index (index + remain_num - 1))
                (segr (_mid_temp st) index (index + remain_num - 1)) /\
    (forall p, p < index \/ index + remain_num <= p -> m' p = _mid_temp st p).
Proof.
  intros Hi Hr Hmax Hfuel.
  destruct (sort_group_sorts fuel index remain_num st Hi Hr Hmax Hfuel)
    as (m' & i & Hs & Hsorted & Hperm & Hout).
  exists m', i. split; [exact Hs|]. split; [|auto].
  intros p q H1 H2 H3. apply Hsorted; lia.
Qed.

Lemma insertion_sort_sorts_the_run_witness :
  exists m' i,
    sort_group 100 2 5 (with_mid_temp zero_mem (fun i => 10 - i))
      = Done (with_mid_temp (with_mid_temp zero_mem (fun i => 10 - i)) m') i /\
    (forall p q, 2 <= p -> p <= q -> q < 2 + 5 -> m' p <= m' q) /\
    Permutation (segr m' 2 (2 + 5 - 1))
                (segr (_mid_temp (with_mid_temp zero_mem (fun i => 10 - i))) 2 (2 + 5 - 1)) /\
    (forall p, p < 2 \/ 2 + 5 <= p ->
               m' p = _mid_temp (with_mid_temp zero_mem (fun i => 10 - i)) p).
Proof.
  apply (insertion_sort_sorts_the_run 100 (with_mid_temp zero_mem (fun i => 10 - i)) 2 5).
  - lia.
  - lia.
  - vm_compute. discriminate.
  - vm_compute. lia.
Defined.

(** X12.  On a range that makes one run ([left < right <= left + 5], so 2 to
    6 elements) [find_mid] returns the median of the range: the element at
    position [(right - left + 1) / 2] (from 0) of the sorted range, which is
    the upper median when the number of elements is even. *)
Theorem find_mid_of_one_run (fuel : nat) (st : counter) (left right : Z) :
  0 <= left < right -> right <= left + 5 -> right < MAX_QUEUE_LENGTH ->
  (10 < fuel)%nat ->
  exists m' v,
    find_mid fuel left right st = Done (with_mid_temp st m') v /\
    v = nth (Z.to_nat ((right - left + 1) / 2)) (sort (segr (_mid_temp st) left right)) 0.
Proof.
  intros Hl Hrun Hmax Hfuel.
  destruct fuel as [|f]; [lia|]. cbn [find_mid].
  destruct (Z.eqb_spec left right) as [E | _]; [lia|].
  unfold groups_loop. cbn [while_]. rewrite bind_assoc. rewrite bind_ret. cbv beta iota.
  destruct (Z.ltb_spec left right) as [_ | H]; [|lia].
  rewrite Z.geb_leb. destruct (Z.leb_spec right (left + 5)) as [_ | H]; [|lia].
  set (remain := right - left + 1).
  destruct (sort_group_sorts (Datatypes.S f) left remain st)
    as (m1 & i & Hs & Hsorted & Hperm & Hout); try (unfold remain; lia).
  replace (left + remain - 1) with right in Hsorted, Hperm by (unfold remain; lia).
  assert (Hq : Z.quot remain 2 = remain / 2) by (apply Z.quot_div_nonneg; unfold remain; lia).
  assert (Hq0 : Z.quot (left - left) 5 = 0) by (rewrite Z.sub_diag; reflexivity).
  assert (Hq1 : Z.quot (right - left - 1) 5 = 0) by (apply Z.quot_small; lia).
  assert (Hhalf : 0 <= remain / 2 <= right - left).
  { unfold remain. split; [apply Z.div_pos; lia|]. apply Z.div_le_upper_bound; lia. }
  rewrite !bind_assoc. rewrite (bind_eq _ Hs). rewrite !bind_assoc.
  rewrite Hq, Hq0, Hq1.
  rewrite bind_load_mid_temp by lia. fields.
  rewrite !bind_assoc. rewrite bind_store_mid_temp by (unfold MAX_QUEUE_LENGTH; lia). fields.
  rewrite bind_ret. cbv beta iota.
  destruct f as [|f']; [lia|]. cbn [while_]. rewrite !bind_assoc, bind_ret. cbv beta iota.
  destruct (Z.ltb_spec (left + 5) right) as [H | _]; [lia|].
  rewrite bind_ret.
  destruct f' as [|f'']; [lia|]. cbn [find_mid]. rewrite Z.eqb_refl.
  rewrite load_mid_temp_ok by (unfold MAX_QUEUE_LENGTH; fields; lia). fields.
  eexists _, _. split; [reflexivity|]. rewrite upd_same.
  rewrite (sorted_run_rank m1 (_mid_temp st) left right (left + remain / 2) Hsorted Hperm)
    by lia.
  f_equal. f_equal. lia.
Qed.

Lemma find_mid_of_one_run_witness :
  exists m' v,
    find_mid 100 0 3 (with_mid_temp zero_mem (fun i => 10 - i))
      = Done (with_mid_temp (with_mid_temp zero_mem (fun i => 10 - i)) m') v /\
    v = nth (Z.to_nat ((3 - 0 + 1) / 2))
            (sort (segr (_mid_temp (with_mid_temp zero_mem (fun i => 10 - i))) 0 3)) 0.
Proof.
  apply (find_mid_of_one_run 100 (with_mid_temp zero_mem (fun i => 10 - i)) 0 3).
  - lia.
  - lia.
  - reflexivity.
  - lia.
Defined.

(** ** A task of one slot whose rank is not 1 *)

Lemma answer_loop_aborts fuel lo hi left qright q0 (k : nat) : forall i st,
  lo <= left <= hi -> 0 <= i -> q0 <= qright -> qright <= 4 ->
  i + Z.of_nat k = q0 -> (k < fuel)%nat ->
  (forall q, i <= q < q0 -> _ask st q = 1) -> _ask st q0 <> 1 ->
  exists ans',
    while_ fuel (fun i => ret (i <=? qright))
      (fun i =>
         a <- load_ask i ;;
         (if a =? 1 then (x <- load_tmp lo hi left ;; store_ans i x)
          else dassert_false "select percentail wrong!!!") ;;
         ret (i + 1)) i st
      = Aborted (with_ans st ans') "select percentail wrong!!!" /\
    (forall q, i <= q < q0 -> ans' q = _tmp st left) /\
    (forall q, q < i \/ q0 <= q -> ans' q = _ans st q).
Proof.
  revert fuel. induction k as [|k IH]; intros fuel i st Hl Hi Hq0 Hq4 Hk Hfuel Hones Hbad.
  - assert (i = q0) by lia. subst i.
    exists (_ans st). split; [|split; [intros; lia | reflexivity]].
    destruct fuel as [|f]; [lia|]. cbn [while_]. rewrite bind_ret.
    destruct (Z.leb_spec q0 qright) as [_ | H]; [|lia]. cbv beta iota.
    rewrite ?bind_assoc. rewrite bind_load_ask by (unfold COUNTER_PERCENTILE_COUNT; lia).
    destruct (Z.eqb_spec (_ask st q0) 1) as [E | _]; [contradiction|].
    destruct st; reflexivity.
  - destruct fuel as [|f]; [lia|].
    destruct (IH f (i + 1) (with_ans st (upd (_ans st) i (_tmp st left))))
      as (ans' & Hw & Hin & Hout); try lia; fields; try assumption.
    { intros q Hq. apply Hones. lia. }
    exists ans'. split; [|split].
    + cbn [while_]. rewrite bind_ret.
      destruct (Z.leb_spec i qright) as [_ | H]; [|lia]. cbv beta iota.
      rewrite ?bind_assoc. rewrite bind_load_ask by (unfold COUNTER_PERCENTILE_COUNT; lia).
      rewrite (Hones i) by lia. cbn [Z.eqb Pos.eqb].
      rewrite ?bind_assoc. rewrite bind_load_tmp by lia.
      rewrite ?bind_assoc. rewrite bind_store_ans by (unfold COUNTER_PERCENTILE_COUNT; lia).
      rewrite bind_ret. exact Hw.
    + intros q Hq. destruct (Z.eq_dec q i) as [-> | Hne].
      * rewrite Hout by lia. apply upd_same.
      * apply Hin. lia.
    + intros q Hq. rewrite Hout by lia. apply upd_other. lia.
Qed.

(** ** [select] on a task of one slot *)

(** X13.  On a task of one slot ([left = right]) with pending tags
    [qleft .. qright], [select] pushes nothing and partitions nothing.  If
    every pending rank in [_ask] is 1, each pending tag gets [_tmp[left]] as
    its answer and no other answer changes.  If some pending rank is not 1,
    the tags before the first such rank get their answer and the call stops
    at [dassert(false, "select percentail wrong!!!")]. *)
Theorem select_on_one_slot (fuel : nat) (st : counter) (left qleft qright ct : Z) :
  0 <= left < MAX_QUEUE_LENGTH -> 0 <= qleft <= qright -> qright <= 4 ->
  (10 < fuel)%nat ->
  ((forall q, qleft <= q <= qright -> _ask st q = 1) ->
   exists ans',
     select fuel 0 (MAX_QUEUE_LENGTH - 1) left left qleft qright ct st
       = Done (with_ans st ans') ct /\
     (forall q, qleft <= q <= qright -> ans' q = _tmp st left) /\
     (forall q, q < qleft \/ qright < q -> ans' q = _ans st q)) /\
  (forall q0, qleft <= q0 <= qright -> _ask st q0 <> 1 ->
   (forall q, qleft <= q < q0 -> _ask st q = 1) ->
   exists ans',
     select fuel 0 (MAX_QUEUE_LENGTH - 1) left left qleft qright ct st
       = Aborted (with_ans st ans') "select percentail wrong!!!" /\
     (forall q, qleft <= q < q0 -> ans' q = _tmp st left) /\
     (forall q, q < qleft \/ q0 <= q -> ans' q = _ans st q)).
Proof.
  intros Hl Hq Hq4 Hfuel. split.
  - intros Hones.
    apply (select_single fuel 0 (MAX_QUEUE_LENGTH - 1) (left + 1) (fun _ => left + 1));
      try lia.
    unfold task_wf. fields. split_ands; try lia.
    intros q Hqq. rewrite Hones by exact Hqq. lia.
  - intros q0 Hq0 Hbad Hones. unfold select.
    destruct (Z.gtb_spec qleft qright) as [H | _]; [lia|].
    rewrite Z.eqb_refl. unfold answer_loop.
    destruct (answer_loop_aborts fuel 0 (MAX_QUEUE_LENGTH - 1) left qright q0
                (Z.to_nat (q0 - qleft)) qleft st)
      as (ans' & Hw & Hin & Hout); try lia; try assumption.
    exists ans'. split; [|auto]. unfold bind at 1. rewrite Hw. reflexivity.
Qed.

Lemma select_on_one_slot_witness :
  ((forall q, 0 <= q <= 4 -> _ask (with_ask three_samples (fun q => q)) q = 1) ->
   exists ans',
     select 100 0 (MAX_QUEUE_LENGTH - 1) 0 0 0 4 1 (with_ask three_samples (fun q => q))
       = Done (with_ans (with_ask three_samples (fun q => q)) ans') 1 /\
     (forall q, 0 <= q <= 4 -> ans' q = _tmp (with_ask three_samples (fun q => q)) 0) /\
     (forall q, q < 0 \/ 4 < q -> ans' q = _ans (with_ask three_samples (fun q => q)) q)) /\
  (forall q0, 0 <= q0 <= 4 -> _ask (with_ask three_samples (fun q => q)) q0 <> 1 ->
   (forall q, 0 <= q < q0 -> _ask (with_ask three_samples (fun q => q)) q = 1) ->
   exists ans',
     select 100 0 (MAX_QUEUE_LENGTH - 1) 0 0 0 4 1 (with_ask three_samples (fun q => q))
       = Aborted (with_ans (with_ask three_samples (fun q => q)) ans')
                 "select percentail wrong!!!" /\
     (forall q, 0 <= q < q0 -> ans' q = _tmp (with_ask three_samples (fun q => q)) 0) /\
     (forall q, q < 0 \/ q0 <= q -> ans' q = _ans (with_ask three_samples (fun q => q)) q)).
Proof.
  apply (select_on_one_slot 100 (with_ask three_samples (fun q => q)) 0 0 4 1).
  - vm_compute. split; [discriminate | reflexivity].
  - lia.
  - lia.
  - lia.
Defined.

(** ** [select] on a task of several slots *)

(** X14.  On a task [left < right] whose pending ranks [_ask[qleft ..
    qright]] ascend and lie in [1 .. right - left + 1], [select] partitions
    the range around a pivot that ends at [index], [now = index - left + 1],
    and splits the tags among three new tasks: the tags of rank below [now] go
    with [left .. index - 1] and keep their rank; the tags of rank [now] go
    with the slot [index] and get rank 1; the tags of rank above [now] go
    with [index + 1 .. right] and their rank is lowered by [now].  The
    answers [_ans] are not touched. *)
Theorem select_splits_the_tags (fuel : nat) (st : counter)
    (left right qleft qright ct : Z) :
  0 <= left < right -> right < MAX_QUEUE_LENGTH ->
  0 <= qleft <= qright -> qright <= 4 ->
  (forall q, qleft <= q <= qright -> 1 <= _ask st q <= right - left + 1) ->
  (forall q q', qleft <= q <= q' -> q' <= qright -> _ask st q <= _ask st q') ->
  0 <= ct -> ct + 3 < MAX_QUEUE_LENGTH * 10 ->
  (Z.to_nat (right - left) + 10 < fuel)%nat ->
  exists st' index i j,
    select fuel 0 (MAX_QUEUE_LENGTH - 1) left right qleft qright ct st = Done st' (ct + 3) /\
    left <= index <= right /\ qleft <= i <= j /\ j <= qright + 1 /\
    _calc_queue st' (ct + 1) = mkTask left (index - 1) qleft (i - 1) /\
    _calc_queue st' (ct + 2) = mkTask index index i (j - 1) /\
    _calc_queue st' (ct + 3) = mkTask (index + 1) right j qright /\
    (forall q, qleft <= q < i ->
               _ask st q < index - left + 1 /\ _ask st' q = _ask st q) /\
    (forall q, i <= q < j -> _ask st q = index - left + 1 /\ _ask st' q = 1) /\
    (forall q, j <= q <= qright ->
               index - left + 1 < _ask st q /\ _ask st' q = _ask st q - (index - left + 1)) /\
    (forall q, q < qleft \/ qright < q -> _ask st' q = _ask st q) /\
    _ans st' = _ans st.
Proof.
  intros Hl Hr Hq Hq4 Hrange Hasc Hct Hcap Hfuel.
  set (R := fun q => if q <? qleft then 1
                     else if qright <? q then right + 1 else _ask st q + left).
  assert (HR : forall q, qleft <= q <= qright -> R q = _ask st q + left).
  { intros q Hqq. unfold R.
    destruct (Z.ltb_spec q qleft); [lia|]. destruct (Z.ltb_spec qright q); [lia|]. reflexivity. }
  destruct (select_split fuel 0 (MAX_QUEUE_LENGTH - 1) (right + 1) R
              left right qleft qright ct st)
    as (t' & m' & a' & index & i & j & Hs & Hidx & Hi & Hj & _ & _ & _ & _ & Hout
        & W1 & W2 & W3); try lia.
  - split.
    + intros q Hqq. unfold R.
      destruct (Z.ltb_spec q qleft); [lia|]. destruct (Z.ltb_spec qright q); [lia|].
      pose proof (Hrange q ltac:(lia)). lia.
    + intros q q' Hqq Hq'. unfold R.
      destruct (Z.ltb_spec q qleft), (Z.ltb_spec q' qleft),
               (Z.ltb_spec qright q), (Z.ltb_spec qright q'); try lia.
      * pose proof (Hrange q' ltac:(lia)). lia.
      * pose proof (Hrange q ltac:(lia)). lia.
      * pose proof (Hasc q q' ltac:(lia) ltac:(lia)). lia.
  - unfold task_wf. fields. split_ands; try lia.
    intros q Hqq. rewrite HR by exact Hqq. pose proof (Hrange q Hqq). lia.
  - eexists _, index, i, j. split; [exact Hs|]. fields.
    destruct W1 as (_ & _ & _ & _ & W1). destruct W2 as (_ & _ & _ & _ & W2).
    destruct W3 as (_ & _ & _ & _ & W3). fields.
    split; [exact Hidx|]. split; [exact Hi|]. split; [exact Hj|].
    split; [rewrite upd_other, upd_other, upd_same by lia; reflexivity|].
    split; [rewrite upd_other, upd_same by lia; reflexivity|].
    split; [rewrite upd_same; reflexivity|].
    split; [|split; [|split; [|split; [exact Hout | reflexivity]]]].
    + intros q Hqq. destruct (W1 q ltac:(lia)) as [E B]. rewrite HR in E, B by lia. lia.
    + intros q Hqq. destruct (W2 q ltac:(lia)) as [E B]. rewrite HR in E, B by lia. lia.
    + intros q Hqq. destruct (W3 q ltac:(lia)) as [E B]. rewrite HR in E, B by lia. lia.
Qed.

Lemma select_splits_the_tags_witness :
  exists st' index i j,
    select 100 0 (MAX_QUEUE_LENGTH - 1) 0 2 0 4 1 two_ranks = Done st' (1 + 3) /\
    0 <= index <= 2 /\ 0 <= i <= j /\ j <= 4 + 1 /\
    _calc_queue st' (1 + 1) = mkTask 0 (index - 1) 0 (i - 1) /\
    _calc_queue st' (1 + 2) = mkTask index index i (j - 1) /\
    _calc_queue st' (1 + 3) = mkTask (index + 1) 2 j 4 /\
    (forall q, 0 <= q < i ->
       _ask two_ranks q < index - 0 + 1 /\
       _ask st' q = _ask two_ranks q) /\
    (forall q, i <= q < j ->
       _ask two_ranks q = index - 0 + 1 /\
       _ask st' q = 1) /\
    (forall q, j <= q <= 4 ->
       index - 0 + 1 < _ask two_ranks q /\
       _ask st' q = _ask two_ranks q - (index - 0 + 1)) /\
    (forall q, q < 0 \/ 4 < q ->
       _ask st' q = _ask two_ranks q) /\
    _ans st' = _ans two_ranks.
Proof.
  apply (select_splits_the_tags 100 two_ranks 0 2 0 4 1).
  - lia.
  - reflexivity.
  - lia.
  - lia.
  - intros q Hq. unfold two_ranks. cbn [_ask with_ask]. destruct (q <? 1); lia.
  - intros q q' Hq Hq'. unfold two_ranks. cbn [_ask with_ask].
    destruct (Z.ltb_spec q 1), (Z.ltb_spec q' 1); lia.
  - lia.
  - vm_compute. reflexivity.
  - vm_compute. lia.
Defined.

(** ** The ring buffer after any number of [set] *)



(** ** The number and rate counters *)

Lemma wrap_u64_add_l a b : wrap_u64 (wrap_u64 a + b) = wrap_u64 (a + b).
Proof. unfold wrap_u64. apply Zplus_mod_idemp_l. Qed.

Lemma wrap_u64_id z : is_u64 z -> wrap_u64 z = z.
Proof. intros H. apply wrap_u64_small. exact H. Qed.

Lemma number_times_increment k : forall c,
  times k Number.increment c
    = Done (Number.mk (if (k =? 0)%nat then Number._val c
                       else wrap_u64 (Number._val c + Z.of_nat k))) tt.
Proof.
  induction k as [|k IH]; intros c.
  - destruct c. reflexivity.
  - cbn [times]. unfold bind at 1. unfold Number.increment at 1. rewrite IH.
    cbn [Number._val Nat.eqb]. do 2 f_equal. destruct k as [|k'].
    + cbn [Nat.eqb]. reflexivity.
    + cbn [Nat.eqb]. rewrite wrap_u64_add_l. f_equal. lia.
Qed.

(** * The number counter and the rate counter *)

(** ** [perf_counter_number] *)

(** X16.  The number counter counts modulo [2 ^ 64]: two [add] compose into
    one and commute, [increment] is [add(1)], [decrement] is
    [add(2 ^ 64 - 1)], and [increment] and [decrement] undo each other on
    every value of [_val], also across the wrap between [2 ^ 64 - 1] and
    [0]. *)
Theorem number_counter_arithmetic (c : Number.perf_counter_number) (a b : Z) :
  is_u64 (Number._val c) ->
  (Number.add a ;; Number.add b) c = Number.add (wrap_u64 (a + b)) c /\
  (Number.add a ;; Number.add b) c = (Number.add b ;; Number.add a) c /\
  Number.increment c = Number.add 1 c /\
  Number.decrement c = Number.add (2 ^ 64 - 1) c /\
  (Number.increment ;; Number.decrement) c = Done c tt /\
  (Number.decrement ;; Number.increment) c = Done c tt.
Proof.
  intros Hc. destruct c as [v]. cbn [Number._val] in Hc.
  unfold bind, Number.add, Number.increment, Number.decrement. cbn [Number._val].
  split_ands; do 2 f_equal.
  - rewrite wrap_u64_add_l. unfold wrap_u64. rewrite Zplus_mod_idemp_r. f_equal. lia.
  - rewrite !wrap_u64_add_l. f_equal. lia.
  - unfold wrap_u64. rewrite <- (Z_mod_plus_full (v - 1) 1 (2 ^ 64)). f_equal. lia.
  - replace (wrap_u64 (v + 1) - 1) with (wrap_u64 (v + 1) + -1) by lia.
    rewrite wrap_u64_add_l. replace (v + 1 + -1) with v by lia. apply wrap_u64_id. exact Hc.
  - rewrite wrap_u64_add_l. replace (v - 1 + 1) with v by lia. apply wrap_u64_id. exact Hc.
Qed.

Lemma number_counter_arithmetic_witness :
  (Number.add 7 ;; Number.add 8) (Number.mk (2 ^ 64 - 1))
    = Number.add (wrap_u64 (7 + 8)) (Number.mk (2 ^ 64 - 1)) /\
  (Number.add 7 ;; Number.add 8) (Number.mk (2 ^ 64 - 1))
    = (Number.add 8 ;; Number.add 7) (Number.mk (2 ^ 64 - 1)) /\
  Number.increment (Number.mk (2 ^ 64 - 1)) = Number.add 1 (Number.mk (2 ^ 64 - 1)) /\
  Number.decrement (Number.mk (2 ^ 64 - 1))
    = Number.add (2 ^ 64 - 1) (Number.mk (2 ^ 64 - 1)) /\
  (Number.increment ;; Number.decrement) (Number.mk (2 ^ 64 - 1))
    = Done (Number.mk (2 ^ 64 - 1)) tt /\
  (Number.decrement ;; Number.increment) (Number.mk (2 ^ 64 - 1))
    = Done (Number.mk (2 ^ 64 - 1)) tt.
Proof.
  apply (number_counter_arithmetic (Number.mk (2 ^ 64 - 1)) 7 8).
  vm_compute. split; [discriminate | reflexivity].
Defined.

(** X17.  A new number counter that is incremented [k] times reads [k]
    modulo [2 ^ 64], converted to [double]: exactly [k] for [k < 2 ^ 53].
    [get_percentile] returns the same for every tag, inside the enumeration
    or not, and neither read changes the counter. *)
Theorem number_counter_reads_its_count (k : nat) (type : Z) :
  (times k Number.increment ;; Number.get_value) Number.init
    = Done (Number.mk (wrap_u64 (Z.of_nat k))) (u64_to_double (wrap_u64 (Z.of_nat k))) /\
  (times k Number.increment ;; Number.get_percentile type) Number.init
    = (times k Number.increment ;; Number.get_value) Number.init /\
  (Z.of_nat k < 2 ^ 53 ->
   (times k Number.increment ;; Number.get_value) Number.init
     = Done (Number.mk (Z.of_nat k)) (Z.of_nat k)).
Proof.
  assert (E : times k Number.increment Number.init
              = Done (Number.mk (wrap_u64 (Z.of_nat k))) tt).
  { rewrite number_times_increment. cbn [Number._val Number.init].
    destruct k; [reflexivity|]. cbn [Nat.eqb]. reflexivity. }
  split; [|split].
  - rewrite (bind_eq _ E). reflexivity.
  - reflexivity.
  - intros Hk. rewrite (bind_eq _ E). unfold Number.get_value. cbn [Number._val].
    rewrite wrap_u64_id by (unfold is_u64; lia).
    rewrite u64_to_double_small by exact Hk. reflexivity.
Qed.

(** ** The conversion of a [uint64_t] to binary64 *)

Lemma shr_1_m mrs :
  0 <= shr_m mrs -> shr_m (shr_1 mrs) = shr_m mrs / 2 /\ 0 <= shr_m (shr_1 mrs).
Proof.
  destruct mrs as [m r s]. cbn [shr_m]. intros H.
  destruct m as [|p|p]; [| |lia].
  - cbn. split; [reflexivity | lia].
  - destruct p as [p|p|]; cbn [shr_1 shr_m].
    + split; [|lia]. apply Z.div_unique with 1; lia.
    + split; [|lia]. apply Z.div_unique with 0; lia.
    + split; [reflexivity | lia].
Qed.

Lemma iter_shr_1_m n : forall mrs,
  0 <= shr_m mrs ->
  shr_m (iter_pos shr_1 n mrs) = shr_m mrs / 2 ^ Zpos n /\
  0 <= shr_m (iter_pos shr_1 n mrs).
Proof.
  induction n as [n IH | n IH |]; intros mrs H; cbn [iter_pos].
  - destruct (shr_1_m mrs H) as [E1 N1].
    destruct (IH _ N1) as [E2 N2]. destruct (IH _ N2) as [E3 N3].
    split; [|exact N3]. rewrite E3, E2, E1.
    rewrite !Z.div_div by lia. f_equal.
    rewrite (Pos2Z.inj_xI n), Z.pow_add_r, Z.pow_twice_r, Z.pow_1_r by lia. lia.
  - destruct (IH _ H) as [E2 N2]. destruct (IH _ N2) as [E3 N3].
    split; [|exact N3]. rewrite E3, E2.
    rewrite !Z.div_div by lia. f_equal.
    rewrite (Pos2Z.inj_xO n), Z.pow_twice_r. reflexivity.
  - destruct (shr_1_m mrs H) as [E1 N1]. split; [|exact N1]. rewrite E1. reflexivity.
Qed.

Lemma round_nearest_even_range m l :
  m <= round_nearest_even m l <= m + 1.
Proof.
  unfold round_nearest_even. destruct l as [|[]]; try lia. destruct (Z.even m); lia.
Qed.

Lemma shr_fexp_carry e :
  -1074 <= e ->
  shr_fexp prec emax (2 ^ 53) e loc_Exact = (Build_shr_record (2 ^ 52) false false, e + 1).
Proof.
  intros He. unfold shr_fexp.
  replace (Zdigits2 (2 ^ 53)) with 54 by reflexivity.
  unfold fexp, SpecFloat.emin, prec, emax.
  replace (Z.max (54 + e - 53) (3 - 1024 - 53) - e) with 1 by lia.
  reflexivity.
Qed.

Lemma binary_round_aux_normal s m e :
  2 ^ 52 <= Zpos m < 2 ^ 53 -> -1074 <= e <= 971 ->
  binary_round_aux prec emax s (Zpos m) e loc_Exact = S754_finite s m e.
Proof.
  intros Hm He. unfold binary_round_aux.
  rewrite shr_fexp_normal by lia. cbn [shr_m loc_of_shr_record round_nearest_even].
  rewrite shr_fexp_normal by lia. cbn [shr_m].
  unfold emax, prec. destruct (Z.leb_spec e (1024 - 53)); [reflexivity | lia].
Qed.

Lemma iter_xO_shift n : forall p, Zpos (Pos.iter xO p n) = Zpos p * 2 ^ Zpos n.
Proof.
  induction n as [|n IH] using Pos.peano_ind; intros p.
  - cbn [Pos.iter]. rewrite Z.pow_1_r. lia.
  - rewrite Pos.iter_succ, Pos2Z.inj_xO, IH, Pos2Z.inj_succ, Z.pow_succ_r by lia. lia.
Qed.

(** Every non-zero [uint64_t] converts to a positive normal number. *)
Lemma binary_normalize_u64 v :
  0 < v < 2 ^ 64 ->
  exists m e,
    binary_normalize prec emax v 0 false = S754_finite false m e /\
    2 ^ 52 <= Zpos m < 2 ^ 53 /\ -52 <= e <= 12.
Proof.
  intros Hv. destruct v as [|p|p]; try lia. cbn [binary_normalize].
  pose proof (digits2_pos_bounds p) as Hd.
  set (d := Zpos (digits2_pos p)) in *.
  assert (Hd1 : 1 <= d) by (unfold d; lia).
  assert (Hd64 : d <= 64).
  { destruct (Z.le_gt_cases d 64) as [H | H]; [exact H|].
    assert (2 ^ 64 <= 2 ^ (d - 1)) by (apply Z.pow_le_mono_r; lia). lia. }
  unfold binary_round, shl_align. fold d.
  unfold fexp, SpecFloat.emin, prec, emax.
  destruct (Z.lt_trichotomy d 53) as [Hlt | [Heq | Hgt]].
  - (* fewer than 53 digits: the mantissa is shifted up *)
    replace (Z.max (d + 0 - 53) (3 - 1024 - 53) - 0) with (d - 53) by lia.
    destruct (d - 53) as [|n|n] eqn:En; try lia.
    assert (Hz : Zpos (Pos.iter xO p n) = Zpos p * 2 ^ (53 - d)).
    { rewrite iter_xO_shift. f_equal. f_equal. lia. }
    assert (Hr : 2 ^ 52 <= Zpos (Pos.iter xO p n) < 2 ^ 53).
    { rewrite Hz.
      replace (2 ^ 52) with (2 ^ (d - 1) * 2 ^ (53 - d))
        by (rewrite <- Z.pow_add_r by lia; f_equal; lia).
      replace (2 ^ 53) with (2 ^ d * 2 ^ (53 - d))
        by (rewrite <- Z.pow_add_r by lia; f_equal; lia).
      assert (0 < 2 ^ (53 - d)) by (apply Z.pow_pos_nonneg; lia).
      nia. }
    exists (Pos.iter xO p n), (Z.max (d + 0 - 53) (3 - 1024 - 53)).
    split; [|split; [exact Hr | lia]].
    apply binary_round_aux_normal; [exact Hr | lia].
  - (* 53 digits *)
    replace (Z.max (d + 0 - 53) (3 - 1024 - 53) - 0) with 0 by lia.
    assert (Hp : 2 ^ 52 <= Zpos p < 2 ^ 53) by (rewrite Heq in Hd; exact Hd).
    exists p, 0. split; [|split; [exact Hp | lia]].
    apply binary_round_aux_normal; [exact Hp | lia].
  - (* more than 53 digits: the mantissa is shifted down and rounded *)
    replace (Z.max (d + 0 - 53) (3 - 1024 - 53) - 0) with (d - 53) by lia.
    destruct (d - 53) as [|n|n] eqn:En; try lia.
    unfold binary_round_aux, shr_fexp at 1. cbn [Zdigits2]. fold d.
    unfold fexp, SpecFloat.emin, prec, emax.
    replace (Z.max (d + 0 - 53) (3 - 1024 - 53) - 0) with (Zpos n) by lia.
    cbn [shr shr_record_of_loc].
    destruct (iter_shr_1_m n (Build_shr_record (Zpos p) false false)) as [Em _];
      [cbn; lia|]. cbn [shr_m] in Em.
    set (mrs := iter_pos shr_1 n (Build_shr_record (Zpos p) false false)) in *.
    assert (Hm1 : 2 ^ 52 <= shr_m mrs < 2 ^ 53).
    { rewrite Em.
      assert (Hp2 : 0 < 2 ^ Zpos n) by (apply Z.pow_pos_nonneg; lia).
      assert (E1 : 2 ^ (d - 1) = 2 ^ 52 * 2 ^ Zpos n)
        by (rewrite <- Z.pow_add_r by lia; f_equal; lia).
      assert (E2 : 2 ^ d = 2 ^ 53 * 2 ^ Zpos n)
        by (rewrite <- Z.pow_add_r by lia; f_equal; lia).
      split.
      - apply Z.div_le_lower_bound; lia.
      - apply Z.div_lt_upper_bound; lia. }
    pose proof (round_nearest_even_range (shr_m mrs) (loc_of_shr_record mrs)) as Hrne.
    set (m2 := round_nearest_even (shr_m mrs) (loc_of_shr_record mrs)) in *.
    destruct (Z.eq_dec m2 (2 ^ 53)) as [E53 | N53].
    + rewrite E53. fold (prec) (emax) (SpecFloat.emin prec emax).
      change (shr_fexp 53 1024 (2 ^ 53) (0 + Zpos n) loc_Exact)
        with (shr_fexp prec emax (2 ^ 53) (0 + Zpos n) loc_Exact).
      rewrite shr_fexp_carry by lia. cbn [shr_m].
      change (2 ^ 52) with 4503599627370496. cbv iota. unfold emax, prec.
      exists 4503599627370496%positive, (0 + Zpos n + 1).
      split; [|split; [cbn; lia | lia]].
      destruct (Z.leb_spec (0 + Zpos n + 1) (1024 - 53)); [reflexivity | lia].
    + change (shr_fexp 53 1024 m2 (0 + Zpos n) loc_Exact)
        with (shr_fexp prec emax m2 (0 + Zpos n) loc_Exact).
      rewrite shr_fexp_normal by lia. cbn [shr_m].
      destruct m2 as [|q|q] eqn:Eq2; try lia. unfold emax, prec.
      exists q, (0 + Zpos n). split; [|split; lia].
      destruct (Z.leb_spec (0 + Zpos n) (1024 - 53)); [reflexivity | lia].
Qed.

Lemma valid_binary_normal s m e :
  2 ^ 52 <= Zpos m < 2 ^ 53 -> -1074 <= e <= 971 ->
  valid_binary (S754_finite s m e) = true.
Proof.
  intros Hm He. unfold SpecFloat.valid_binary, bounded, canonical_mantissa.
  pose proof (Zdigits2_normal (Zpos m) Hm) as Hd. cbn [Zdigits2] in Hd. rewrite Hd.
  unfold fexp, SpecFloat.emin, prec, emax.
  apply andb_true_intro. split; [apply Z.eqb_eq | apply Z.leb_le]; lia.
Qed.

Lemma Prim2SF_u64_to_float v :
  0 < v < 2 ^ 64 ->
  exists m e, Prim2SF (u64_to_float v) = S754_finite false m e.
Proof.
  intros Hv. destruct (binary_normalize_u64 v Hv) as (m & e & E & Hm & He).
  exists m, e. unfold u64_to_float. rewrite E.
  apply Prim2SF_SF2Prim. apply valid_binary_normal; lia.
Qed.

Lemma float_of_spec f x : Prim2SF f = x -> f = SF2Prim x.
Proof. intros <-. symmetry. apply SF2Prim_Prim2SF. Qed.

(** [0.0 / x] for a positive finite [x], and [x / 0.0]. *)
Lemma zero_div_u64 v :
  0 < v < 2 ^ 64 -> PrimFloat.div 0 (u64_to_float v) = 0%float.
Proof.
  intros Hv. destruct (Prim2SF_u64_to_float v Hv) as (m & e & E).
  apply Prim2SF_inj. rewrite FloatAxioms.div_spec, E. reflexivity.
Qed.

Lemma u64_div_zero v :
  0 < v < 2 ^ 64 -> PrimFloat.div (u64_to_float v) 0 = infinity.
Proof.
  intros Hv. destruct (Prim2SF_u64_to_float v Hv) as (m & e & E).
  apply Prim2SF_inj. rewrite FloatAxioms.div_spec, E. reflexivity.
Qed.

(** ** [perf_counter_rate] *)

(** X18.  A read of the rate counter resets it: [get_value] leaves [_val = 0]
    and [qts = now] whatever the counter held, so of two reads with no update
    between them the second returns [0.0], for every pair of distinct clock
    values (also when the clock went back). *)
Theorem rate_read_resets_the_count (c : Rate.perf_counter_rate) (t1 t2 : Z) :
  is_u64 t1 -> is_u64 t2 -> t1 <> t2 ->
  (exists r1, Rate.get_value t1 c = Done (Rate.mk 0 t1) r1) /\
  (Rate.get_value t1 ;; Rate.get_value t2) c = Done (Rate.mk 0 t2) 0%float.
Proof.
  intros H1 H2 Hne. split; [eexists; reflexivity|].
  unfold bind, Rate.get_value. cbn [Rate._val Rate.qts]. f_equal.
  assert (Hw : 0 < wrap_u64 (t2 - t1) < 2 ^ 64).
  { unfold wrap_u64, is_u64 in *.
    pose proof (Z.mod_pos_bound (t2 - t1) (2 ^ 64) ltac:(lia)).
    assert ((t2 - t1) mod 2 ^ 64 <> 0); [|lia].
    intros E. apply Z.mod_divide in E; [|lia]. destruct E as [q E].
    assert (q = 0) by nia. subst q. lia. }
  change (u64_to_float 0) with 0%float. rewrite (zero_div_u64 _ Hw). reflexivity.
Qed.

Lemma rate_read_resets_the_count_witness :
  (exists r1, Rate.get_value 20 (Rate.mk 3 10) = Done (Rate.mk 0 20) r1) /\
  (Rate.get_value 20 ;; Rate.get_value 15) (Rate.mk 3 10) = Done (Rate.mk 0 15) 0%float.
Proof.
  apply (rate_read_resets_the_count (Rate.mk 3 10) 20 15).
  - vm_compute. split; [discriminate | reflexivity].
  - vm_compute. split; [discriminate | reflexivity].
  - discriminate.
Defined.

(** X19.  A read at the clock value of the previous read ([now = qts], an
    interval of 0 ns) divides by zero: [get_value] returns NaN when nothing
    was counted and [+infinity] otherwise. *)
Theorem rate_read_at_the_same_instant (c : Rate.perf_counter_rate) :
  is_u64 (Rate._val c) ->
  Rate.get_value (Rate.qts c) c
    = Done (Rate.mk 0 (Rate.qts c)) (if Rate._val c =? 0 then nan else infinity).
Proof.
  intros Hv. unfold Rate.get_value. rewrite Z.sub_diag. f_equal.
  change (u64_to_float (wrap_u64 0)) with 0%float.
  destruct (Z.eqb_spec (Rate._val c) 0) as [E | Hne].
  - rewrite E. reflexivity.
  - rewrite u64_div_zero by (unfold is_u64 in Hv; lia). reflexivity.
Qed.

Lemma rate_read_at_the_same_instant_witness :
  Rate.get_value (Rate.qts (Rate.mk 3 10)) (Rate.mk 3 10)
    = Done (Rate.mk 0 (Rate.qts (Rate.mk 3 10)))
           (if Rate._val (Rate.mk 3 10) =? 0 then nan else infinity).
Proof.
  apply (rate_read_at_the_same_instant (Rate.mk 3 10)).
  vm_compute. split; [discriminate | reflexivity].
Defined.

(** * The timer of the percentile counter and the dispatcher *)

(** X20.  One tick of the timer.  With an error code, [on_timer] stops at
    [dassert(false, "on _timer error!!!")]: nothing is recomputed and the
    timer is not armed again.  Without one, it runs [calc] (the buffer and the
    cursor stay as they are, the answers become the percentiles of the
    snapshot when there are samples) and then arms exactly one new wait, with
    the interval of the configuration. *)
Theorem timer_tick_recomputes_and_rearms (fuel : nat) (tc : timed_counter) (ec : Z) :
  0 <= _tail (core tc) ->
  (Z.to_nat (3 * Z.min (_tail (core tc)) MAX_QUEUE_LENGTH) + 10 < fuel)%nat ->
  (ec <> 0 -> on_timer fuel ec tc = Aborted tc "on _timer error!!!") /\
  exists c',
    calc fuel (core tc) = Done c' tt /\
    on_timer fuel 0 tc
      = Done (mkTimed c' (_counter_computation_interval_seconds tc)
                (timer_calls tc ++
                 [timer_new;
                  expires_from_now (_counter_computation_interval_seconds tc);
                  async_wait])) tt /\
    _tail c' = _tail (core tc) /\ _queue c' = _queue (core tc) /\
    (0 < _tail (core tc) ->
     forall q, 0 <= q <= 4 -> _ans c' q = percentile (snapshot (core tc)) q).
Proof.
  intros Ht Hfuel. split.
  - intros Hec. unfold on_timer. destruct (Z.eqb_spec ec 0); [contradiction | reflexivity].
  - assert (Hc : exists c', calc fuel (core tc) = Done c' tt /\
                   _tail c' = _tail (core tc) /\ _queue c' = _queue (core tc) /\
                   (0 < _tail (core tc) ->
                    forall q, 0 <= q <= 4 -> _ans c' q = percentile (snapshot (core tc)) q)).
    { destruct (Z.eq_dec (_tail (core tc)) 0) as [E0 | Hne].
      - exists (core tc). split; [unfold calc; rewrite E0; reflexivity|].
        split; [reflexivity|]. split; [reflexivity|]. intros; lia.
      - destruct (calc_on_snapshot fuel (core tc) ltac:(lia) Hfuel)
          as (c' & Hc & Ht' & Hq' & Ha).
        exists c'. auto. }
    destruct Hc as (c' & Hc & Ht' & Hq' & Ha). exists c'.
    split; [exact Hc|]. split; [|auto].
    unfold on_timer. cbn [Z.eqb]. unfold bind at 1, lift_core. rewrite Hc.
    unfold arm_timer, bind, call_timer.
    cbn [core _counter_computation_interval_seconds timer_calls].
    rewrite <- !app_assoc. reflexivity.
Qed.

Lemma timer_tick_recomputes_and_rearms_witness :
  (7 <> 0 -> on_timer 100 7 (mkTimed three_samples 30 [])
             = Aborted (mkTimed three_samples 30 []) "on _timer error!!!") /\
  exists c',
    calc 100 (core (mkTimed three_samples 30 [])) = Done c' tt /\
    on_timer 100 0 (mkTimed three_samples 30 [])
      = Done (mkTimed c' (_counter_computation_interval_seconds (mkTimed three_samples 30 []))
                (timer_calls (mkTimed three_samples 30 []) ++
                 [timer_new;
                  expires_from_now
                    (_counter_computation_interval_seconds (mkTimed three_samples 30 []));
                  async_wait])) tt /\
    _tail c' = _tail (core (mkTimed three_samples 30 [])) /\
    _queue c' = _queue (core (mkTimed three_samples 30 [])) /\
    (0 < _tail (core (mkTimed three_samples 30 [])) ->
     forall q, 0 <= q <= 4 ->
               _ans c' q = percentile (snapshot (core (mkTimed three_samples 30 []))) q).
Proof.
  apply (timer_tick_recomputes_and_rearms 100 (mkTimed three_samples 30 []) 7).
  - vm_compute. discriminate.
  - vm_compute. lia.
Defined.


(** * The duplication sync timer *)

Section DupSyncProperties.

Context {rpc_address duplication_confirm_entry duplication_entry : Type}.
Variables (PS_PRIMARY NS_Disconnected ERR_OK : Z).

Local Abbreviation timer :=
  (@DupSync.duplication_sync_timer rpc_address duplication_confirm_entry duplication_entry).
Local Abbreviation stub_t := (@DupSync.replica_stub rpc_address duplication_confirm_entry).
Local Abbreviation replica_t := (@DupSync.replica duplication_confirm_entry).

Lemma gpid_eqb_eq a b : DupSync.gpid_eqb a b = true <-> a = b.
Proof.
  destruct a as [a1 a2], b as [b1 b2]. unfold DupSync.gpid_eqb.
  cbn [DupSync.get_app_id DupSync.get_partition_index].
  rewrite andb_true_iff, !Z.eqb_eq. split.
  - intros [-> ->]. reflexivity.
  - intros E. injection E as -> ->. auto.
Qed.

Lemma collect_confirms_count (rs : list replica_t) : forall confirms acc,
  wrap_u64 acc = acc ->
  snd (DupSync.collect_confirms rs confirms acc)
    = wrap_u64 (acc + DupSync.total_pending rs).
Proof.
  induction rs as [|r rest IH]; intros confirms acc Hacc.
  - cbn. rewrite Z.add_0_r. symmetry. exact Hacc.
  - cbn [DupSync.collect_confirms]. rewrite IH.
    + rewrite wrap_u64_add_l. f_equal. unfold DupSync.total_pending. cbn [map fold_right]. lia.
    + unfold wrap_u64. apply Z.mod_mod. lia.
Qed.

Lemma collect_confirms_sound (rs : list replica_t) : forall confirms acc g l,
  fst (DupSync.collect_confirms rs confirms acc) g = Some l ->
  confirms g = Some l \/
  (l <> [] /\ exists r, In r rs /\ DupSync.get_gpid r = g /\
                        DupSync.get_duplication_confirms_to_update r = l).
Proof.
  induction rs as [|r rest IH]; intros confirms acc g l H.
  - left. exact H.
  - cbn [DupSync.collect_confirms] in H. apply IH in H.
    destruct H as [H | (Hl & r' & Hin & Hg & Hc)].
    + destruct (DupSync.get_duplication_confirms_to_update r) as [|c cs] eqn:Ec.
      * left. exact H.
      * destruct (DupSync.gpid_eqb g (DupSync.get_gpid r)) eqn:Eg.
        -- right. injection H as <-. split; [discriminate|].
           exists r. split; [left; reflexivity|]. split; [|exact Ec].
           symmetry. apply gpid_eqb_eq. exact Eg.
        -- left. exact H.
    + right. split; [exact Hl|]. exists r'. split; [right; exact Hin | auto].
Qed.

Lemma collect_confirms_keeps (rs : list replica_t) : forall confirms acc g l,
  confirms g = Some l ->
  fst (DupSync.collect_confirms rs confirms acc) g = Some l \/
  exists r, In r rs /\ DupSync.get_gpid r = g /\
            DupSync.get_duplication_confirms_to_update r <> [] /\
            fst (DupSync.collect_confirms rs confirms acc) g
              = Some (DupSync.get_duplication_confirms_to_update r).
Proof.
  induction rs as [|r rest IH]; intros confirms acc g l H.
  - left. exact H.
  - cbn [DupSync.collect_confirms].
    destruct (DupSync.get_duplication_confirms_to_update r) as [|c cs] eqn:Ec.
    + destruct (IH confirms (wrap_u64 (acc + DupSync.get_pending_mutations_count r)) g l H)
        as [E | (r' & Hin & Hg & Hne & E)].
      * left. exact E.
      * right. exists r'. split; [right; exact Hin | auto].
    + destruct (DupSync.gpid_eqb g (DupSync.get_gpid r)) eqn:Eg.
      * destruct (IH (fun g0 => if DupSync.gpid_eqb g0 (DupSync.get_gpid r)
                                then Some (c :: cs) else confirms g0)
                     (wrap_u64 (acc + DupSync.get_pending_mutations_count r)) g (c :: cs))
          as [E | (r' & Hin & Hg & Hne & E)].
        -- cbv beta. rewrite Eg. reflexivity.
        -- right. exists r. split; [left; reflexivity|].
           split; [symmetry; apply gpid_eqb_eq; exact Eg|].
           rewrite Ec. split; [discriminate | exact E].
        -- right. exists r'. split; [right; exact Hin | auto].
      * destruct (IH (fun g0 => if DupSync.gpid_eqb g0 (DupSync.get_gpid r)
                                then Some (c :: cs) else confirms g0)
                     (wrap_u64 (acc + DupSync.get_pending_mutations_count r)) g l)
          as [E | (r' & Hin & Hg & Hne & E)].
        -- cbv beta. rewrite Eg. exact H.
        -- left. exact E.
        -- right. exists r'. split; [right; exact Hin | auto].
Qed.

Lemma collect_confirms_complete (rs : list replica_t) : forall confirms acc r,
  In r rs -> DupSync.get_duplication_confirms_to_update r <> [] ->
  exists r', In r' rs /\ DupSync.get_gpid r' = DupSync.get_gpid r /\
             DupSync.get_duplication_confirms_to_update r' <> [] /\
             fst (DupSync.collect_confirms rs confirms acc) (DupSync.get_gpid r)
               = Some (DupSync.get_duplication_confirms_to_update r').
Proof.
  induction rs as [|r0 rest IH]; intros confirms acc r Hin Hne; [contradiction|].
  destruct Hin as [-> | Hin].
  - cbn [DupSync.collect_confirms].
    destruct (DupSync.get_duplication_confirms_to_update r) as [|c cs] eqn:Ec; [congruence|].
    destruct (collect_confirms_keeps rest
                (fun g0 => if DupSync.gpid_eqb g0 (DupSync.get_gpid r)
                           then Some (c :: cs) else confirms g0)
                (wrap_u64 (acc + DupSync.get_pending_mutations_count r))
                (DupSync.get_gpid r) (c :: cs))
      as [E | (r' & Hin' & Hg & Hne' & E)].
    + cbv beta. rewrite (proj2 (gpid_eqb_eq _ _) eq_refl). reflexivity.
    + exists r. split; [left; reflexivity|]. split; [reflexivity|].
      rewrite Ec. split; [discriminate | exact E].
    + exists r'. split; [right; exact Hin' | auto].
  - cbn [DupSync.collect_confirms].
    destruct (IH (match DupSync.get_duplication_confirms_to_update r0 with
                  | [] => confirms
                  | _ :: _ => fun g => if DupSync.gpid_eqb g (DupSync.get_gpid r0)
                                       then Some (DupSync.get_duplication_confirms_to_update r0)
                                       else confirms g
                  end)
                 (wrap_u64 (acc + DupSync.get_pending_mutations_count r0)) r Hin Hne)
      as (r' & Hin' & Hg & Hne' & E).
    exists r'. split; [right; exact Hin' | auto].
Qed.

Lemma get_all_primaries_spec (stub : stub_t) r :
  In r (DupSync.get_all_primaries PS_PRIMARY stub) <->
  In r (DupSync.get_all_replicas stub) /\ DupSync.status r = PS_PRIMARY.
Proof.
  unfold DupSync.get_all_primaries, DupSync.get_all_replicas.
  rewrite !in_map_iff. split.
  - intros (kv & <- & Hin). apply filter_In in Hin. destruct Hin as [Hin Hs].
    split; [exists kv; auto | apply Z.eqb_eq; exact Hs].
  - intros [(kv & <- & Hin) Hs]. exists kv. split; [reflexivity|].
    apply filter_In. split; [exact Hin | apply Z.eqb_eq; exact Hs].
Qed.

Lemma update_each_calls (rs : list replica_t) dup_map : forall (t : timer),
  DupSync.update_each rs dup_map t
    = Done (DupSync.mkTimer (DupSync._rpc_task t) (DupSync._timer_task t)
              (DupSync.calls t ++
               map (fun r => DupSync.update_duplication_map_of r
                               (DupSync.map_of_app dup_map
                                  (DupSync.get_app_id (DupSync.get_gpid r)))) rs)) tt.
Proof.
  induction rs as [|r rest IH]; intros t.
  - cbn. rewrite app_nil_r. destruct t; reflexivity.
  - cbn [DupSync.update_each map]. unfold bind at 1, DupSync.map_of_app at 1.
    destruct (dup_map (DupSync.get_app_id (DupSync.get_gpid r))) as [m|];
      unfold DupSync.emit at 1; rewrite IH;
      cbn [DupSync._rpc_task DupSync._timer_task DupSync.calls];
      rewrite <- app_assoc; reflexivity.
Qed.

Lemma run_when_idle (stub : stub_t) (task : option Z) (t : timer) :
  DupSync._rpc_task t = None -> DupSync._state stub <> NS_Disconnected ->
  exists confirms,
    DupSync.run PS_PRIMARY NS_Disconnected stub task t
      = Done (DupSync.mkTimer task (DupSync._timer_task t)
                (DupSync.calls t ++
                 [DupSync.counter_set
                    (wrap_u64 (DupSync.total_pending
                                 (DupSync.get_all_primaries PS_PRIMARY stub)));
                  DupSync.ddebug "duplication_sync to meta({})";
                  DupSync.rpc_call (DupSync.get_meta_server_address stub)
                    (DupSync.mkRequest (DupSync.primary_address stub) confirms)])) tt /\
    (forall g l, confirms g = Some l ->
       l <> [] /\
       exists r, In r (DupSync.get_all_replicas stub) /\ DupSync.status r = PS_PRIMARY /\
                 DupSync.get_gpid r = g /\
                 DupSync.get_duplication_confirms_to_update r = l) /\
    (forall r, In r (DupSync.get_all_replicas stub) -> DupSync.status r = PS_PRIMARY ->
       DupSync.get_duplication_confirms_to_update r <> [] ->
       exists l, confirms (DupSync.get_gpid r) = Some l /\ l <> []).
Proof.
  intros Hrpc Hconn. unfold DupSync.run. rewrite Hrpc.
  destruct (Z.eqb_spec (DupSync._state stub) NS_Disconnected) as [E | _]; [contradiction|].
  destruct (DupSync.collect_confirms (DupSync.get_all_primaries PS_PRIMARY stub)
              (fun _ => None) 0) as [confirms cnt] eqn:Ec.
  exists confirms. split; [|split].
  - unfold bind, DupSync.emit, DupSync.set_rpc_task.
    cbn [DupSync._rpc_task DupSync._timer_task DupSync.calls].
    rewrite <- !app_assoc. cbn [app].
    replace cnt with (wrap_u64 (DupSync.total_pending
                                  (DupSync.get_all_primaries PS_PRIMARY stub)));
      [reflexivity|].
    change cnt with (snd (confirms, cnt)). rewrite <- Ec.
    rewrite collect_confirms_count by reflexivity. reflexivity.
  - intros g l Hl. change confirms with (fst (confirms, cnt)) in Hl. rewrite <- Ec in Hl.
    apply collect_confirms_sound in Hl.
    destruct Hl as [Hl | (Hne & r & Hin & Hg & Hc)]; [discriminate|].
    split; [exact Hne|]. apply get_all_primaries_spec in Hin. destruct Hin as [Hin Hs].
    exists r. auto.
  - intros r Hin Hs Hne.
    destruct (collect_confirms_complete (DupSync.get_all_primaries PS_PRIMARY stub)
                (fun _ => None) 0 r) as (r' & _ & _ & Hne' & E).
    + apply get_all_primaries_spec. auto.
    + exact Hne.
    + rewrite Ec in E. cbn [fst] in E. eexists. split; [exact E | exact Hne'].
Qed.


(** X23.  No two syncs are in flight.  A [run] that finds [_rpc_task] set, or
    the stub disconnected, writes one line to the log and does nothing else:
    no counter is set, no request is sent, no field changes.  So after a [run]
    that got a task from [rpc.call], every further [run] is of that kind, with
    whatever stub, until the reply clears [_rpc_task]. *)
Theorem run_keeps_one_sync_in_flight (stub stub' : stub_t) (task' : option Z) (k : Z)
    (t : timer) :
  (forall k0, DupSync._rpc_task t = Some k0 ->
     DupSync.run PS_PRIMARY NS_Disconnected stub task' t
       = Done (DupSync.mkTimer (Some k0) (DupSync._timer_task t)
                 (DupSync.calls t ++
                  [DupSync.ddebug "a duplication sync is already ongoing"])) tt) /\
  (DupSync._rpc_task t = None -> DupSync._state stub = NS_Disconnected ->
   DupSync.run PS_PRIMARY NS_Disconnected stub task' t
     = Done (DupSync.mkTimer None (DupSync._timer_task t)
               (DupSync.calls t ++
                [DupSync.ddebug "stop this round of duplication sync because this server is disconnected from meta server"])) tt) /\
  (DupSync._rpc_task t = None -> DupSync._state stub <> NS_Disconnected ->
   exists t1,
     DupSync.run PS_PRIMARY NS_Disconnected stub (Some k) t = Done t1 tt /\
     DupSync._rpc_task t1 = Some k /\
     (DupSync.run PS_PRIMARY NS_Disconnected stub (Some k) ;;
      DupSync.run PS_PRIMARY NS_Disconnected stub' task') t
       = Done (DupSync.mkTimer (Some k) (DupSync._timer_task t1)
                 (DupSync.calls t1 ++
                  [DupSync.ddebug "a duplication sync is already ongoing"])) tt).
Proof.
  split; [|split].
  - intros k0 Hk. unfold DupSync.run. rewrite Hk. unfold DupSync.emit. rewrite Hk.
    reflexivity.
  - intros Hn Hd. unfold DupSync.run. rewrite Hn.
    destruct (Z.eqb_spec (DupSync._state stub) NS_Disconnected) as [_ | N];
      [|contradiction].
    unfold DupSync.emit. rewrite Hn. reflexivity.
  - intros Hn Hc.
    destruct (run_when_idle stub (Some k) t Hn Hc) as (confirms & Hr & _).
    eexists. split; [exact Hr|]. split; [reflexivity|].
    rewrite (bind_eq _ Hr). reflexivity.
Qed.

Lemma reply_outcome (stub : stub_t) (e : Z)
    (resp : @DupSync.duplication_sync_response duplication_entry) (t : timer) :
  exists out,
    DupSync.on_duplication_sync_reply ERR_OK stub e resp t
      = Done (DupSync.mkTimer None (DupSync._timer_task t) (DupSync.calls t ++ out)) tt /\
    (e <> ERR_OK -> out = [DupSync.derror "on_duplication_sync_reply: err({})" e]) /\
    (e = ERR_OK -> DupSync.err resp <> ERR_OK ->
     out = [DupSync.derror "on_duplication_sync_reply: err({})" (DupSync.err resp)]) /\
    (e = ERR_OK -> DupSync.err resp = ERR_OK ->
     out = map (fun r => DupSync.update_duplication_map_of r
                           (DupSync.map_of_app (DupSync.dup_map resp)
                              (DupSync.get_app_id (DupSync.get_gpid r))))
               (DupSync.get_all_replicas stub)).
Proof.
  unfold DupSync.on_duplication_sync_reply.
  destruct (Z.eqb_spec e ERR_OK) as [He | He];
    destruct (Z.eqb_spec (DupSync.err resp) ERR_OK) as [Hr | Hr]; cbn [andb negb].
  - rewrite (proj2 (Z.eqb_eq e ERR_OK) He). cbn [negb].
    eexists. split; [|split; [|split]]; try (intros; contradiction).
    + unfold bind at 1, DupSync.update_duplication_map. rewrite update_each_calls.
      reflexivity.
    + intros _ _. reflexivity.
  - rewrite (proj2 (Z.eqb_neq _ _) Hr). cbn [negb].
    eexists. split; [reflexivity|]. split; [|split]; try (intros; contradiction).
    intros _ _. reflexivity.
  - rewrite (proj2 (Z.eqb_neq _ _) He). cbn [negb].
    eexists. split; [reflexivity|]. split; [|split]; try (intros; contradiction).
    intros _. reflexivity.
  - rewrite (proj2 (Z.eqb_neq _ _) He). cbn [negb].
    eexists. split; [reflexivity|]. split; [|split]; try (intros; contradiction).
    intros _. reflexivity.
Qed.


(** X27.  The periodic sync goes on after every reply.  A [run] that sent a
    request holds the slot; the reply, whatever the error of the call and of
    the response, frees it; and the next [run] on a connected stub sends the
    next request. *)
Theorem sync_resumes_after_any_reply (stub stub' : stub_t) (e : Z)
    (resp : @DupSync.duplication_sync_response duplication_entry) (k k' : Z) (t : timer) :
  DupSync._rpc_task t = None ->
  DupSync._state stub <> NS_Disconnected -> DupSync._state stub' <> NS_Disconnected ->
  exists t1 t2 t3 confirms',
    DupSync.run PS_PRIMARY NS_Disconnected stub (Some k) t = Done t1 tt /\
    DupSync._rpc_task t1 = Some k /\
    DupSync.on_duplication_sync_reply ERR_OK stub e resp t1 = Done t2 tt /\
    DupSync._rpc_task t2 = None /\
    DupSync.run PS_PRIMARY NS_Disconnected stub' (Some k') t2 = Done t3 tt /\
    DupSync._rpc_task t3 = Some k' /\
    DupSync.calls t3
      = DupSync.calls t2 ++
        [DupSync.counter_set
           (wrap_u64 (DupSync.total_pending (DupSync.get_all_primaries PS_PRIMARY stub')));
         DupSync.ddebug "duplication_sync to meta({})";
         DupSync.rpc_call (DupSync.get_meta_server_address stub')
           (DupSync.mkRequest (DupSync.primary_address stub') confirms')].
Proof.
  intros Hn Hc Hc'.
  destruct (run_when_idle stub (Some k) t Hn Hc) as (confirms & Hr & _).
  destruct (reply_outcome stub e resp
              (DupSync.mkTimer (Some k) (DupSync._timer_task t)
                 (DupSync.calls t ++
                  [DupSync.counter_set
                     (wrap_u64 (DupSync.total_pending
                                  (DupSync.get_all_primaries PS_PRIMARY stub)));
                   DupSync.ddebug "duplication_sync to meta({})";
                   DupSync.rpc_call (DupSync.get_meta_server_address stub)
                     (DupSync.mkRequest (DupSync.primary_address stub) confirms)])))
    as (out & Ho & _).
  match type of Ho with
  | _ = Done ?t2 _ =>
      destruct (run_when_idle stub' (Some k') t2 eq_refl Hc') as (confirms' & Hr' & _)
  end.
  eexists _, _, _, confirms'.
  split; [exact Hr|]. split; [reflexivity|]. split; [exact Ho|]. split; [reflexivity|].
  split; [exact Hr'|]. split; [reflexivity | reflexivity].
Qed.

(** X25.  [close] cancels each task that the timer holds exactly once and
    leaves both fields null; a second [close] cancels nothing.  A timer that
    was started with the task [k] has [cancel] called on [k] by [close]. *)
Theorem close_cancels_each_task_once (t : timer) (k : Z) :
  exists t1,
    DupSync.close t = Done t1 tt /\
    DupSync._rpc_task t1 = None /\ DupSync._timer_task t1 = None /\
    DupSync.calls t1
      = DupSync.calls t ++
        DupSync.ddebug "stop duplication sync" ::
        (match DupSync._rpc_task t with Some a => [DupSync.cancel a] | None => [] end) ++
        (match DupSync._timer_task t with Some b => [DupSync.cancel b] | None => [] end) /\
    DupSync.close t1
      = Done (DupSync.mkTimer None None
                (DupSync.calls t1 ++ [DupSync.ddebug "stop duplication sync"])) tt /\
    exists t2,
      (DupSync.start (Some k) ;; DupSync.close) t = Done t2 tt /\
      DupSync._timer_task t2 = None /\
      In (DupSync.cancel k) (DupSync.calls t2).
Proof.
  destruct t as [r tm c].
  destruct r as [a|], tm as [b|];
    (eexists; split; [reflexivity|]; split; [reflexivity|]; split; [reflexivity|];
     split; [cbn [DupSync.calls DupSync._rpc_task DupSync._timer_task app];
             rewrite <- ?app_assoc; reflexivity|];
     split; [reflexivity|];
     eexists; split; [reflexivity|]; split; [reflexivity|];
     cbn [DupSync.calls]; rewrite !in_app_iff; cbn [In]; tauto).
Qed.

(** X26.  [start] does not look at [_timer_task]: a second [start] replaces
    the task of the first one without cancelling it, and [close] then cancels
    the second task only.  The timer that the first [start] enqueued is never
    cancelled by this object. *)
Theorem second_start_drops_the_first_task (t : timer) (a b : Z) :
  a <> b -> DupSync._rpc_task t <> Some a -> ~ In (DupSync.cancel a) (DupSync.calls t) ->
  exists t2,
    (DupSync.start (Some a) ;; DupSync.start (Some b) ;; DupSync.close) t = Done t2 tt /\
    DupSync._timer_task t2 = None /\
    In (DupSync.cancel b) (DupSync.calls t2) /\
    ~ In (DupSync.cancel a) (DupSync.calls t2).
Proof.
  intros Hab Hrpc Hnot. destruct t as [r tm c].
  cbn [DupSync._rpc_task DupSync.calls] in *.
  set (out := match r with
              | Some x => [@DupSync.cancel rpc_address duplication_confirm_entry
                             duplication_entry x]
              | None => []
              end).
  exists (DupSync.mkTimer None None
            (((((c ++ [DupSync.ddebug "run duplication sync periodically in {}s"])
                  ++ [DupSync.enqueue_timer])
                 ++ [DupSync.ddebug "run duplication sync periodically in {}s"])
                ++ [DupSync.enqueue_timer])
               ++ [DupSync.ddebug "stop duplication sync"] ++ out ++ [DupSync.cancel b])).
  split; [|split; [reflexivity|]].
  - unfold out. destruct r as [x|]; cbv [bind DupSync.start DupSync.close DupSync.emit
      DupSync.set_timer_task DupSync.set_rpc_task DupSync._rpc_task DupSync._timer_task
      DupSync.calls]; rewrite <- ?app_assoc; reflexivity.
  - cbn [DupSync.calls]. rewrite !in_app_iff. cbn [In]. split; [tauto|].
    intros H.
    assert (Hout : ~ In (DupSync.cancel a) out).
    { unfold out. destruct r as [x|]; cbn [In]; [|tauto].
      intros [E | []]. injection E as E. congruence. }
    repeat match goal with
           | H : _ \/ _ |- _ => destruct H as [H | H]
           end; try contradiction; try discriminate.
    injection H as H. congruence.
Qed.

End DupSyncProperties.


Lemma second_start_drops_the_first_task_witness :
  exists t2,
    (DupSync.start (Some 1) ;; DupSync.start (Some 2) ;; DupSync.close) (@DupSync.init Z Z Z)
      = Done t2 tt /\
    DupSync._timer_task t2 = None /\
    In (DupSync.cancel 2) (DupSync.calls t2) /\
    ~ In (DupSync.cancel 1) (DupSync.calls t2).
Proof.
  apply (second_start_drops_the_first_task (@DupSync.init Z Z Z) 1 2).
  - discriminate.
  - discriminate.
  - intros H. exact H.
Defined.

Lemma sync_resumes_after_any_reply_witness :
  exists t1 t2 t3 confirms',
    DupSync.run 2 4 two_replica_stub (Some 11) (@DupSync.init Z Z Z) = Done t1 tt /\
    DupSync._rpc_task t1 = Some 11 /\
    DupSync.on_duplication_sync_reply 0 two_replica_stub 5
      (DupSync.mkResponse 0 (fun _ => None)) t1 = Done t2 tt /\
    DupSync._rpc_task t2 = None /\
    DupSync.run 2 4 two_replica_stub (Some 12) t2 = Done t3 tt /\
    DupSync._rpc_task t3 = Some 12 /\
    DupSync.calls t3
      = DupSync.calls t2 ++
        [DupSync.counter_set
           (wrap_u64 (DupSync.total_pending (DupSync.get_all_primaries 2 two_replica_stub)));
         DupSync.ddebug "duplication_sync to meta({})";
         DupSync.rpc_call (DupSync.get_meta_server_address two_replica_stub)
           (DupSync.mkRequest (DupSync.primary_address two_replica_stub) confirms')].
Proof.
  apply (sync_resumes_after_any_reply 2 4 0 two_replica_stub two_replica_stub 5
           (DupSync.mkResponse 0 (fun _ => None)) 11 12 (@DupSync.init Z Z Z)).
  - reflexivity.
  - discriminate.
  - discriminate.
Defined.

(** ** [find_mid] computes the median of the medians, level by level *)

Lemma run_medians_aux_fuel f : forall f' l,
  (length l <= f)%nat -> (length l <= f')%nat -> (1 <= f)%nat -> (1 <= f')%nat ->
  run_medians_aux f l = run_medians_aux f' l.
Proof.
  induction f as [|f IH]; intros f' l H H' H1 H1'; [lia|].
  destruct f' as [|f']; [lia|]. cbn [run_medians_aux].
  destruct (Nat.leb_spec (length l) 6) as [Hs | Hb]; [reflexivity|].
  f_equal. apply IH; rewrite ?length_skipn; lia.
Qed.

Lemma run_medians_short l : (length l <= 6)%nat -> (1 <= length l)%nat ->
  run_medians l = [median_of l].
Proof.
  intros H H1. unfold run_medians. destruct (length l) as [|n] eqn:E; [lia|].
  cbn [run_medians_aux]. rewrite E.
  destruct (Nat.leb_spec (Datatypes.S n) 6); [reflexivity | lia].
Qed.

Lemma run_medians_long l : (6 < length l)%nat ->
  run_medians l = median_of (firstn 5 l) :: run_medians (skipn 5 l).
Proof.
  intros H. unfold run_medians. destruct (length l) as [|n] eqn:E; [lia|].
  cbn [run_medians_aux]. rewrite E.
  destruct (Nat.leb_spec (Datatypes.S n) 6); [lia|].
  f_equal. apply run_medians_aux_fuel; rewrite ?length_skipn; lia.
Qed.

Lemma run_medians_length : forall n l,
  length l = n -> (2 <= n)%nat ->
  (1 <= length (run_medians l) < n)%nat.
Proof.
  induction n as [n IH] using lt_wf_ind. intros l Hl Hn.
  destruct (Nat.leb_spec (length l) 6) as [Hs | Hb].
  - rewrite run_medians_short by lia. cbn [length]. lia.
  - rewrite run_medians_long by lia. cbn [length].
    pose proof (IH (n - 5)%nat ltac:(lia) (skipn 5 l)) as H.
    rewrite length_skipn in H. specialize (H ltac:(lia) ltac:(lia)). lia.
Qed.

Lemma median_of_medians_aux_fuel : forall n l f f',
  length l = n -> (n <= f)%nat -> (n <= f')%nat -> (1 <= n)%nat ->
  median_of_medians_aux f l = median_of_medians_aux f' l.
Proof.
  induction n as [n IH] using lt_wf_ind. intros l f f' Hl Hf Hf' Hn.
  destruct f as [|f]; [lia|]. destruct f' as [|f']; [lia|].
  cbn [median_of_medians_aux].
  destruct l as [|x [|y t]]; [cbn in Hl; lia | reflexivity |].
  set (l := x :: y :: t) in *.
  pose proof (run_medians_length n l Hl ltac:(subst n; cbn; lia)) as Hlen.
  apply (IH (length (run_medians l))); lia.
Qed.

Lemma median_of_medians_step l :
  (2 <= length l)%nat -> median_of_medians l = median_of_medians (run_medians l).
Proof.
  intros H. unfold median_of_medians at 1.
  destruct (length l) as [|n] eqn:E; [lia|]. cbn [median_of_medians_aux].
  destruct l as [|x [|y t]]; [cbn in E; lia | cbn in E; lia |].
  set (l := x :: y :: t) in *.
  pose proof (run_medians_length (Datatypes.S n) l E ltac:(lia)) as Hlen.
  apply (median_of_medians_aux_fuel (length (run_medians l))); lia.
Qed.

Lemma firstn_segr a l r k :
  0 <= k -> l + k <= r + 1 -> firstn (Z.to_nat k) (segr a l r) = segr a l (l + k - 1).
Proof.
  intros Hk Hr. rewrite (segr_split a l (l + k) r) by lia.
  rewrite firstn_app.
  assert (E : length (segr a l (l + k - 1)) = Z.to_nat k).
  { apply Nat2Z.inj. rewrite segr_length by lia. lia. }
  rewrite E, Nat.sub_diag. cbn [firstn]. rewrite app_nil_r.
  rewrite <- E. apply firstn_all.
Qed.

Lemma skipn_segr a l r k :
  0 <= k -> l + k <= r + 1 -> skipn (Z.to_nat k) (segr a l r) = segr a (l + k) r.
Proof.
  intros Hk Hr. rewrite (segr_split a l (l + k) r) by lia.
  rewrite skipn_app.
  assert (E : length (segr a l (l + k - 1)) = Z.to_nat k).
  { apply Nat2Z.inj. rewrite segr_length by lia. lia. }
  rewrite E, Nat.sub_diag. cbn [skipn]. rewrite <- E, skipn_all. reflexivity.
Qed.

Lemma segr_snoc a l r : l <= r + 1 -> segr a l (r + 1) = segr a l r ++ [a (r + 1)].
Proof.
  intros H. rewrite (segr_split a l (r + 1) (r + 1)) by lia.
  replace (r + 1 - 1) with r by lia. f_equal.
  unfold segr. replace (Z.to_nat (r + 1 - (r + 1) + 1)) with 1%nat by lia. reflexivity.
Qed.

(** The median of a run after its insertion sort. *)
Lemma sorted_run_median m m0 l r :
  sorted_run m l r -> Permutation (segr m l r) (segr m0 l r) -> l <= r ->
  m (l + Z.quot (r - l + 1) 2) = median_of (segr m0 l r).
Proof.
  intros Hs Hp Hl.
  assert (Hq : Z.quot (r - l + 1) 2 = (r - l + 1) / 2) by (apply Z.quot_div_nonneg; lia).
  assert (Hh : 0 <= (r - l + 1) / 2 <= r - l) by (Z.div_mod_to_equations; lia).
  rewrite Hq. rewrite (sorted_run_rank m m0 l r _ Hs Hp) by lia.
  unfold median_of. f_equal.
  assert (E : length (segr m0 l r) = Z.to_nat (r - l + 1)).
  { apply Nat2Z.inj. rewrite segr_length by lia. lia. }
  rewrite E. replace (l + (r - l + 1) / 2 - l) with ((r - l + 1) / 2) by lia.
  apply Nat2Z.inj. rewrite Nat2Z.inj_div, !Z2Nat.id by lia. reflexivity.
Qed.

Lemma groups_loop_medians fuel left right st :
  0 <= left < right -> right < MAX_QUEUE_LENGTH ->
  (Z.to_nat (right - left) + 9 < fuel)%nat ->
  exists m' i,
    groups_loop fuel left right st = Done (with_mid_temp st m') i /\
    segr m' 0 (Z.quot (right - left - 1) 5) = run_medians (segr (_mid_temp st) left right).
Proof.
  intros Hl Hmax Hfuel. unfold groups_loop.
  set (m0 := _mid_temp st).
  set (T := run_medians (segr m0 left right)).
  destruct (while_rule
    (fun index s => exists m' g, s = with_mid_temp st m' /\ index = left + 5 * g /\ 0 <= g /\
       ((index < right /\ (forall p, index <= p <= right -> m' p = m0 p) /\
         segr m' 0 (g - 1) ++ run_medians (segr m0 index right) = T) \/
        (right <= index < right + 5 /\ g = Z.quot (right - left - 1) 5 + 1 /\
         segr m' 0 (g - 1) = T)))
    (fun index s => exists m', s = with_mid_temp st m' /\
                               segr m' 0 (Z.quot (right - left - 1) 5) = T)
    (fun index _ => Z.to_nat (right + 5 - index))
    (fun index => ret (index <? right))
    (fun index =>
       let remain_num := if index + 5 >=? right then right - index + 1 else 5 in
       sort_group fuel index remain_num ;;
       m <- load_mid_temp (index + Z.quot remain_num 2) ;;
       store_mid_temp (Z.quot (index - left) 5) m ;;
       ret (index + 5)))
    with (fuel := fuel) (v := left) (s := st) as (i & s & Hw & m' & -> & Hpost).
  - intros index s (m' & g & -> & Hidx & Hg & Hinv). unfold ret at 1.
    destruct (Z.ltb_spec index right) as [Hlt | Hge].
    + destruct Hinv as [(_ & Hun & HT) | (Hr & _)]; [|lia].
      right. split; [reflexivity|]. cbv zeta.
      set (remain := if index + 5 >=? right then right - index + 1 else 5).
      assert (Hrem : 2 <= remain <= 6 /\ index + remain - 1 <= right).
      { unfold remain. rewrite Z.geb_leb. destruct (Z.leb_spec right (index + 5)); lia. }
      assert (Hq : 1 <= Z.quot remain 2 < remain).
      { rewrite Z.quot_div_nonneg by lia. split.
        - apply Z.div_le_lower_bound; lia.
        - apply Z.div_lt_upper_bound; lia. }
      destruct (sort_group_sorts fuel index remain (with_mid_temp st m'))
        as (m'' & i' & Hs & Hsorted & Hperm & Hout); try lia.
      fields. rewrite (bind_eq _ Hs). msteps.
      assert (Hg' : Z.quot (index - left) 5 = g).
      { replace (index - left) with (g * 5) by lia. apply Z.quot_mul. lia. }
      rewrite Hg'. msteps.
      assert (Hmed : m'' (index + Z.quot remain 2)
                     = median_of (segr m0 index (index + remain - 1))).
      { replace remain with (index + remain - 1 - index + 1) at 1 by lia.
        apply sorted_run_median; [exact Hsorted | | lia].
        rewrite Hperm. rewrite (segr_ext m' m0); [reflexivity|].
        intros p Hp. apply Hun. lia. }
      assert (Hlow : segr (upd m'' g (m'' (index + Z.quot remain 2))) 0 (g - 1)
                     = segr m' 0 (g - 1)).
      { apply segr_ext. intros p Hp. rewrite upd_other by lia. apply Hout. lia. }
      eexists _, _. split; [reflexivity|]. split; [|lia].
      exists (upd m'' g (m'' (index + Z.quot remain 2))), (g + 1).
      split; [reflexivity|]. split; [lia|]. split; [lia|].
      replace (g + 1 - 1) with (g - 1 + 1) by lia.
      rewrite segr_snoc by lia. replace (g - 1 + 1) with g by lia.
      rewrite Hlow, upd_same, Hmed.
      unfold remain in *. rewrite Z.geb_leb in *.
      destruct (Z.leb_spec right (index + 5)) as [Hlast | Hmore].
      * right. split; [lia|]. split.
        { f_equal. rewrite Z.quot_div_nonneg by lia.
          apply Z.div_unique with (right - left - 1 - 5 * g); lia. }
        rewrite <- HT. f_equal.
        replace (index + (right - index + 1) - 1) with right by lia.
        rewrite run_medians_short; [reflexivity | |];
          apply Nat2Z.inj_le; rewrite segr_length by lia; lia.
      * left. split; [lia|]. split.
        { intros p Hp. rewrite upd_other by lia. rewrite Hout by lia. apply Hun. lia. }
        rewrite <- HT. rewrite (run_medians_long (segr m0 index right)).
        -- change 5%nat with (Z.to_nat 5).
           rewrite firstn_segr, skipn_segr by lia.
           replace (index + 5 - 1) with (index + 4) by lia.
           rewrite <- app_assoc. reflexivity.
        -- apply Nat2Z.inj_lt. rewrite segr_length by lia. lia.
    + left. split; [reflexivity|].
      destruct Hinv as [(Hlt & _) | (_ & Hgq & HT)]; [lia|].
      exists m'. split; [reflexivity|]. rewrite <- HT. f_equal. lia.
  - exists m0, 0. split; [unfold m0; destruct st; reflexivity|].
    split; [lia|]. split; [lia|]. left. split; [lia|]. split; [reflexivity|].
    reflexivity.
  - lia.
  - exists m', i. auto.
Qed.

(** X28.  [find_mid] on [left .. right] returns the median of the medians in
    the sense of its own recursion: the range is cut into runs of five (the
    last run takes what is left once at most six elements are left), each run
    gives its median (position [length / 2] of the sorted run), and the same
    is done with the list of the medians until one value is left.  The stores
    of the medians into the slots [0, 1, ..] of [_mid_temp] never overwrite a
    run that is still to be read. *)
Theorem find_mid_is_the_median_of_medians (fuel : nat) (st : counter) (left right : Z) :
  0 <= left <= right -> right < MAX_QUEUE_LENGTH ->
  (Z.to_nat (right - left) + 10 < fuel)%nat ->
  exists m',
    find_mid fuel left right st
      = Done (with_mid_temp st m') (median_of_medians (segr (_mid_temp st) left right)).
Proof.
  revert st left right.
  induction fuel as [|f IH]; intros st left right Hl Hmax Hfuel; [lia|].
  cbn [find_mid]. destruct (Z.eqb_spec left right) as [-> | Hne].
  - exists (_mid_temp st). rewrite load_mid_temp_ok by lia.
    replace (segr (_mid_temp st) right right) with [_mid_temp st right].
    + destruct st; reflexivity.
    + unfold segr. replace (Z.to_nat (right - right + 1)) with 1%nat by lia. reflexivity.
  - destruct (groups_loop_medians (Datatypes.S f) left right st) as (m1 & i & Hg & Hm);
      try lia.
    rewrite (bind_eq _ Hg).
    assert (Hq : 0 <= Z.quot (right - left - 1) 5 <= right - left - 1).
    { rewrite Z.quot_div_nonneg by lia. split.
      - apply Z.div_pos; lia.
      - apply Z.div_le_upper_bound; lia. }
    destruct (IH (with_mid_temp st m1) 0 (Z.quot (right - left - 1) 5)) as (m2 & Hf);
      try lia.
    exists m2. rewrite Hf. fields. rewrite Hm.
    rewrite <- median_of_medians_step; [reflexivity|].
    apply Nat2Z.inj_le. rewrite segr_length by lia. lia.
Qed.

Lemma find_mid_is_the_median_of_medians_witness :
  exists m',
    find_mid 100 1 12 (with_mid_temp zero_mem (fun i => (7 * i) mod 13))
      = Done (with_mid_temp (with_mid_temp zero_mem (fun i => (7 * i) mod 13)) m')
             (median_of_medians
                (segr (_mid_temp (with_mid_temp zero_mem (fun i => (7 * i) mod 13))) 1 12)).
Proof.
  apply (find_mid_is_the_median_of_medians 100
           (with_mid_temp zero_mem (fun i => (7 * i) mod 13)) 1 12).
  - lia.
  - reflexivity.
  - vm_compute. lia.
Defined.
